(** * Celestia virtual textures: the tile quadtree of [virtualtex.cpp]

    A shallow embedding of [src/celengine/virtualtex.cpp]: the quadtree
    of tiles, the best-match walk of [VirtualTexture::getTile], the
    on-demand residency step, the catalog scan of the constructor and
    the factory [CreateVirtualTexture], followed by the properties the
    specification states about them.

    Conventions.
    - C++ [int] and [unsigned int] are 32 bits wide.  They are carried as
      [Z] with the reduction modulo 2^32 written at every operation that
      can leave the range ([wrap_int], [wrap_uint]).  A shift is the
      mathematical shift reduced to 32 bits, which is what C++ gives for
      a count below 32.  The theorems on requests assume that no level
      reaches 30 ([levels_fit], [wf]); then every count is below 32 and
      nothing is reduced.  The theorem on the scan goes up to level 30
      ([levels_defined]), where the width [2 << 30] of the grid is
      reduced to [INT_MIN].
    - An array access outside its bounds, a dangling [Tile*] and a failed
      [assert] have no defined result: the functions that contain one
      return [option], with [None] for those cases.
    - [Tile] objects live on the free store; the model keeps them in a
      list indexed by the pointer, and the quadtree stores pointers.
    - The [float] sub-rectangle of a [TextureTile] is carried as a
      rational.  In a manager built by the constructor every number the
      code computes there is [m / 2^k] with [k <= 12] and [m < 2^k]
      ([served_subrect_exact]), which a [float] holds exactly.
    - The image decoder, the texture objects and the path arithmetic are
      parameters ([External]); the directories read by the constructor
      are a value of [FileSystem]. *)

From Stdlib Require Import ZArith List String Ascii Bool Lia QArith Qround.
From stdpp Require Import base option list numbers.

Set Warnings "-register-all".

Local Open Scope Z_scope.
Local Open Scope bool_scope.

(** ** 32-bit machine integers *)

Module Int32.

Definition wrap_uint (x : Z) : Z := x mod 2 ^ 32.

Definition wrap_int (x : Z) : Z := (x + 2 ^ 31) mod 2 ^ 32 - 2 ^ 31.

Definition is_int (x : Z) : Prop := - 2 ^ 31 <= x < 2 ^ 31.

Definition is_uint (x : Z) : Prop := 0 <= x < 2 ^ 32.

(** [a << n] at type [int]. *)
Definition int_shl (a n : Z) : Z := wrap_int (a ≪ n).

(** [a << n] at type [unsigned int]. *)
Definition uint_shl (a n : Z) : Z := wrap_uint (a ≪ n).

End Int32.
Export Int32.

Definition MaxResolutionLevels : Z := 13.

(** [static bool isPow2(int x)]: [(x & (x - 1)) == 0]. *)
Definition isPow2 (x : Z) : bool := Z.land x (wrap_int (x - 1)) =? 0.

(** ** The quadtree *)

(** A [Tile*]: the position of the tile among the allocated tiles. *)
Abbreviation TilePtr := nat (only parsing).

(** Modelled from the spec: [struct TileQuadtreeNode] is declared in
    [virtualtex.h], which is not among the sources.  One node of a 4-ary
    tree, indexed by a 2-bit child selector; a node may own a tile and up
    to four child nodes.  The fields are the two that [virtualtex.cpp]
    reads and writes, [tile] and [children[4]]; a null pointer is [None]. *)
Inductive TileQuadtreeNode : Type :=
| QNode (tile : option TilePtr) (c0 c1 c2 c3 : option TileQuadtreeNode).

(** [new TileQuadtreeNode()] *)
Definition emptyNode : TileQuadtreeNode := QNode None None None None None.

Definition node_tile (n : TileQuadtreeNode) : option TilePtr :=
  match n with QNode t _ _ _ _ => t end.

(** [node->children[c]]: [None] when [c] is outside the array, [Some None]
    for a null child. *)
Definition child_at (n : TileQuadtreeNode) (c : Z)
  : option (option TileQuadtreeNode) :=
  match n with
  | QNode _ c0 c1 c2 c3 =>
      match c with
      | 0 => Some c0
      | 1 => Some c1
      | 2 => Some c2
      | 3 => Some c3
      | _ => None
      end
  end.

(** [node->children[c] = x] *)
Definition set_child (n : TileQuadtreeNode) (c : Z) (x : TileQuadtreeNode)
  : TileQuadtreeNode :=
  match n with
  | QNode t c0 c1 c2 c3 =>
      match c with
      | 0 => QNode t (Some x) c1 c2 c3
      | 1 => QNode t c0 (Some x) c2 c3
      | 2 => QNode t c0 c1 (Some x) c3
      | 3 => QNode t c0 c1 c2 (Some x)
      | _ => n
      end
  end.

Definition set_tile (n : TileQuadtreeNode) (p : TilePtr) : TileQuadtreeNode :=
  match n with QNode _ c0 c1 c2 c3 => QNode (Some p) c0 c1 c2 c3 end.

(** The child selector of both walks, with [k = lod - n - 1]:
    [mask = 1 << k; child = (((v & mask) << 1) | (u & mask)) >> k]. *)
Definition child_index (k u v : Z) : Z :=
  let mask := wrap_uint (int_shl 1 k) in
  (Z.lor (uint_shl (Z.land (wrap_uint v) mask) 1)
         (Z.land (wrap_uint u) mask)) ≫ k.

(** [TileQuadtreeNode* tileTree[2]] *)
Definition TileTree : Type := (TileQuadtreeNode * TileQuadtreeNode)%type.

(** [tileTree[i]] *)
Definition root_at (t : TileTree) (i : Z) : option TileQuadtreeNode :=
  match i with
  | 0 => Some (fst t)
  | 1 => Some (snd t)
  | _ => None
  end.

Definition set_root (t : TileTree) (i : Z) (n : TileQuadtreeNode) : TileTree :=
  match i with
  | 0 => (n, snd t)
  | 1 => (fst t, n)
  | _ => t
  end.

(** The loop of [VirtualTexture::getTile] (lines 101-115).  [k] counts the
    iterations that remain, so the loop index is [n = lod - k]. *)
Fixpoint descend (k : nat) (lod u v : Z) (node : TileQuadtreeNode)
    (tile : option TilePtr) (tileLOD : Z) : option (option TilePtr * Z) :=
  match k with
  | O => Some (tile, tileLOD)
  | S k' =>
      let n := lod - Z.of_nat k in
      match child_at node (child_index (lod - n - 1) u v) with
      | None => None
      | Some None => Some (tile, tileLOD)
      | Some (Some node') =>
          match node_tile node' with
          | Some t => descend k' lod u v node' (Some t) (wrap_uint (n + 1))
          | None => descend k' lod u v node' tile tileLOD
          end
      end
  end.

(** The loop and the final attachment of [VirtualTexture::addTileToTree]
    (lines 286-297), as a function on the node it starts from.  [k] counts
    the iterations that remain, so the loop index is [i = lod - k]. *)
Fixpoint insert_below (k : nat) (lod u v : Z) (tile : TilePtr)
    (node : TileQuadtreeNode) : option TileQuadtreeNode :=
  match k with
  | O =>
      match node_tile node with
      | None => Some (set_tile node tile)
      | Some _ => Some node
      end
  | S k' =>
      let i := lod - Z.of_nat k in
      let child := child_index (wrap_uint (lod - i - 1)) u v in
      match child_at node child with
      | None => None
      | Some c =>
          let next := match c with
                      | None => emptyNode
                      | Some x => x
                      end in
          match insert_below k' lod u v tile next with
          | None => None
          | Some next' => Some (set_child node child next')
          end
      end
  end.

(** [VirtualTexture::addTileToTree] *)
Definition addTileToTree (tree : TileTree) (tile : TilePtr) (lod u v : Z)
  : option TileTree :=
  match root_at tree (u ≫ lod) with
  | None => None
  | Some node =>
      match insert_below (Z.to_nat lod) lod u v tile node with
      | None => None
      | Some node' => Some (set_root tree (u ≫ lod) node')
      end
  end.

(** The walk of [VirtualTexture::getTile] (lines 97-115): from the root
    [tileTree[u >> lod]] down the path of [(u, v)], remembering the last
    tile met and the depth at which it was met. *)
Definition bestMatch (tree : TileTree) (lod u v : Z)
  : option (option TilePtr * Z) :=
  match root_at tree (u ≫ lod) with
  | None => None
  | Some node => descend (Z.to_nat lod) lod u v node (node_tile node) 0
  end.

(** ** Tiles, images and the collaborators outside this file *)

(** Modelled from the spec: [class Image] is declared outside
    [virtualtex.cpp].  What the decoder returns: a decoded image with a
    width, a height and a compressed/uncompressed flag. *)
Record Image : Type := {
  getWidth : Z;
  getHeight : Z;
  isCompressed : bool
}.

Inductive MipMapMode : Type := DefaultMipMaps | NoMipMaps.

Inductive AddressMode : Type := EdgeClamp.

(** The file that [loadTileTexture] asks for:
    [tilePath / "level<N>" / "<prefix><u>_<v><ext>"]. *)
Record TileFile : Type := {
  fileRoot : string;
  fileLevel : Z;
  filePrefix : string;
  fileU : Z;
  fileV : Z;
  fileExt : string
}.

(** What lies outside [virtualtex.cpp]: the image decoder, the texture
    objects of the graphics library and the path arithmetic.  The state
    of that outside world is threaded through the calls, so a file may
    decode at one time and fail at another. *)
Class External : Type := {
  World : Type;
  ImageTexture : Type;
  getName : ImageTexture -> Z;
  LoadImageFromFile : World -> TileFile -> World * option Image;
  newImageTexture :
    World -> Image -> AddressMode -> MipMapMode -> World * ImageTexture;
  is_relative : string -> bool;
  path_append : string -> string -> string
}.

(** Modelled from the spec: [struct TextureTile] is declared in
    [texture.h], which is not among the sources.  The descriptor that
    [getTile] returns: a texture identity, with the four numbers of a
    sub-rectangle or, for the identity alone, without.  The two
    constructors are the two constructor calls of [getTile],
    [TextureTile(id)] and [TextureTile(id, u, v, du, dv)]. *)
Inductive TextureTile : Type :=
| TextureTile1 (texID : Z)
| TextureTile5 (texID : Z) (texU texV texDU texDV : Q).

Definition texID (t : TextureTile) : Z :=
  match t with
  | TextureTile1 i => i
  | TextureTile5 i _ _ _ _ => i
  end.

(** The descriptor with the "no texture" identity, [TextureTile(0)]. *)
Definition noTexture : TextureTile := TextureTile1 0.

(** The directories that the constructor scans: for a root path and a
    level index [i], whether [root/level<i>] is a directory and, if so,
    the file names that iterating over it yields. *)
Record FileSystem : Type := {
  is_directory : string -> Z -> bool;
  directory_entries : string -> Z -> list string
}.

(** Modelled from the spec: [class Hash] is declared in [parser.h],
    which is not among the sources.  The configuration record read by
    [CreateVirtualTexture]: image directory, base split, tile size, tile
    type and tile prefix.  [getString] and [getNumber<double>] give
    nothing for a key that is absent; a number is a finite [double],
    carried as a rational. *)
Record Hash : Type := {
  ImageDirectory : option string;
  BaseSplit : option Q;
  TileSize : option Q;
  TileType : option string;
  TilePrefix : option string
}.

(** ** Reading a file name: [sscanf] with the pattern of the scan *)

Module Scanf.

Local Open Scope char_scope.

(** [isspace] in the C locale. *)
Definition isspace (c : ascii) : bool :=
  let n := nat_of_ascii c in
  (n =? 32)%nat || ((9 <=? n)%nat && (n <=? 13)%nat).

Definition digit_value (c : ascii) : option Z :=
  let n := nat_of_ascii c in
  if (48 <=? n)%nat && (n <=? 57)%nat then Some (Z.of_nat n - 48) else None.

Fixpoint skip_space (s : string) : string :=
  match s with
  | String c r => if isspace c then skip_space r else s
  | EmptyString => s
  end.

(** The digits at the head of [s], accumulated in base ten. *)
Fixpoint scan_digits (s : string) (acc : Z) : Z * string :=
  match s with
  | String c r =>
      match digit_value c with
      | Some d => scan_digits r (10 * acc + d)
      | None => (acc, s)
      end
  | EmptyString => (acc, s)
  end.

Definition starts_with_digit (s : string) : bool :=
  match s with
  | String c _ => match digit_value c with Some _ => true | None => false end
  | EmptyString => false
  end.

(** What the C library makes of a number that does not fit a [long]
    (64 bits): the nearest end of the range, as [strtol] does. *)
Definition clamp_long (n : Z) : Z :=
  Z.max (- 2 ^ 63) (Z.min n (2 ^ 63 - 1)).

(** The conversion [%d]: blanks, an optional sign, at least one digit.
    The digits are converted to a [long], which saturates, and the
    [long] is stored in an [int], which keeps its low 32 bits. *)
Definition scan_int (s : string) : option (Z * string) :=
  let s1 := skip_space s in
  let '(neg, s2) :=
    match s1 with
    | String c r =>
        if Ascii.eqb c "-" then (true, r)
        else if Ascii.eqb c "+" then (false, r)
        else (false, s1)
    | EmptyString => (false, s1)
    end in
  if starts_with_digit s2 then
    let '(n, rest) := scan_digits s2 0 in
    Some (wrap_int (clamp_long (if neg then - n else n)), rest)
  else None.

(** [sscanf(input, pattern, ...)] for patterns made of ordinary
    characters, blanks and [%d]: the integers converted before the first
    mismatch, in order.  The C function returns their count. *)
Fixpoint sscanf (pattern input : string) : list Z :=
  match pattern with
  | EmptyString => []
  | String c rest =>
      if Ascii.eqb c "%" then
        match rest with
        | String d rest' =>
            if Ascii.eqb d "d" then
              match scan_int input with
              | Some (n, input') => n :: sscanf rest' input'
              | None => []
              end
            else []
        | EmptyString => []
        end
      else if isspace c then sscanf rest (skip_space input)
      else
        match input with
        | String c' input' =>
            if Ascii.eqb c c' then sscanf rest input' else []
        | EmptyString => []
        end
  end.

(** [s.find('%') != string::npos] *)
Fixpoint has_percent (s : string) : bool :=
  match s with
  | String c r => Ascii.eqb c "%" || has_percent r
  | EmptyString => false
  end.

End Scanf.
Export Scanf.

(** ** The manager *)

Section Manager.

Context `{Ext : External}.

(** Modelled from the spec: [struct Tile] is declared in [virtualtex.h],
    which is not among the sources.  The handle of the decoded texture,
    absent until the tile is first loaded, and the sticky flag that a
    load failed: the members [tex] and [loadFailed] of [makeResident]. *)
Record Tile : Type := {
  tex : option ImageTexture;
  loadFailed : bool
}.

(** [new Tile()] *)
Definition newTile : Tile := {| tex := None; loadFailed := false |}.

(** Modelled from the spec: [class VirtualTexture] is declared in
    [virtualtex.h], which is not among the sources.  Its members are
    those that the constructor initialises and [virtualtex.cpp] uses:
    the path, prefix and extension of the tile files, the base split, the
    tile size, the two counters, the number of levels found by the scan,
    the compressed flag and the two roots.  [tiles] holds the [Tile]
    objects that the pointers in [tileTree] refer to. *)
Record VirtualTexture : Type := {
  tilePath : string;
  tilePrefix : string;
  tileExt : string;
  baseSplit : Z;
  tileSize : Z;
  ticks : Z;
  tilesRequested : Z;
  nResolutionLevels : Z;
  compressed : bool;
  tileTree : TileTree;
  tiles : list Tile
}.

Definition with_tilesRequested (s : VirtualTexture) (x : Z) : VirtualTexture :=
  {| tilePath := tilePath s; tilePrefix := tilePrefix s; tileExt := tileExt s;
     baseSplit := baseSplit s; tileSize := tileSize s; ticks := ticks s;
     tilesRequested := x; nResolutionLevels := nResolutionLevels s;
     compressed := compressed s; tileTree := tileTree s; tiles := tiles s |}.

Definition with_ticks (s : VirtualTexture) (x : Z) : VirtualTexture :=
  {| tilePath := tilePath s; tilePrefix := tilePrefix s; tileExt := tileExt s;
     baseSplit := baseSplit s; tileSize := tileSize s; ticks := x;
     tilesRequested := tilesRequested s;
     nResolutionLevels := nResolutionLevels s;
     compressed := compressed s; tileTree := tileTree s; tiles := tiles s |}.

Definition with_nResolutionLevels (s : VirtualTexture) (x : Z)
  : VirtualTexture :=
  {| tilePath := tilePath s; tilePrefix := tilePrefix s; tileExt := tileExt s;
     baseSplit := baseSplit s; tileSize := tileSize s; ticks := ticks s;
     tilesRequested := tilesRequested s; nResolutionLevels := x;
     compressed := compressed s; tileTree := tileTree s; tiles := tiles s |}.

Definition with_compressed (s : VirtualTexture) (x : bool) : VirtualTexture :=
  {| tilePath := tilePath s; tilePrefix := tilePrefix s; tileExt := tileExt s;
     baseSplit := baseSplit s; tileSize := tileSize s; ticks := ticks s;
     tilesRequested := tilesRequested s;
     nResolutionLevels := nResolutionLevels s;
     compressed := x; tileTree := tileTree s; tiles := tiles s |}.

Definition with_tree (s : VirtualTexture) (t : TileTree) (h : list Tile)
  : VirtualTexture :=
  {| tilePath := tilePath s; tilePrefix := tilePrefix s; tileExt := tileExt s;
     baseSplit := baseSplit s; tileSize := tileSize s; ticks := ticks s;
     tilesRequested := tilesRequested s;
     nResolutionLevels := nResolutionLevels s;
     compressed := compressed s; tileTree := t; tiles := h |}.

Definition with_tiles (s : VirtualTexture) (h : list Tile) : VirtualTexture :=
  with_tree s (tileTree s) h.

(** The outside world together with the record of the files handed to
    the decoder so far, latest first. *)
Record Env : Type := {
  world : World;
  decoded : list TileFile
}.

(** [VirtualTexture::loadTileTexture] *)
Definition loadTileTexture (s : VirtualTexture) (e : Env) (lod u v : Z)
  : option (VirtualTexture * Env * option ImageTexture) :=
  let lod := lod ≫ baseSplit s in
  if lod <? MaxResolutionLevels then
    let path := {| fileRoot := tilePath s; fileLevel := lod;
                   filePrefix := tilePrefix s; fileU := u; fileV := v;
                   fileExt := tileExt s |} in
    let '(w, img) := LoadImageFromFile (world e) path in
    let log := path :: decoded e in
    match img with
    | None => Some (s, {| world := w; decoded := log |}, None)
    | Some img =>
        let mipMapMode := if lod =? 0 then DefaultMipMaps else NoMipMaps in
        if isPow2 (getWidth img) && isPow2 (getHeight img) then
          let '(w', t) := newImageTexture w img EdgeClamp mipMapMode in
          Some (with_compressed s (isCompressed img),
                {| world := w'; decoded := log |}, Some t)
        else
          Some (with_compressed s (isCompressed img),
                {| world := w; decoded := log |}, None)
    end
  else None.

(** [VirtualTexture::makeResident] *)
Definition makeResident (s : VirtualTexture) (e : Env) (tile : TilePtr)
    (lod u v : Z) : option (VirtualTexture * Env) :=
  t ← tiles s !! tile;
  match tex t with
  | None =>
      if negb (loadFailed t) then
        '(s', e', r) ← loadTileTexture s e lod u v;
        let t' := match r with
                  | Some x => {| tex := Some x; loadFailed := loadFailed t |}
                  | None => {| tex := None; loadFailed := true |}
                  end in
        Some (with_tiles s' (<[tile := t']> (tiles s')), e')
      else Some (s, e)
  | Some _ => Some (s, e)
  end.

(** The test of [getTile] on the absolute level and the coordinates
    (lines 90-92). *)
Definition out_of_range (s : VirtualTexture) (lod u v : Z) : bool :=
  (lod <? 0) || (nResolutionLevels s <=? wrap_uint lod)
  || (u <? 0) || (int_shl 2 lod <=? u)
  || (v <? 0) || (int_shl 1 lod <=? v).

(** The descriptor built at the end of [getTile] (lines 133-146) for the
    texture named [name] of a tile found at depth [tileLOD]. *)
Definition subTile (name lod tileLOD u v : Z) : TextureTile :=
  let lodDiff := wrap_uint (lod - tileLOD) in
  let texDU := (1 / inject_Z (int_shl 1 lodDiff))%Q in
  let texDV := texDU in
  let texU :=
    (inject_Z (Z.land u (wrap_int (int_shl 1 lodDiff - 1))) * texDU)%Q in
  let texV :=
    (inject_Z (Z.land v (wrap_int (int_shl 1 lodDiff - 1))) * texDV)%Q in
  TextureTile5 name texU texV texDU texDV.

(** [VirtualTexture::getTile] *)
Definition getTile (s : VirtualTexture) (e : Env) (lod u v : Z)
  : option (VirtualTexture * Env * TextureTile) :=
  let s := with_tilesRequested s (wrap_uint (tilesRequested s + 1)) in
  let lod := wrap_int (lod + baseSplit s) in
  if out_of_range s lod u v then Some (s, e, noTexture)
  else
    '(tile, tileLOD) ← bestMatch (tileTree s) lod u v;
    match tile with
    | None => Some (s, e, noTexture)
    | Some tile =>
        let tileU := wrap_uint (u ≫ wrap_uint (lod - tileLOD)) in
        let tileV := wrap_uint (v ≫ wrap_uint (lod - tileLOD)) in
        '(s', e') ← makeResident s e tile tileLOD tileU tileV;
        t ← tiles s' !! tile;
        match tex t with
        | None => Some (s', e', noTexture)
        | Some tx => Some (s', e', subTile (getName tx) lod tileLOD u v)
        end
    end.

(** [VirtualTexture::getLODCount] *)
Definition getLODCount (s : VirtualTexture) : Z :=
  wrap_int (nResolutionLevels s - baseSplit s).

(** [VirtualTexture::getUTileCount] *)
Definition getUTileCount (s : VirtualTexture) (lod : Z) : Z :=
  int_shl 2 (wrap_uint (lod + baseSplit s)).

(** [VirtualTexture::getVTileCount] *)
Definition getVTileCount (s : VirtualTexture) (lod : Z) : Z :=
  int_shl 1 (wrap_uint (lod + baseSplit s)).

(** [VirtualTexture::beginUsage] *)
Definition beginUsage (s : VirtualTexture) : VirtualTexture :=
  with_tilesRequested (with_ticks s (wrap_uint (ticks s + 1))) 0.

(** [VirtualTexture::endUsage] *)
Definition endUsage (s : VirtualTexture) : VirtualTexture := s.

(** *** The catalog scan *)

(** A loop over a list whose body may be undefined. *)
Fixpoint for_each {A S : Type} (body : S -> A -> option S) (l : list A)
    (s : S) : option S :=
  match l with
  | [] => Some s
  | x :: l' =>
      match body s x with
      | None => None
      | Some s' => for_each body l' s'
      end
  end.

(** The pattern given to [sscanf]: empty when the prefix holds a [%]. *)
Definition scan_pattern (prefix : string) : string :=
  if has_percent prefix then EmptyString
  else (prefix ++ "%d_%d.")%string.

(** The body of the loop over the entries of one directory (lines
    264-273) on the tree and the allocated tiles. *)
Definition scan_entry (pattern : string) (maxLevel uLimit vLimit : Z)
    (st : TileTree * list Tile) (d : string) : option (TileTree * list Tile) :=
  match sscanf pattern d with
  | [u; v] =>
      if (0 <=? u) && (0 <=? v) && (u <? uLimit) && (v <? vLimit) then
        let tile := length (snd st) in
        match addTileToTree (fst st) tile maxLevel (wrap_uint u) (wrap_uint v)
        with
        | None => None
        | Some tree' => Some (tree', snd st ++ [newTile])
        end
      else Some st
  | _ => Some st
  end.

(** The body of the loop over the levels (lines 254-275).  The state is
    [maxLevel] with the tree and the allocated tiles. *)
Definition scan_level (fs : FileSystem) (root pattern : string) (B : Z)
    (st : Z * (TileTree * list Tile)) (i : Z)
  : option (Z * (TileTree * list Tile)) :=
  if is_directory fs root i then
    let maxLevel := wrap_uint (i + B) in
    let uLimit := int_shl 2 maxLevel in
    let vLimit := int_shl 1 maxLevel in
    match for_each (scan_entry pattern maxLevel uLimit vLimit)
                   (directory_entries fs root i) (snd st) with
    | None => None
    | Some st' => Some (maxLevel, st')
    end
  else Some st.

(** [VirtualTexture::populateTileTree] *)
Definition populateTileTree (fs : FileSystem) (s : VirtualTexture)
  : option VirtualTexture :=
  let pattern := scan_pattern (tilePrefix s) in
  match for_each (scan_level fs (tilePath s) pattern (baseSplit s))
                 (seqZ 0 MaxResolutionLevels) (0, (tileTree s, tiles s)) with
  | None => None
  | Some (maxLevel, (tree, heap)) =>
      Some (with_nResolutionLevels (with_tree s tree heap)
                                   (wrap_uint (maxLevel + 1)))
  end.

(** The constructor [VirtualTexture::VirtualTexture].  The dimensions
    handed to the base class and the format option for normal maps play
    no part in what follows and are left out. *)
Definition newVirtualTexture (fs : FileSystem) (_tilePath : string)
    (_baseSplit _tileSize : Z) (_tilePrefix _tileType : string)
  : option VirtualTexture :=
  if negb (_tileSize =? 0) && isPow2 (wrap_int _tileSize) then
    populateTileTree fs
      {| tilePath := _tilePath; tilePrefix := _tilePrefix;
         tileExt := ("." ++ _tileType)%string;
         baseSplit := _baseSplit; tileSize := _tileSize;
         ticks := 0; tilesRequested := 0; nResolutionLevels := 0;
         compressed := false;
         tileTree := (emptyNode, emptyNode); tiles := [] |}
  else None.

(** [a < b] on the numbers of the parameter block. *)
Definition Qltb (a b : Q) : bool := negb (Qle_bool b a).

(** [x != floor(x)] *)
Definition not_integral (x : Q) : bool :=
  negb (Qeq_bool x (inject_Z (Qfloor x))).

(** The integer part of [x], towards zero. *)
Definition Qtrunc (x : Q) : Z :=
  if Qle_bool 0 x then Qfloor x else Qceiling x.

(** [(int) x] for a [double] [x]: the integer part of [x] when that is
    an [int].  Outside that range the language leaves the result open;
    the conversion instruction of the x86-64 build gives [INT_MIN]
    then, and so does this definition. *)
Definition double_to_int (x : Q) : Z :=
  let z := Qtrunc x in
  if (- 2 ^ 31 <=? z) && (z <? 2 ^ 31) then z else - 2 ^ 31.

(** [(unsigned int) x] for a [double] [x]: the integer part of [x] when
    that is an [unsigned int].  Outside that range the x86-64 build
    converts to 64 bits and keeps the low 32, with 0 for what does not
    fit 64 bits either. *)
Definition double_to_uint (x : Q) : Z :=
  let z := Qtrunc x in
  if (- 2 ^ 63 <=? z) && (z <? 2 ^ 63) then wrap_uint z else 0.

(** [CreateVirtualTexture]: [Some None] is the null result, [None] a
    construction that stops at the assertion of the constructor. *)
Definition CreateVirtualTexture (fs : FileSystem) (texParams : Hash)
    (path : string) : option (option VirtualTexture) :=
  match ImageDirectory texParams with
  | None => Some None
  | Some imageDirectory =>
      match BaseSplit texParams with
      | None => Some None
      | Some baseSplit =>
          if Qltb baseSplit 0 || not_integral baseSplit
          then Some None
          else
            match TileSize texParams with
            | None => Some None
            | Some tileSize =>
                if not_integral tileSize
                   || Qltb tileSize 64
                   || negb (isPow2 (double_to_int tileSize))
                then Some None
                else
                  let tileType := default "dds"%string (TileType texParams) in
                  let tilePrefix :=
                    default "tx_"%string (TilePrefix texParams) in
                  let directory :=
                    if is_relative imageDirectory
                    then path_append path imageDirectory
                    else imageDirectory in
                  match newVirtualTexture fs directory
                          (double_to_uint baseSplit)
                          (double_to_uint tileSize) tilePrefix tileType
                  with
                  | None => None
                  | Some vt => Some (Some vt)
                  end
            end
      end
  end.

End Manager.

(** ** Addresses, paths and the catalog

    The vocabulary of the statements below.  A node of the quadtree is
    named by the root it hangs from and the list of quadrants taken from
    there; a tile address [(level, u, v)] names the node under root
    [u / 2^level] whose path lists bit [level - 1] down to bit [0] of
    [v] and [u]. *)

(** A quadrant: the bit of [v] and the bit of [u]. *)
Abbreviation Quadrant := (bool * bool)%type (only parsing).

Definition sel (n : TileQuadtreeNode) (q : Quadrant)
  : option TileQuadtreeNode :=
  match n with
  | QNode _ c0 c1 c2 c3 =>
      match q with
      | (false, false) => c0
      | (false, true) => c1
      | (true, false) => c2
      | (true, true) => c3
      end
  end.

Definition set_sel (n : TileQuadtreeNode) (q : Quadrant)
    (x : TileQuadtreeNode) : TileQuadtreeNode :=
  match n with
  | QNode t c0 c1 c2 c3 =>
      match q with
      | (false, false) => QNode t (Some x) c1 c2 c3
      | (false, true) => QNode t c0 (Some x) c2 c3
      | (true, false) => QNode t c0 c1 (Some x) c3
      | (true, true) => QNode t c0 c1 c2 (Some x)
      end
  end.

Definition quadrant_index (q : Quadrant) : Z :=
  2 * Z.b2z (fst q) + Z.b2z (snd q).

Definition quadrant (k u v : Z) : Quadrant := (Z.testbit v k, Z.testbit u k).

(** The quadrants from bit [k - 1] down to bit [0]. *)
Fixpoint path_of (k : nat) (u v : Z) : list Quadrant :=
  match k with
  | O => []
  | S k' => quadrant (Z.of_nat k') u v :: path_of k' u v
  end.

Fixpoint node_at (path : list Quadrant) (n : TileQuadtreeNode)
  : option TileQuadtreeNode :=
  match path with
  | [] => Some n
  | q :: path' =>
      match sel n q with
      | None => None
      | Some c => node_at path' c
      end
  end.

(** The tile carried by the node at the end of [path], if that node
    exists and carries one. *)
Definition tile_on (path : list Quadrant) (n : TileQuadtreeNode)
  : option TilePtr :=
  match node_at path n with
  | Some m => node_tile m
  | None => None
  end.

(** Attaching a tile at the end of [path], creating the nodes that are
    missing; a tile already there stays. *)
Fixpoint insert_path (path : list Quadrant) (p : TilePtr)
    (n : TileQuadtreeNode) : TileQuadtreeNode :=
  match path with
  | [] =>
      match node_tile n with
      | None => set_tile n p
      | Some _ => n
      end
  | q :: path' =>
      set_sel n q (insert_path path' p (default emptyNode (sel n q)))
  end.

(** The walk along [path] below [n]: the last tile met and the depth at
    which it was met, or [(tile, depth)] when no node below [n] on the
    path carries one.  [d] is the depth of [n]. *)
Fixpoint best_on (path : list Quadrant) (n : TileQuadtreeNode)
    (tile : option TilePtr) (depth d : Z) : option TilePtr * Z :=
  match path with
  | [] => (tile, depth)
  | q :: path' =>
      match sel n q with
      | None => (tile, depth)
      | Some c =>
          match node_tile c with
          | Some t => best_on path' c (Some t) (d + 1) (d + 1)
          | None => best_on path' c tile depth (d + 1)
          end
      end
  end.

(** The tile carried by the node of address [(level, u, v)]. *)
Definition tile_at (tree : TileTree) (level u v : Z) : option TilePtr :=
  match root_at tree (u ≫ level) with
  | Some n => tile_on (path_of (Z.to_nat level) u v) n
  | None => None
  end.

(** The grid of level [level] is [2^(level+1)] tiles wide and [2^level]
    tiles tall. *)
Definition in_grid (level u v : Z) : Prop :=
  0 <= u < 2 ^ (level + 1) /\ 0 <= v < 2 ^ level.

Definition in_gridb (level u v : Z) : bool :=
  (0 <=? u) && (u <? 2 ^ (level + 1)) && (0 <=? v) && (v <? 2 ^ level).

(** Addresses whose level arithmetic stays inside an [int]. *)
Definition valid_address (level u v : Z) : Prop :=
  0 <= level <= 29 /\ in_grid level u v.

(** The insertions that the scan can make. *)
Definition valid_op (op : nat * Z * Z * Z) : Prop :=
  0 <= op.1.1.2 <= 29 /\ in_grid op.1.1.2 op.1.2 op.2.

(** The directories fit: every level directory that exists lies at an
    absolute level of at most 29, so that the width [2 << level] of its
    grid is an [int] and every shift of the code has a count below 32. *)
Definition levels_fit (fs : FileSystem) (root : string) (B : Z) : Prop :=
  0 <= B <= 29 /\
  forall i, 0 <= i < MaxResolutionLevels ->
            is_directory fs root i = true -> i + B <= 29.

(** What a file name contributes at absolute level [level]: the
    coordinates read by [sscanf] when it converts two integers and they
    lie in the grid of that level. *)
Definition accepted (pattern : string) (level : Z) (d : string)
  : option (Z * Z) :=
  match sscanf pattern d with
  | [u; v] => if in_gridb level u v then Some (u, v) else None
  | _ => None
  end.

(** A sequence of insertions [(tile, level, u, v)]. *)
Fixpoint insert_all (ops : list (TilePtr * Z * Z * Z)) (tree : TileTree)
  : option TileTree :=
  match ops with
  | [] => Some tree
  | (p, level, u, v) :: ops' =>
      match addTileToTree tree p level u v with
      | None => None
      | Some tree' => insert_all ops' tree'
      end
  end.

(** The files among [entries] that create a tile at absolute level [m],
    in order, each with the index [i] of its directory. *)
Definition accepted_entries (pattern : string) (m i : Z)
    (entries : list string) : list (Z * Z * Z) :=
  d ← entries;
  match accepted pattern m d with
  | Some (u, v) => [(i, u, v)]
  | None => []
  end.

(** The files of [level<i>] that create a tile. *)
Definition level_catalog (fs : FileSystem) (root prefix : string) (B i : Z)
  : list (Z * Z * Z) :=
  if is_directory fs root i then
    accepted_entries (scan_pattern prefix) (i + B) i
                     (directory_entries fs root i)
  else [].

(** The files that create a tile, in the order of the scan. *)
Definition catalog (fs : FileSystem) (root prefix : string) (B : Z)
  : list (Z * Z * Z) :=
  i ← seqZ 0 MaxResolutionLevels; level_catalog fs root prefix B i.

(** The insertions made for a catalog: the files get the tiles allocated
    from [first] on, one after the other, at the absolute level of their
    directory. *)
Fixpoint catalog_ops (B : Z) (first : nat) (cat : list (Z * Z * Z))
  : list (nat * Z * Z * Z) :=
  match cat with
  | [] => []
  | (i, u, v) :: cat' => (first, i + B, u, v) :: catalog_ops B (S first) cat'
  end.

(** The highest index of a level directory that exists, if any. *)
Definition highest_level (fs : FileSystem) (root : string) : option Z :=
  fold_left (fun best i => if is_directory fs root i then Some i else best)
            (seqZ 0 MaxResolutionLevels) None.

(** The level reached by the loop over the directories. *)
Definition level_of (B : Z) (best : option Z) : Z :=
  match best with
  | Some i => wrap_uint (i + B)
  | None => 0
  end.

(** The highest absolute level at which a level directory was found;
    [0] when there is none. *)
Definition highest_absolute_level (fs : FileSystem) (root : string) (B : Z)
  : Z :=
  match highest_level fs root with
  | Some i => i + B
  | None => 0
  end.


(** ** States of the manager *)

(** Every tile pointer in the subtree is below [b]. *)
Fixpoint ptrs_below (b : nat) (n : TileQuadtreeNode) : bool :=
  match n with
  | QNode t c0 c1 c2 c3 =>
      match t with Some p => (p <? b)%nat | None => true end
      && match c0 with Some m => ptrs_below b m | None => true end
      && match c1 with Some m => ptrs_below b m | None => true end
      && match c2 with Some m => ptrs_below b m | None => true end
      && match c3 with Some m => ptrs_below b m | None => true end
  end.

Section States.

Context `{Ext : External}.

(** The states in which the manager is used: at most thirteen levels
    above the base split and at most thirty in all, and a tree whose
    pointers refer to allocated tiles. *)
Definition wf (s : VirtualTexture) : Prop :=
  0 <= baseSplit s <= 29 /\
  (1 <= nResolutionLevels s <= baseSplit s + MaxResolutionLevels /\
   nResolutionLevels s <= 30) /\
  ptrs_below (length (tiles s)) (fst (tileTree s)) = true /\
  ptrs_below (length (tiles s)) (snd (tileTree s)) = true.

(** A tile is settled once it is loaded or has failed to load. *)
Definition settled (t : Tile) : Prop :=
  tex t <> None \/ loadFailed t = true.

(** A sequence of requests [(lod, u, v)], served one after the other. *)
Fixpoint serve (reqs : list (Z * Z * Z)) (s : VirtualTexture) (e : Env)
  : option (VirtualTexture * Env) :=
  match reqs with
  | [] => Some (s, e)
  | (lod, u, v) :: reqs' =>
      match getTile s e lod u v with
      | None => None
      | Some (s', e', _) => serve reqs' s' e'
      end
  end.

End States.

(** ** The configuration checks in the words of the specification *)

Definition integral (x : Q) : Prop := exists z : Z, (x == inject_Z z)%Q.

Definition power_of_two (x : Q) : Prop :=
  exists k : Z, 0 <= k /\ (x == inject_Z (2 ^ k))%Q.

(** A configuration check fails: the image directory is missing; the base
    split is missing, negative or not integral; the tile size is missing,
    not integral, below 64 or not a power of two. *)
Definition config_fails (texParams : Hash) : Prop :=
  ImageDirectory texParams = None \/
  (BaseSplit texParams = None \/
   exists b, BaseSplit texParams = Some b /\
             ((b < 0)%Q \/ ~ integral b)) \/
  (TileSize texParams = None \/
   exists t, TileSize texParams = Some t /\
             (~ integral t \/ (t < 64)%Q \/ ~ power_of_two t)).

(** ** Sample data *)

Module Sample.

Local Open Scope string_scope.

(** A world in which every file decodes to a 128 x 128 image, except the
    files of column 3, and texture names are handed out in sequence. *)
Definition ext : External := {|
  World := Z;
  ImageTexture := Z;
  getName := fun t => t;
  LoadImageFromFile := fun w f =>
    (w, if (fileU f =? 3)%Z then None
        else Some {| getWidth := 128; getHeight := 128;
                     isCompressed := true |});
  newImageTexture := fun w _ _ _ => ((w + 1)%Z, (w + 1)%Z);
  is_relative := fun _ => true;
  path_append := fun a b => a ++ "/" ++ b
|}.

Definition env0 : @Env ext := @Build_Env ext 0%Z [].

(** Level directories 0 and 2; [level0] holds four well-formed names, of
    which one lies outside the grid of its level, and one that does not
    parse. *)
Definition fs02 : FileSystem := {|
  is_directory := fun _ i => ((i =? 0) || (i =? 2))%Z;
  directory_entries := fun _ i =>
    if (i =? 0)%Z
    then ["tx_0_0.dds"; "tx_3_1.dds"; "tx_abc.dds"; "tx_7_3.dds"; "tx_1_0.dds"]
    else ["tx_0_0.dds"]
|}.

(** Level directories 0, 1 and 2, each with its tile [(0, 0)]. *)
Definition fs012 : FileSystem := {|
  is_directory := fun _ i => ((0 <=? i) && (i <=? 2))%Z;
  directory_entries := fun _ _ => ["tx_0_0.dds"]
|}.

(** Only [level0], with its tile [(0, 0)]. *)
Definition fs0 : FileSystem := {|
  is_directory := fun _ i => (i =? 0)%Z;
  directory_entries := fun _ _ => ["tx_0_0.dds"]
|}.

(** Only [level1]: a name whose coordinates lie outside the 4 x 2 grid
    of level 1, a name that does not parse, and a name that is accepted. *)
Definition fs1 : FileSystem := {|
  is_directory := fun _ i => (i =? 1)%Z;
  directory_entries := fun _ _ => ["tx_7_3.dds"; "tx_abc.dds"; "tx_3_1.dds"]
|}.

(** [fs02] with a directory [level20] besides, which no scan reaches. *)
Definition fs02_deep : FileSystem := {|
  is_directory := fun r i => (is_directory fs02 r i || (i =? 20))%Z;
  directory_entries := fun r i =>
    if (i =? 20)%Z then ["tx_0_0.dds"] else directory_entries fs02 r i
|}.

(** Only [level0], with one name that lacks the dot and the suffix. *)
Definition fs_bare : FileSystem := {|
  is_directory := fun _ i => (i =? 0)%Z;
  directory_entries := fun _ _ => ["tx_1_0"]
|}.

Definition params : Hash := {|
  ImageDirectory := Some "tiles";
  BaseSplit := Some (1 # 1)%Q;
  TileSize := Some (128 # 1)%Q;
  TileType := None;
  TilePrefix := None
|}.

(** The parameter block with a tile size of [3 * 2^30], which is not a
    power of two and does not fit an [int]. *)
Definition params_wide : Hash := {|
  ImageDirectory := Some "tiles";
  BaseSplit := Some (1 # 1)%Q;
  TileSize := Some (3221225472 # 1)%Q;
  TileType := None;
  TilePrefix := None
|}.

(** A manager with no directory at all. *)
Definition blank : @VirtualTexture ext :=
  {| tilePath := "root"; tilePrefix := "tx_"; tileExt := ".dds";
     baseSplit := 0; tileSize := 128; ticks := 0; tilesRequested := 0;
     nResolutionLevels := 1; compressed := false;
     tileTree := (emptyNode, emptyNode); tiles := [] |}.

(** The manager built over [fs02] with base split 1: tiles 0, 1 and 2 at
    depth 1 for [(0, 0)], [(3, 1)] and [(1, 0)], and tile 3 at depth 3
    for the file [(0, 0)] of [level2]. *)
Definition vt02 : @VirtualTexture ext := Eval vm_compute in
    default blank (newVirtualTexture fs02 "root" 1 128 "tx_" "dds").

(** The manager built over [fs0] with base split 1. *)
Definition vt0 : @VirtualTexture ext := Eval vm_compute in
    default blank (newVirtualTexture fs0 "root" 1 128 "tx_" "dds").

(** A tree with the tile 0 at [(1, 3, 1)] and, inserted after it, the
    tile 1 at [(2, 0, 0)]; and a manager over it whose tile 0 holds the
    texture 7. *)
Definition tree_a : TileTree := Eval vm_compute in
    default (emptyNode, emptyNode)
            (addTileToTree (emptyNode, emptyNode) 0 1 3 1).

Definition tree_b : TileTree := Eval vm_compute in
    default (emptyNode, emptyNode) (insert_all [(1%nat, 2, 0, 0)%Z] tree_a).

Definition vt_b : @VirtualTexture ext :=
  {| tilePath := "root"; tilePrefix := "tx_"; tileExt := ".dds";
     baseSplit := 1; tileSize := 128; ticks := 0; tilesRequested := 0;
     nResolutionLevels := 3; compressed := false;
     tileTree := tree_b;
     tiles := [ {| tex := Some (7%Z : @ImageTexture ext);
                   loadFailed := false |}; newTile ] |}.

End Sample.

(** ** The rest of the interface *)

(** The dimensions in pixels that the constructor hands to its base
    class (line 65): [_tileSize << (_baseSplit + 1)] and
    [_tileSize << _baseSplit], at type [unsigned int]. *)
Definition textureWidth (_baseSplit _tileSize : Z) : Z :=
  uint_shl _tileSize (wrap_uint (_baseSplit + 1)).

Definition textureHeight (_baseSplit _tileSize : Z) : Z :=
  uint_shl _tileSize _baseSplit.

(** [static inline unsigned int lodOffset(unsigned int lod)] (lines
    53-56, compiled out by [#if 0]):
    [((1 << (lod << 1)) - 1) & 0xaaaaaaaa]. *)
Definition lodOffset (lod : Z) : Z :=
  Z.land (wrap_uint (wrap_int (int_shl 1 (uint_shl lod 1) - 1))) 2863311530.

(** *** The name of a tile file *)

(** The character of the decimal digit [d]. *)
Definition digit_char (d : Z) : ascii := ascii_of_nat (48 + Z.to_nat d).

(** [fmt::format("{:d}", n)] for an [unsigned int]: the decimal digits
    of [n], most significant first, without sign or padding.  [fuel]
    bounds the number of digits; ten are enough for 32 bits. *)
Fixpoint decimal_digits (fuel : nat) (n : Z) (acc : string) : string :=
  match fuel with
  | O => acc
  | S fuel' =>
      let acc' := String (digit_char (n mod 10)) acc in
      if n <? 10 then acc' else decimal_digits fuel' (n / 10) acc'
  end.

Definition decimal (n : Z) : string := decimal_digits 10 n EmptyString.

(** The last component of the path built by [loadTileTexture] (line
    204): [fmt::format("{:s}{:d}_{:d}{:s}", tilePrefix, u, v, tileExt)]. *)
Definition file_name (f : TileFile) : string :=
  (filePrefix f ++ decimal (fileU f) ++ "_" ++ decimal (fileV f)
   ++ fileExt f)%string.

(** *** A frame of calls *)

Section Calls.

Context `{Ext : External}.

(** A tile that was never handed to the decoder: [makeResident] loads
    exactly these. *)
Definition unsettled (t : Tile) : bool :=
  match tex t with
  | None => negb (loadFailed t)
  | Some _ => false
  end.

(** The number of tiles still to be loaded. *)
Definition pending (l : list Tile) : nat := length (List.filter unsettled l).

(** No tile was loaded or tried. *)
Definition all_unsettled (l : list Tile) : Prop :=
  Forall (fun t => unsettled t = true) l.

(** The calls a renderer makes on a virtual texture. *)
Inductive Call : Type :=
| CallBeginUsage
| CallEndUsage
| CallGetTile (lod u v : Z).

(** A sequence of calls, with the descriptors that the requests among
    them return, in order. *)
Fixpoint run (calls : list Call) (s : VirtualTexture) (e : Env)
  : option (VirtualTexture * Env * list TextureTile) :=
  match calls with
  | [] => Some (s, e, [])
  | CallBeginUsage :: calls' => run calls' (beginUsage s) e
  | CallEndUsage :: calls' => run calls' (endUsage s) e
  | CallGetTile lod u v :: calls' =>
      '(s', e', D) ← getTile s e lod u v;
      '(s'', e'', Ds) ← run calls' s' e';
      Some (s'', e'', D :: Ds)
  end.

(** The requests among the calls. *)
Definition requests (calls : list Call) : list (Z * Z * Z) :=
  c ← calls;
  match c with
  | CallGetTile lod u v => [(lod, u, v)]
  | _ => []
  end.

(** The number of [beginUsage] calls. *)
Definition frames (calls : list Call) : Z :=
  Z.of_nat (length (List.filter
                      (fun c => match c with CallBeginUsage => true
                                           | _ => false end) calls)).

End Calls.

(** The address of an insertion. *)
Definition op_address (op : nat * Z * Z * Z) : Z * Z * Z :=
  (op.1.1.2, op.1.2, op.2).

Section Configuration.

Context `{Ext : External}.

(** What is fixed when the constructor returns: the place and the names
    of the tile files, the base split, the tile size, the number of
    levels and the quadtree. *)
Definition config (s : VirtualTexture)
  : string * string * string * Z * Z * Z * TileTree :=
  (tilePath s, tilePrefix s, tileExt s, baseSplit s, tileSize s,
   nResolutionLevels s, tileTree s).

(** The file of the tile at [(level, u, v)], as [loadTileTexture] names
    it. *)
Definition tile_file (s : VirtualTexture) (level u v : Z) : TileFile :=
  {| fileRoot := tilePath s; fileLevel := level ≫ baseSplit s;
     filePrefix := tilePrefix s; fileU := u; fileV := v;
     fileExt := tileExt s |}.

(** The mip-map mode that [loadTileTexture] chooses for a file. *)
Definition mip_mode (f : TileFile) : MipMapMode :=
  if fileLevel f =? 0 then DefaultMipMaps else NoMipMaps.

End Configuration.

Section Brackets.

Context `{Ext : External}.

(** Two states that differ at most in the two counters. *)
Definition same_but_counters (s t : VirtualTexture) : Prop :=
  config s = config t /\ compressed s = compressed t /\ tiles s = tiles t.

(** The requests among the calls, as calls. *)
Definition tile_calls (calls : list Call) : list Call :=
  List.filter (fun c => match c with
                        | CallGetTile _ _ _ => true
                        | _ => false
                        end) calls.

End Brackets.

(** The tile of the ancestor at depth [d] of the address [(lod, u, v)]. *)
Definition ancestor_tile (tree : TileTree) (lod u v d : Z) : option nat :=
  tile_at tree d (u ≫ (lod - d)) (v ≫ (lod - d)).

(** ** The scan beyond level 29, and file names in the words of the
    specification *)

(** The levels at which every shift of the scan has a defined result:
    up to absolute level 30.  At level 30 the width [2 << 30] of the grid
    is no longer a positive [int]. *)
Definition levels_defined (fs : FileSystem) (root : string) (B : Z) : Prop :=
  0 <= B <= 30 /\
  forall i, 0 <= i < MaxResolutionLevels ->
            is_directory fs root i = true -> i + B <= 30.

(** The file system without the level directories of absolute level 30
    and more. *)
Definition below30 (fs : FileSystem) (B : Z) : FileSystem := {|
  is_directory := fun r i => is_directory fs r i && (i + B <=? 29);
  directory_entries := directory_entries fs
|}.

(** [s] without the [prefix] it starts with. *)
Fixpoint strip_prefix (prefix s : string) : option string :=
  match prefix with
  | EmptyString => Some s
  | String c prefix' =>
      match s with
      | String c' s' => if Ascii.eqb c c' then strip_prefix prefix' s' else None
      | EmptyString => None
      end
  end.

(** The number written in decimal digits at the head of [s], and what
    follows it. *)
Definition read_number (s : string) : option (Z * string) :=
  if starts_with_digit s then Some (scan_digits s 0) else None.

(** A file name in the words of the specification,
    [<prefix><u>_<v>.<suffix>]: the prefix, the digits of [u], an
    underscore, the digits of [v], a dot and any suffix. *)
Definition named_tile (prefix d : string) : option (Z * Z) :=
  match strip_prefix prefix d with
  | Some rest =>
      match read_number rest with
      | Some (u, String c1 r2) =>
          if Ascii.eqb c1 "_" then
            match read_number r2 with
            | Some (v, String c2 _) =>
                if Ascii.eqb c2 "." then Some (u, v) else None
            | _ => None
            end
          else None
      | _ => None
      end
  | None => None
  end.

(** * Properties *)

(** ** Machine arithmetic *)

(** Linear arithmetic with the bounds of the two integer types. *)
Ltac word_lia :=
  try unfold is_int in *; try unfold is_uint in *;
  change (2 ^ 29) with 536870912 in *;
  change (2 ^ 30) with 1073741824 in *;
  change (2 ^ 31) with 2147483648 in *;
  change (2 ^ 32) with 4294967296 in *;
  lia.

Lemma pow2_pos (n : Z) : 0 <= n -> 0 < 2 ^ n.
Proof. intros. apply Z.pow_pos_nonneg; lia. Qed.

Lemma pow2_le (a b : Z) : 0 <= a <= b -> 2 ^ a <= 2 ^ b.
Proof. intros. apply Z.pow_le_mono_r; lia. Qed.

Lemma pow2_succ (n : Z) : 0 <= n -> 2 ^ (n + 1) = 2 * 2 ^ n.
Proof. intros. rewrite Z.pow_add_r by lia. lia. Qed.

Lemma wrap_int_small (x : Z) : is_int x -> wrap_int x = x.
Proof.
  unfold is_int, wrap_int. intros Hx.
  rewrite Z.mod_small; lia.
Qed.

Lemma wrap_uint_small (x : Z) : is_uint x -> wrap_uint x = x.
Proof. unfold is_uint, wrap_uint. intros Hx. apply Z.mod_small. lia. Qed.

Lemma wrap_uint_range (x : Z) : is_uint (wrap_uint x).
Proof.
  unfold is_uint, wrap_uint.
  pose proof (Z.mod_pos_bound x (2 ^ 32)). lia.
Qed.

(** A value and its reduction agree up to a multiple of 2^32. *)
Lemma wrap_int_cases (x : Z) : exists q, wrap_int x = x - q * 2 ^ 32.
Proof.
  unfold wrap_int. exists ((x + 2 ^ 31) / 2 ^ 32).
  pose proof (Z.div_mod (x + 2 ^ 31) (2 ^ 32)). lia.
Qed.

Lemma pow2_small (n : Z) : 0 <= n <= 30 -> is_int (2 ^ n) /\ is_uint (2 ^ n).
Proof.
  intros Hn. pose proof (pow2_pos n). pose proof (pow2_le n 30).
  unfold is_int, is_uint. change (2 ^ 30) with 1073741824 in *. lia.
Qed.

Lemma int_shl_1 (n : Z) : 0 <= n <= 30 -> int_shl 1 n = 2 ^ n.
Proof.
  intros Hn. unfold int_shl. rewrite Z.shiftl_mul_pow2 by lia.
  rewrite Z.mul_1_l. apply wrap_int_small, pow2_small, Hn.
Qed.

Lemma int_shl_2 (n : Z) : 0 <= n <= 29 -> int_shl 2 n = 2 ^ (n + 1).
Proof.
  intros Hn. unfold int_shl. rewrite Z.shiftl_mul_pow2 by lia.
  rewrite <- pow2_succ by lia. apply wrap_int_small, pow2_small. lia.
Qed.

(** Beyond 29 the width [2 << n] of the grid no longer fits an [int]:
    the reduced value is not positive. *)
Lemma int_shl_2_overflow (n : Z) : 30 <= n -> int_shl 2 n <= 0.
Proof.
  intros Hn. unfold int_shl. rewrite Z.shiftl_mul_pow2 by lia.
  replace (2 * 2 ^ n) with (2 ^ 31 * 2 ^ (n - 30)).
  2:{ rewrite <- Z.pow_add_r by lia. rewrite <- pow2_succ by lia.
      f_equal. lia. }
  destruct (Z.eq_dec n 30) as [->|Hne].
  - vm_compute. discriminate.
  - replace (n - 30) with ((n - 31) + 1) by lia.
    rewrite pow2_succ by lia.
    unfold wrap_int.
    replace (2 ^ 31 * (2 * 2 ^ (n - 31)) + 2 ^ 31)
      with (2 ^ 31 + 2 ^ (n - 31) * 2 ^ 32) by lia.
    rewrite Z.mod_add by lia. vm_compute. discriminate.
Qed.

Lemma int_shl_2_positive (n : Z) :
  0 <= n -> 0 < int_shl 2 n -> n <= 29 /\ int_shl 2 n = 2 ^ (n + 1).
Proof.
  intros Hn Hpos.
  destruct (Z_le_gt_dec n 29) as [Hle|Hgt].
  - split; [assumption | apply int_shl_2; lia].
  - pose proof (int_shl_2_overflow n). lia.
Qed.

(** ** The child selector reads one bit of [v] and one bit of [u] *)

Lemma land_pow2 (x k : Z) :
  0 <= k -> Z.land x (2 ^ k) = if Z.testbit x k then 2 ^ k else 0.
Proof.
  intros Hk. apply Z.bits_inj'. intros i Hi.
  rewrite Z.land_spec, Z.pow2_bits_eqb by lia.
  destruct (Z.eqb_spec k i) as [->|Hne].
  - rewrite andb_true_r. destruct (Z.testbit x i) eqn:E.
    + now rewrite Z.pow2_bits_true.
    + now rewrite Z.bits_0.
  - rewrite andb_false_r. destruct (Z.testbit x k).
    + now rewrite Z.pow2_bits_false.
    + now rewrite Z.bits_0.
Qed.

Lemma testbit_wrap_uint (x k : Z) :
  k < 32 -> Z.testbit (wrap_uint x) k = Z.testbit x k.
Proof. intros. unfold wrap_uint. now apply Z.mod_pow2_bits_low. Qed.

Lemma pow2_shiftr (a k : Z) : 0 <= k -> 0 <= a -> 2 ^ (k + a) ≫ k = 2 ^ a.
Proof.
  intros Hk Ha. rewrite Z.shiftr_div_pow2 by lia.
  rewrite Z.pow_add_r by lia. rewrite Z.mul_comm.
  apply Z.div_mul. pose proof (pow2_pos k). lia.
Qed.

Lemma child_index_quadrant (k u v : Z) :
  0 <= k <= 30 -> child_index k u v = quadrant_index (quadrant k u v).
Proof.
  intros Hk. unfold child_index, quadrant_index, quadrant. cbn [fst snd].
  rewrite int_shl_1 by lia.
  rewrite (wrap_uint_small (2 ^ k)) by (apply pow2_small; lia).
  rewrite !land_pow2 by lia.
  rewrite !testbit_wrap_uint by lia.
  assert (Hs : uint_shl (2 ^ k) 1 = 2 ^ (k + 1)).
  { unfold uint_shl. rewrite Z.shiftl_mul_pow2 by lia.
    rewrite pow2_succ by lia.
    rewrite wrap_uint_small; [lia|].
    pose proof (pow2_small k Hk) as [Hi _]. unfold is_int, is_uint in *.
    pose proof (pow2_pos k). lia. }
  assert (H0 : uint_shl 0 1 = 0) by reflexivity.
  rewrite Z.shiftr_lor.
  destruct (Z.testbit v k), (Z.testbit u k); rewrite ?Hs, ?H0;
    rewrite ?(pow2_shiftr 1 k), ?Z.shiftr_0_l by lia;
    try replace (2 ^ k) with (2 ^ (k + 0)) by (f_equal; lia);
    rewrite ?(pow2_shiftr 0 k) by lia; reflexivity.
Qed.

Lemma child_at_quadrant (n : TileQuadtreeNode) (q : Quadrant) :
  child_at n (quadrant_index q) = Some (sel n q).
Proof. destruct n, q as [[] []]; reflexivity. Qed.

Lemma set_child_quadrant (n x : TileQuadtreeNode) (q : Quadrant) :
  set_child n (quadrant_index q) x = set_sel n q x.
Proof. destruct n, q as [[] []]; reflexivity. Qed.

(** ** Quadrants and paths *)

Lemma sel_set_sel (n x : TileQuadtreeNode) (q : Quadrant) :
  sel (set_sel n q x) q = Some x.
Proof. destruct n, q as [[] []]; reflexivity. Qed.

Lemma sel_set_sel_ne (n x : TileQuadtreeNode) (q q' : Quadrant) :
  q <> q' -> sel (set_sel n q x) q' = sel n q'.
Proof. destruct n, q as [[] []], q' as [[] []]; intros; cbn; congruence. Qed.

Lemma node_tile_set_sel (n x : TileQuadtreeNode) (q : Quadrant) :
  node_tile (set_sel n q x) = node_tile n.
Proof. destruct n, q as [[] []]; reflexivity. Qed.

Lemma node_tile_set_tile (n : TileQuadtreeNode) (p : TilePtr) :
  node_tile (set_tile n p) = Some p.
Proof. destruct n; reflexivity. Qed.

Lemma sel_set_tile (n : TileQuadtreeNode) (p : TilePtr) (q : Quadrant) :
  sel (set_tile n p) q = sel n q.
Proof. destruct n, q as [[] []]; reflexivity. Qed.

Lemma tile_on_nil (n : TileQuadtreeNode) : tile_on [] n = node_tile n.
Proof. reflexivity. Qed.

Lemma tile_on_cons (q : Quadrant) (path : list Quadrant)
    (n : TileQuadtreeNode) :
  tile_on (q :: path) n =
  match sel n q with Some c => tile_on path c | None => None end.
Proof. unfold tile_on. cbn [node_at]. destruct (sel n q); reflexivity. Qed.

Lemma tile_on_emptyNode (path : list Quadrant) : tile_on path emptyNode = None.
Proof. destruct path as [|[[] []] path]; reflexivity. Qed.

Lemma length_path_of (k : nat) (u v : Z) : length (path_of k u v) = k.
Proof. induction k; cbn; congruence. Qed.

(** The first [j] quadrants of a path are the path of the ancestor [j]
    levels below the root. *)
Lemma take_path_of (j k : nat) (u v : Z) :
  (j <= k)%nat ->
  take j (path_of k u v) =
  path_of j (u ≫ (Z.of_nat k - Z.of_nat j)) (v ≫ (Z.of_nat k - Z.of_nat j)).
Proof.
  revert k. induction j as [|j IH]; intros k Hjk; [reflexivity|].
  destruct k as [|k]; [lia|].
  cbn [path_of take]. rewrite IH by lia.
  replace (Z.of_nat (S k) - Z.of_nat (S j)) with (Z.of_nat k - Z.of_nat j)
    by lia.
  f_equal. unfold quadrant.
  rewrite !Z.shiftr_spec by lia.
  do 2 f_equal; lia.
Qed.

(** A path fixes the low bits of both coordinates. *)
Lemma path_of_inj (k : nat) (u v u' v' : Z) :
  path_of k u v = path_of k u' v' ->
  u mod 2 ^ Z.of_nat k = u' mod 2 ^ Z.of_nat k /\
  v mod 2 ^ Z.of_nat k = v' mod 2 ^ Z.of_nat k.
Proof.
  intros Heq.
  assert (Hbits : forall i, 0 <= i < Z.of_nat k ->
            Z.testbit u i = Z.testbit u' i /\ Z.testbit v i = Z.testbit v' i).
  { induction k as [|k IH]; [lia|].
    cbn [path_of] in Heq. injection Heq as Hv Hu Hrest.
    intros i Hi. destruct (Z.eq_dec i (Z.of_nat k)) as [->|Hne].
    - auto.
    - apply IH; [assumption | lia]. }
  split; apply Z.bits_inj'; intros i Hi;
    rewrite !Z.testbit_mod_pow2 by lia;
    destruct (Z.ltb_spec i (Z.of_nat k)); cbn; try reflexivity;
    apply Hbits; lia.
Qed.

Lemma shiftr_mod_split (u l : Z) :
  0 <= l -> u = (u ≫ l) * 2 ^ l + u mod 2 ^ l.
Proof.
  intros Hl. rewrite Z.shiftr_div_pow2 by lia.
  pose proof (Z.div_mod u (2 ^ l)). pose proof (pow2_pos l Hl). lia.
Qed.

(** Two addresses of one level that share root and path are equal. *)
Lemma address_inj (level u v u' v' : Z) :
  0 <= level -> in_grid level u v -> in_grid level u' v' ->
  u ≫ level = u' ≫ level ->
  path_of (Z.to_nat level) u v = path_of (Z.to_nat level) u' v' ->
  u = u' /\ v = v'.
Proof.
  intros Hl [Hu Hv] [Hu' Hv'] Hroot Hpath.
  apply path_of_inj in Hpath. rewrite Z2Nat.id in Hpath by lia.
  destruct Hpath as [Hum Hvm]. split.
  - rewrite (shiftr_mod_split u level), (shiftr_mod_split u' level) by lia.
    congruence.
  - rewrite <- (Z.mod_small v (2 ^ level)), <- (Z.mod_small v' (2 ^ level))
      by lia. assumption.
Qed.

Lemma root_index_range (level u : Z) :
  0 <= level -> 0 <= u < 2 ^ (level + 1) -> u ≫ level = 0 \/ u ≫ level = 1.
Proof.
  intros Hl Hu. rewrite Z.shiftr_div_pow2 by lia.
  rewrite pow2_succ in Hu by lia. pose proof (pow2_pos level Hl).
  assert (0 <= u / 2 ^ level < 2).
  { split; [apply Z.div_pos; lia | apply Z.div_lt_upper_bound; lia]. }
  lia.
Qed.

(** ** The abstract walk *)

Lemma best_on_none (path : list Quadrant) (n : TileQuadtreeNode)
    (tile : option TilePtr) (depth d : Z) :
  (forall j, (1 <= j <= length path)%nat -> tile_on (take j path) n = None) ->
  best_on path n tile depth d = (tile, depth).
Proof.
  revert n d. induction path as [|q path IH]; intros n d Hnone; [reflexivity|].
  cbn [best_on]. destruct (sel n q) as [c|] eqn:Hsel; [|reflexivity].
  assert (Hc : node_tile c = None).
  { specialize (Hnone 1%nat). cbn [length take] in Hnone.
    rewrite tile_on_cons, Hsel in Hnone. apply Hnone. lia. }
  rewrite Hc. apply IH. intros j Hj.
  specialize (Hnone (S j)). cbn [length take] in Hnone.
  rewrite tile_on_cons, Hsel in Hnone. apply Hnone. lia.
Qed.

Lemma best_on_some (path : list Quadrant) (n : TileQuadtreeNode)
    (tile : option TilePtr) (depth d : Z) (j : nat) (t : TilePtr) :
  (1 <= j <= length path)%nat ->
  tile_on (take j path) n = Some t ->
  (forall j', (j < j' <= length path)%nat ->
              tile_on (take j' path) n = None) ->
  best_on path n tile depth d = (Some t, d + Z.of_nat j).
Proof.
  revert n tile depth d j.
  induction path as [|q path IH]; intros n tile depth d j Hj Ht Hdeeper.
  { cbn in Hj. lia. }
  destruct j as [|j]; [lia|].
  cbn [take] in Ht. rewrite tile_on_cons in Ht.
  cbn [best_on]. destruct (sel n q) as [c|] eqn:Hsel; [|discriminate].
  assert (Hdeeper' : forall j', (j < j' <= length path)%nat ->
                       tile_on (take j' path) c = None).
  { intros j' Hj'. specialize (Hdeeper (S j')). cbn [length take] in Hdeeper.
    rewrite tile_on_cons, Hsel in Hdeeper. apply Hdeeper. lia. }
  destruct j as [|j].
  - cbn [take] in Ht. rewrite tile_on_nil in Ht. rewrite Ht.
    rewrite best_on_none; [reflexivity|].
    intros j' Hj'. apply Hdeeper'. lia.
  - cbn [length] in Hj.
    assert (Hrec : forall tl dp,
              best_on path c tl dp (d + 1) = (Some t, d + Z.of_nat (S (S j)))).
    { intros tl dp.
      rewrite (IH c tl dp (d + 1) (S j));
        [f_equal; lia | lia | exact Ht | exact Hdeeper']. }
    destruct (node_tile c); apply Hrec.
Qed.

(** The depth reported by the walk lies between that of its start and
    that of the end of the path. *)
Lemma best_on_depth (path : list Quadrant) (n : TileQuadtreeNode)
    (tile : option TilePtr) (depth d : Z) :
  best_on path n tile depth d = (tile, depth) \/
  exists t j, (1 <= j <= length path)%nat /\
              tile_on (take j path) n = Some t /\
              best_on path n tile depth d = (Some t, d + Z.of_nat j).
Proof.
  revert n tile depth d.
  induction path as [|q path IH]; intros n tile depth d; [now left|].
  cbn [best_on]. destruct (sel n q) as [c|] eqn:Hsel; [|now left].
  destruct (node_tile c) as [t|] eqn:Hc.
  - right. destruct (IH c (Some t) (d + 1) (d + 1)) as [E|(t' & j & Hj & Ht & E)].
    + exists t, 1%nat. cbn [length take]. rewrite tile_on_cons, Hsel, tile_on_nil.
      repeat split; [lia | lia | assumption | rewrite E; f_equal; lia].
    + exists t', (S j). cbn [length take]. rewrite tile_on_cons, Hsel.
      repeat split; [lia | lia | assumption | rewrite E; f_equal; lia].
  - destruct (IH c tile depth (d + 1)) as [E|(t' & j & Hj & Ht & E)].
    + now left.
    + right. exists t', (S j). cbn [length take]. rewrite tile_on_cons, Hsel.
      repeat split; [lia | lia | assumption | rewrite E; f_equal; lia].
Qed.

(** ** The walks of the code follow the path of the address *)

Lemma descend_best_on (k : nat) (lod u v : Z) (node : TileQuadtreeNode)
    (tile : option TilePtr) (tileLOD : Z) :
  Z.of_nat k <= 31 -> Z.of_nat k <= lod -> lod < 2 ^ 32 ->
  descend k lod u v node tile tileLOD =
  Some (best_on (path_of k u v) node tile tileLOD (lod - Z.of_nat k)).
Proof.
  revert node tile tileLOD.
  induction k as [|k IH]; intros node tile tileLOD Hk Hlod Hmax; [reflexivity|].
  cbn [descend path_of best_on].
  replace (lod - (lod - Z.of_nat (S k)) - 1) with (Z.of_nat k) by lia.
  rewrite child_index_quadrant by lia. rewrite child_at_quadrant.
  destruct (sel node (quadrant (Z.of_nat k) u v)) as [c|]; [|reflexivity].
  replace (lod - Z.of_nat (S k) + 1) with (lod - Z.of_nat k) by lia.
  rewrite (wrap_uint_small (lod - Z.of_nat k)) by (unfold is_uint; lia).
  destruct (node_tile c); rewrite IH by lia; reflexivity.
Qed.

Lemma insert_below_path (k : nat) (lod u v : Z) (p : TilePtr)
    (node : TileQuadtreeNode) :
  Z.of_nat k <= 31 ->
  insert_below k lod u v p node = Some (insert_path (path_of k u v) p node).
Proof.
  revert node. induction k as [|k IH]; intros node Hk.
  { cbn. destruct (node_tile node); reflexivity. }
  cbn [insert_below path_of insert_path].
  replace (lod - (lod - Z.of_nat (S k)) - 1) with (Z.of_nat k) by lia.
  rewrite (wrap_uint_small (Z.of_nat k)) by (unfold is_uint; lia).
  rewrite child_index_quadrant by lia. rewrite child_at_quadrant.
  destruct (sel node (quadrant (Z.of_nat k) u v)) as [c|]; simpl;
    rewrite IH by lia; now rewrite set_child_quadrant.
Qed.

(** ** Insertion along a path *)

Lemma tile_on_insert_same (path : list Quadrant) (p : TilePtr)
    (n : TileQuadtreeNode) :
  tile_on path (insert_path path p n) = Some (default p (tile_on path n)).
Proof.
  revert n. induction path as [|q path IH]; intros n.
  - unfold tile_on. cbn [insert_path node_at].
    destruct (node_tile n) as [t|] eqn:E; simpl.
    + assumption.
    + apply node_tile_set_tile.
  - cbn [insert_path]. rewrite !tile_on_cons, sel_set_sel, IH.
    destruct (sel n q); simpl; [reflexivity|].
    now rewrite tile_on_emptyNode.
Qed.

Lemma tile_on_insert_other (path path' : list Quadrant) (p : TilePtr)
    (n : TileQuadtreeNode) :
  path' <> path -> tile_on path' (insert_path path p n) = tile_on path' n.
Proof.
  revert path' n. induction path as [|q path IH]; intros path' n Hne.
  - destruct path' as [|q' path']; [congruence|].
    cbn [insert_path]. rewrite !tile_on_cons.
    destruct (node_tile n); [reflexivity|]. now rewrite sel_set_tile.
  - cbn [insert_path]. destruct path' as [|q' path'].
    + rewrite !tile_on_nil. apply node_tile_set_sel.
    + rewrite !tile_on_cons.
      destruct (decide (q = q')) as [->|Hq].
      * rewrite sel_set_sel, IH by congruence.
        destruct (sel n q'); simpl; [reflexivity|].
        apply tile_on_emptyNode.
      * now rewrite sel_set_sel_ne.
Qed.

(** A tile on the tree after an insertion was there before or is the one
    inserted, at the place of the insertion. *)
Lemma tile_on_insert_inv (path path' : list Quadrant) (p t : TilePtr)
    (n : TileQuadtreeNode) :
  tile_on path' (insert_path path p n) = Some t ->
  tile_on path' n = Some t \/
  (path' = path /\ t = p /\ tile_on path n = None).
Proof.
  intros Ht. destruct (decide (path' = path)) as [->|Hne].
  - rewrite tile_on_insert_same in Ht.
    destruct (tile_on path n) as [t0|]; simpl in Ht.
    + left. congruence.
    + right. split; [reflexivity|]. split; congruence.
  - rewrite tile_on_insert_other in Ht by assumption. now left.
Qed.

(** A tile that is on the tree stays where it is. *)
Lemma tile_on_insert_keep (path path' : list Quadrant) (p t : TilePtr)
    (n : TileQuadtreeNode) :
  tile_on path' n = Some t -> tile_on path' (insert_path path p n) = Some t.
Proof.
  intros Ht. destruct (decide (path' = path)) as [->|Hne].
  - rewrite tile_on_insert_same, Ht. reflexivity.
  - now rewrite tile_on_insert_other.
Qed.

(** ** Addresses in the two-rooted tree *)

Lemma root_at_set_root_same (t : TileTree) (i : Z) (n : TileQuadtreeNode) :
  i = 0 \/ i = 1 -> root_at (set_root t i n) i = Some n.
Proof. intros [-> | ->]; reflexivity. Qed.

Lemma root_at_set_root_ne (t : TileTree) (i j : Z) (n : TileQuadtreeNode) :
  i <> j -> root_at (set_root t i n) j = root_at t j.
Proof.
  intros Hne. unfold root_at, set_root.
  destruct i as [|[| |]|], j as [|[| |]|]; cbn; congruence.
Qed.

Lemma root_at_defined (t : TileTree) (i : Z) :
  i = 0 \/ i = 1 -> exists n, root_at t i = Some n.
Proof. intros [-> | ->]; eexists; reflexivity. Qed.

Lemma addTileToTree_path (tree : TileTree) (p : TilePtr) (level u v : Z) :
  0 <= level <= 29 -> 0 <= u < 2 ^ (level + 1) ->
  exists root,
    root_at tree (u ≫ level) = Some root /\
    addTileToTree tree p level u v =
    Some (set_root tree (u ≫ level)
            (insert_path (path_of (Z.to_nat level) u v) p root)).
Proof.
  intros Hl Hu.
  destruct (root_at_defined tree (u ≫ level)) as [root Hroot].
  { apply root_index_range; lia. }
  exists root. split; [assumption|].
  unfold addTileToTree. rewrite Hroot.
  rewrite insert_below_path by lia. reflexivity.
Qed.

Lemma tile_at_add_same (tree tree' : TileTree) (p : TilePtr) (level u v : Z) :
  0 <= level <= 29 -> 0 <= u < 2 ^ (level + 1) ->
  addTileToTree tree p level u v = Some tree' ->
  tile_at tree' level u v = Some (default p (tile_at tree level u v)).
Proof.
  intros Hl Hu Hadd.
  destruct (addTileToTree_path tree p level u v Hl Hu) as (root & Hroot & E).
  rewrite E in Hadd. injection Hadd as <-.
  unfold tile_at. rewrite Hroot.
  rewrite root_at_set_root_same by (apply root_index_range; lia).
  apply tile_on_insert_same.
Qed.

(** A tile that is in the tree stays at its address, whatever is
    inserted. *)
Lemma tile_at_add_keep (tree tree' : TileTree) (p t : TilePtr)
    (level u v level' u' v' : Z) :
  0 <= level <= 29 -> 0 <= u < 2 ^ (level + 1) ->
  addTileToTree tree p level u v = Some tree' ->
  tile_at tree level' u' v' = Some t -> tile_at tree' level' u' v' = Some t.
Proof.
  intros Hl Hu Hadd Ht.
  destruct (addTileToTree_path tree p level u v Hl Hu) as (root & Hroot & E).
  rewrite E in Hadd. injection Hadd as <-.
  unfold tile_at in *.
  destruct (Z.eq_dec (u ≫ level) (u' ≫ level')) as [Heq|Hne].
  - rewrite <- Heq in *. rewrite Hroot in Ht.
    rewrite root_at_set_root_same by (apply root_index_range; lia).
    now apply tile_on_insert_keep.
  - now rewrite root_at_set_root_ne.
Qed.

(** An insertion changes the tile of no other address. *)
Lemma tile_at_add_other (tree tree' : TileTree) (p : TilePtr)
    (level u v level' u' v' : Z) :
  0 <= level <= 29 -> in_grid level u v ->
  0 <= level' -> in_grid level' u' v' ->
  (level', u', v') <> (level, u, v) ->
  addTileToTree tree p level u v = Some tree' ->
  tile_at tree' level' u' v' = tile_at tree level' u' v'.
Proof.
  intros Hl Hg Hl' Hg' Hne Hadd.
  pose proof Hg as [Hu Hv].
  destruct (addTileToTree_path tree p level u v Hl Hu) as (root & Hroot & E).
  rewrite E in Hadd. injection Hadd as <-.
  unfold tile_at.
  destruct (Z.eq_dec (u ≫ level) (u' ≫ level')) as [Heq|Hroots].
  - rewrite <- Heq. rewrite Hroot.
    rewrite root_at_set_root_same by (apply root_index_range; lia).
    apply tile_on_insert_other. intros Hpath.
    assert (level' = level).
    { apply (f_equal length) in Hpath. rewrite !length_path_of in Hpath. lia. }
    subst level'.
    destruct (address_inj level u v u' v') as [-> ->]; try assumption; try lia.
    + now symmetry.
    + congruence.
  - now rewrite root_at_set_root_ne.
Qed.

(** ** The best-match walk in terms of addresses *)

(** The ancestor of [(lod, u, v)] at level [d]. *)
Lemma tile_at_ancestor (tree : TileTree) (lod u v d : Z)
    (node : TileQuadtreeNode) :
  0 <= d <= lod -> root_at tree (u ≫ lod) = Some node ->
  tile_at tree d (u ≫ (lod - d)) (v ≫ (lod - d)) =
  tile_on (take (Z.to_nat d) (path_of (Z.to_nat lod) u v)) node.
Proof.
  intros Hd Hroot. unfold tile_at.
  rewrite Z.shiftr_shiftr by lia.
  replace (lod - d + d) with lod by lia. rewrite Hroot.
  rewrite take_path_of by lia. rewrite !Z2Nat.id by lia. reflexivity.
Qed.

Lemma bestMatch_best_on (tree : TileTree) (lod u v : Z)
    (node : TileQuadtreeNode) :
  0 <= lod <= 31 -> root_at tree (u ≫ lod) = Some node ->
  bestMatch tree lod u v =
  Some (best_on (path_of (Z.to_nat lod) u v) node (node_tile node) 0 0).
Proof.
  intros Hlod Hroot. unfold bestMatch. rewrite Hroot.
  rewrite descend_best_on by (rewrite ?Z2Nat.id by lia; lia).
  rewrite Z2Nat.id by lia. now rewrite Z.sub_diag.
Qed.

(** The walk returns the deepest tile on the way to the address. *)
Lemma bestMatch_deepest (tree : TileTree) (lod u v d : Z) (p : TilePtr) :
  0 <= lod <= 29 -> 0 <= u < 2 ^ (lod + 1) -> 0 <= d <= lod ->
  tile_at tree d (u ≫ (lod - d)) (v ≫ (lod - d)) = Some p ->
  (forall d', d < d' <= lod ->
     tile_at tree d' (u ≫ (lod - d')) (v ≫ (lod - d')) = None) ->
  bestMatch tree lod u v = Some (Some p, d).
Proof.
  intros Hlod Hu Hd Hp Hdeeper.
  destruct (root_at_defined tree (u ≫ lod)) as [node Hroot].
  { apply root_index_range; lia. }
  rewrite (bestMatch_best_on tree lod u v node) by (assumption || lia).
  rewrite (tile_at_ancestor tree lod u v d node) in Hp by assumption.
  assert (Hdeeper' : forall j, (Z.to_nat d < j <= Z.to_nat lod)%nat ->
            tile_on (take j (path_of (Z.to_nat lod) u v)) node = None).
  { intros j Hj.
    rewrite <- (Nat2Z.id j).
    rewrite <- (tile_at_ancestor tree lod u v (Z.of_nat j) node)
      by (assumption || lia).
    apply Hdeeper. lia. }
  f_equal. destruct (Z.eq_dec d 0) as [->|Hd0].
  - cbn [Z.to_nat take] in Hp. rewrite tile_on_nil in Hp. rewrite Hp.
    apply best_on_none. intros j Hj. apply Hdeeper'.
    rewrite length_path_of in Hj. cbn. lia.
  - rewrite (best_on_some _ node _ 0 0 (Z.to_nat d) p).
    + f_equal. lia.
    + rewrite length_path_of. lia.
    + assumption.
    + intros j Hj. apply Hdeeper'. rewrite length_path_of in Hj. lia.
Qed.

(** Whatever the walk returns is a tile of an ancestor, and its depth is
    that of the ancestor. *)
Lemma bestMatch_inv (tree : TileTree) (lod u v d : Z) (p : TilePtr) :
  0 <= lod <= 29 -> 0 <= u < 2 ^ (lod + 1) ->
  bestMatch tree lod u v = Some (Some p, d) ->
  0 <= d <= lod /\
  tile_at tree d (u ≫ (lod - d)) (v ≫ (lod - d)) = Some p.
Proof.
  intros Hlod Hu Hbest.
  destruct (root_at_defined tree (u ≫ lod)) as [node Hroot].
  { apply root_index_range; lia. }
  rewrite (bestMatch_best_on tree lod u v node) in Hbest by (assumption || lia).
  injection Hbest as Hbest.
  destruct (best_on_depth (path_of (Z.to_nat lod) u v) node (node_tile node)
              0 0) as [E|(t & j & Hj & Ht & E)];
    rewrite E in Hbest; injection Hbest as Htile Hdepth.
  - subst d. split; [lia|].
    rewrite (tile_at_ancestor tree lod u v 0 node) by (assumption || lia).
    exact Htile.
  - subst d t. rewrite length_path_of in Hj. split; [lia|].
    rewrite (tile_at_ancestor tree lod u v _ node) by (assumption || lia).
    replace (Z.to_nat (0 + Z.of_nat j)) with j by lia. exact Ht.
Qed.

Lemma bestMatch_defined (tree : TileTree) (lod u v : Z) :
  0 <= lod <= 29 -> 0 <= u < 2 ^ (lod + 1) ->
  exists r, bestMatch tree lod u v = Some r.
Proof.
  intros Hlod Hu.
  destruct (root_at_defined tree (u ≫ lod)) as [node Hroot].
  { apply root_index_range; lia. }
  rewrite (bestMatch_best_on tree lod u v node) by (assumption || lia).
  eexists; reflexivity.
Qed.

(** ** The range test of [getTile] *)

Section GetTile.

Context `{Ext : External}.

(** When the test lets a request through, the absolute level is at most
    29 and the shifts of the test are the sizes of the grid. *)
Lemma out_of_range_false (s : VirtualTexture) (a u v : Z) :
  out_of_range s a u v = false ->
  0 <= a <= 29 /\ a < nResolutionLevels s /\ in_grid a u v.
Proof.
  unfold out_of_range. rewrite !orb_false_iff.
  intros [[[[[Ha HL] Hu0] Hu1] Hv0] Hv1].
  apply Z.ltb_ge in Ha, Hu0, Hv0. apply Z.leb_gt in HL, Hu1, Hv1.
  destruct (int_shl_2_positive a) as [Ha29 E2]; [lia | lia |].
  rewrite E2 in Hu1. rewrite int_shl_1 in Hv1 by lia.
  rewrite wrap_uint_small in HL.
  2:{ word_lia. }
  unfold in_grid. lia.
Qed.

(** The absolute level of a request: no wrap-around for a base split
    that fits an [int]. *)
Lemma absolute_level (B lod : Z) :
  0 <= B < 2 ^ 31 -> is_int lod ->
  0 <= wrap_int (lod + B) <= 29 -> wrap_int (lod + B) = lod + B.
Proof.
  unfold is_int. intros HB Hlod Ha.
  destruct (wrap_int_cases (lod + B)) as [q Hq].
  change (2 ^ 31) with 2147483648 in *. change (2 ^ 32) with 4294967296 in *.
  assert (q = 0) by lia. lia.
Qed.

Lemma absolute_level_small (B lod : Z) :
  0 <= B < 2 ^ 31 -> is_int lod -> 0 <= lod + B <= 29 ->
  wrap_int (lod + B) = lod + B.
Proof.
  unfold is_int. intros HB Hlod Ha. apply wrap_int_small. unfold is_int.
  change (2 ^ 31) with 2147483648 in *. lia.
Qed.

(** A request outside the grid or the levels is turned away. *)
Lemma out_of_range_spec (s : VirtualTexture) (lod u v : Z) :
  0 <= baseSplit s < 2 ^ 31 -> is_int lod ->
  ~ (0 <= lod + baseSplit s < nResolutionLevels s /\
     in_grid (lod + baseSplit s) u v) ->
  out_of_range s (wrap_int (lod + baseSplit s)) u v = true.
Proof.
  intros HB Hlod Hout.
  destruct (out_of_range s (wrap_int (lod + baseSplit s)) u v) eqn:E;
    [reflexivity|].
  apply out_of_range_false in E. destruct E as (Ha & HL & Hg).
  rewrite (absolute_level (baseSplit s) lod) in * by assumption.
  exfalso. apply Hout. split; [lia | assumption].
Qed.

Lemma in_range_passes (s : VirtualTexture) (a u v : Z) :
  0 <= a <= 29 -> a < nResolutionLevels s -> in_grid a u v ->
  out_of_range s a u v = false.
Proof.
  intros Ha HL [Hu Hv]. unfold out_of_range.
  rewrite int_shl_2, int_shl_1 by lia.
  rewrite wrap_uint_small
    by word_lia.
  rewrite !orb_false_iff. repeat split;
    (apply Z.ltb_ge; lia) || (apply Z.leb_gt; lia).
Qed.

(** [getUTileCount] and [getVTileCount] are the sides of the grid. *)
Lemma tile_counts_are_grid (s : VirtualTexture) (lod u v : Z) :
  0 <= lod + baseSplit s <= 29 ->
  in_grid (lod + baseSplit s) u v <->
  0 <= u < getUTileCount s lod /\ 0 <= v < getVTileCount s lod.
Proof.
  intros Ha. unfold getUTileCount, getVTileCount, in_grid.
  rewrite wrap_uint_small by word_lia.
  rewrite int_shl_2, int_shl_1 by lia. tauto.
Qed.

(** ** Pointers *)

Lemma ptrs_below_sel (b : nat) (n c : TileQuadtreeNode) (q : Quadrant) :
  ptrs_below b n = true -> sel n q = Some c -> ptrs_below b c = true.
Proof.
  destruct n as [t c0 c1 c2 c3]. cbn [ptrs_below sel].
  rewrite !andb_true_iff. intros [[[[Ht H0] H1] H2] H3].
  destruct q as [[] []]; intros ->; assumption.
Qed.

Lemma ptrs_below_tile (b : nat) (n : TileQuadtreeNode) (p : TilePtr) :
  ptrs_below b n = true -> node_tile n = Some p -> (p < b)%nat.
Proof.
  destruct n as [t c0 c1 c2 c3]. cbn [ptrs_below node_tile].
  rewrite !andb_true_iff. intros [[[[Ht H0] H1] H2] H3] ->.
  now apply Nat.ltb_lt.
Qed.

Lemma ptrs_below_tile_on (b : nat) (path : list Quadrant)
    (n : TileQuadtreeNode) (p : TilePtr) :
  ptrs_below b n = true -> tile_on path n = Some p -> (p < b)%nat.
Proof.
  revert n. induction path as [|q path IH]; intros n Hn Hp.
  - rewrite tile_on_nil in Hp. exact (ptrs_below_tile b n p Hn Hp).
  - rewrite tile_on_cons in Hp. destruct (sel n q) as [c|] eqn:Hsel;
      [|discriminate].
    apply (IH c); [|assumption]. exact (ptrs_below_sel b n c q Hn Hsel).
Qed.

Lemma ptrs_below_tile_at (b : nat) (tree : TileTree) (level u v : Z)
    (p : TilePtr) :
  ptrs_below b (fst tree) = true -> ptrs_below b (snd tree) = true ->
  tile_at tree level u v = Some p -> (p < b)%nat.
Proof.
  intros H0 H1. unfold tile_at, root_at.
  destruct (u ≫ level) as [|[| |]|]; try discriminate;
    intros Hp;
    [exact (ptrs_below_tile_on b _ _ p H0 Hp)
    |exact (ptrs_below_tile_on b _ _ p H1 Hp)].
Qed.

Lemma ptrs_below_set_sel (b : nat) (n x : TileQuadtreeNode) (q : Quadrant) :
  ptrs_below b n = true -> ptrs_below b x = true ->
  ptrs_below b (set_sel n q x) = true.
Proof.
  destruct n as [t c0 c1 c2 c3]. cbn [ptrs_below].
  rewrite !andb_true_iff. intros [[[[Ht H0] H1] H2] H3] Hx.
  destruct q as [[] []]; cbn [set_sel ptrs_below];
    rewrite !andb_true_iff; repeat split; assumption.
Qed.

Lemma ptrs_below_insert_path (b : nat) (path : list Quadrant) (p : TilePtr)
    (n : TileQuadtreeNode) :
  (p < b)%nat -> ptrs_below b n = true ->
  ptrs_below b (insert_path path p n) = true.
Proof.
  intros Hp. revert n. induction path as [|q path IH]; intros n Hn.
  - cbn [insert_path]. destruct (node_tile n); [assumption|].
    destruct n as [t c0 c1 c2 c3]. cbn [set_tile ptrs_below] in *.
    rewrite !andb_true_iff in *. repeat split; try tauto.
    now apply Nat.ltb_lt.
  - cbn [insert_path]. apply ptrs_below_set_sel; [assumption|].
    apply IH. destruct (sel n q) as [c|] eqn:Hsel; simpl.
    + exact (ptrs_below_sel b n c q Hn Hsel).
    + reflexivity.
Qed.

(** ** Residency *)

(** The level read by [loadTileTexture] respects its assertion when
    the depth of the tile is at most twelve above the base split. *)
Lemma level_assertion (B x : Z) :
  0 <= B -> 0 <= x < B + MaxResolutionLevels ->
  (x ≫ B <? MaxResolutionLevels) = true.
Proof.
  unfold MaxResolutionLevels. intros HB Hx. apply Z.ltb_lt.
  rewrite Z.shiftr_div_pow2 by lia.
  apply Z.div_lt_upper_bound; [apply pow2_pos; lia|].
  pose proof (Z.pow_gt_lin_r 2 B). lia.
Qed.

(** [loadTileTexture] leaves the tree, the tiles and the levels alone and
    records exactly one decode. *)
Lemma loadTileTexture_frame (s s' : VirtualTexture) (e e' : Env)
    (lod u v : Z) (r : option ImageTexture) :
  loadTileTexture s e lod u v = Some (s', e', r) ->
  tiles s' = tiles s /\ tileTree s' = tileTree s /\
  baseSplit s' = baseSplit s /\
  nResolutionLevels s' = nResolutionLevels s /\
  tilePath s' = tilePath s /\ tilePrefix s' = tilePrefix s /\
  tileExt s' = tileExt s /\
  exists f, decoded e' = f :: decoded e /\ fileLevel f = lod ≫ baseSplit s.
Proof.
  unfold loadTileTexture.
  destruct (lod ≫ baseSplit s <? MaxResolutionLevels); [|discriminate].
  destruct (LoadImageFromFile _ _) as [w [img|]].
  - destruct (isPow2 (getWidth img) && isPow2 (getHeight img)).
    + destruct (newImageTexture _ _ _ _) as [w' t].
      intros [= <- <- <-]. cbn. repeat split. eexists. split; reflexivity.
    + intros [= <- <- <-]. cbn. repeat split. eexists. split; reflexivity.
  - intros [= <- <- <-]. cbn. repeat split. eexists. split; reflexivity.
Qed.

Lemma loadTileTexture_defined (s : VirtualTexture) (e : Env) (lod u v : Z) :
  (lod ≫ baseSplit s <? MaxResolutionLevels) = true ->
  exists s' e' r, loadTileTexture s e lod u v = Some (s', e', r).
Proof.
  intros Hassert. unfold loadTileTexture. rewrite Hassert.
  destruct (LoadImageFromFile _ _) as [w [img|]].
  - destruct (isPow2 (getWidth img) && isPow2 (getHeight img)).
    + destruct (newImageTexture _ _ _ _) as [w' t]. repeat eexists.
    + repeat eexists.
  - repeat eexists.
Qed.

End GetTile.

Section Residency.

Context `{Ext : External}.

(** What a call of [makeResident] can do: nothing, for a settled tile;
    one decode that settles the tile, otherwise. *)
Lemma makeResident_cases (s s' : VirtualTexture) (e e' : Env) (p : TilePtr)
    (lod u v : Z) :
  makeResident s e p lod u v = Some (s', e') ->
  exists t, tiles s !! p = Some t /\
    ((settled t /\ s' = s /\ e' = e) \/
     (~ settled t /\
      exists t' f,
        decoded e' = f :: decoded e /\
        fileLevel f = lod ≫ baseSplit s /\
        fileU f = u /\ fileV f = v /\
        settled t' /\
        tiles s' = <[p := t']> (tiles s) /\
        tileTree s' = tileTree s /\ baseSplit s' = baseSplit s /\
        nResolutionLevels s' = nResolutionLevels s)).
Proof.
  unfold makeResident. destruct (tiles s !! p) as [t|] eqn:Hp; [|discriminate].
  simpl. intros H. exists t. split; [reflexivity|]. revert H.
  destruct (tex t) as [tx|] eqn:Htex.
  { intros [= <- <-]. left. unfold settled. rewrite Htex. split; [|tauto].
    left. discriminate. }
  destruct (loadFailed t) eqn:Hfail; cbn [negb].
  { intros [= <- <-]. left. unfold settled. tauto. }
  destruct (loadTileTexture s e lod u v) as [[[s1 e1] r]|] eqn:Hload;
    [|discriminate].
  simpl. intros [= <- <-]. right.
  split. { unfold settled. rewrite Htex, Hfail. intros [?|?]; congruence. }
  pose proof Hload as Hframe. apply loadTileTexture_frame in Hframe.
  destruct Hframe as (Ht & Htree & HB & HL & _ & _ & _ & f & Hf & Hlevel).
  assert (Hfuv : fileU f = u /\ fileV f = v).
  { unfold loadTileTexture in Hload.
    destruct (lod ≫ baseSplit s <? MaxResolutionLevels); [|discriminate].
    destruct (LoadImageFromFile _ _) as [w [img|]].
    - destruct (isPow2 (getWidth img) && isPow2 (getHeight img)).
      + destruct (newImageTexture _ _ _ _) as [w' tx'].
        injection Hload as <- <- <-. cbn in Hf. injection Hf as <-. now cbn.
      + injection Hload as <- <- <-. cbn in Hf. injection Hf as <-. now cbn.
    - injection Hload as <- <- <-. cbn in Hf. injection Hf as <-. now cbn. }
  eexists _, f. cbn. rewrite Ht.
  repeat split; try tauto; try assumption.
  unfold settled. destruct r; cbn; [left; discriminate | now right].
Qed.

Lemma makeResident_defined (s : VirtualTexture) (e : Env) (p : TilePtr)
    (lod u v : Z) :
  (p < length (tiles s))%nat ->
  (lod ≫ baseSplit s <? MaxResolutionLevels) = true ->
  exists s' e', makeResident s e p lod u v = Some (s', e').
Proof.
  intros Hp Hassert. unfold makeResident.
  destruct (lookup_lt_is_Some_2 (tiles s) p Hp) as [t ->].
  simpl.
  destruct (tex t); [repeat eexists|].
  destruct (loadFailed t); cbn [negb]; [repeat eexists|].
  destruct (loadTileTexture_defined s e lod u v Hassert)
    as (s1 & e1 & r & ->).
  simpl. repeat eexists.
Qed.

(** After [makeResident] the tile is settled. *)
Lemma makeResident_settles (s s' : VirtualTexture) (e e' : Env) (p : TilePtr)
    (lod u v : Z) :
  makeResident s e p lod u v = Some (s', e') ->
  exists t', tiles s' !! p = Some t' /\ settled t'.
Proof.
  intros H. apply makeResident_cases in H.
  destruct H as (t & Hp & [(Hs & -> & ->)|(_ & t' & f & _ & _ & _ & _ & Hs & Ht & _)]).
  - exists t. split; assumption.
  - exists t'. split; [|assumption]. rewrite Ht.
    apply list_lookup_insert_eq. eapply lookup_lt_Some; eassumption.
Qed.

Lemma makeResident_frame (s s' : VirtualTexture) (e e' : Env) (p : TilePtr)
    (lod u v : Z) :
  makeResident s e p lod u v = Some (s', e') ->
  tileTree s' = tileTree s /\ baseSplit s' = baseSplit s /\
  nResolutionLevels s' = nResolutionLevels s /\
  length (tiles s') = length (tiles s).
Proof.
  intros H. apply makeResident_cases in H.
  destruct H as (t0 & Hp & [(Hs & -> & ->)|(Hns & t' & f & _ & _ & _ & _ & Hs & Ht & Htree & HB & HL)]).
  - tauto.
  - rewrite Ht, length_insert. tauto.
Qed.

End Residency.

(** ** The sub-rectangle *)

Lemma dyadic_bounds (m n : Z) :
  0 <= m < n ->
  (0 <= inject_Z m * (1 / inject_Z n) /\
   inject_Z m * (1 / inject_Z n) + 1 / inject_Z n <= 1)%Q.
Proof.
  intros Hm. destruct n as [|p|p]; try lia.
  unfold Qle, Qplus, Qmult, Qdiv, Qinv, inject_Z. cbn.
  split; nia.
Qed.

Lemma land_low_mask (x k : Z) :
  0 <= k <= 30 -> Z.land x (wrap_int (int_shl 1 k - 1)) = x mod 2 ^ k.
Proof.
  intros Hk. rewrite int_shl_1 by lia.
  rewrite wrap_int_small.
  2:{ pose proof (pow2_small k Hk) as [Hi _]. pose proof (pow2_pos k).
      unfold is_int in *. lia. }
  replace (2 ^ k - 1) with (Z.ones k) by (rewrite Z.ones_equiv; lia).
  apply Z.land_ones. lia.
Qed.

(** The descriptor of a tile found [lod - tileLOD] levels above the
    request: a square of side [1 / 2^(lod - tileLOD)] whose origin is
    given by the low bits of the coordinates. *)
Lemma subTile_spec (name lod tileLOD u v : Z) :
  0 <= tileLOD <= lod -> lod <= 29 ->
  subTile name lod tileLOD u v =
  TextureTile5 name
    (inject_Z (u mod 2 ^ (lod - tileLOD)) * (1 / inject_Z (2 ^ (lod - tileLOD))))
    (inject_Z (v mod 2 ^ (lod - tileLOD)) * (1 / inject_Z (2 ^ (lod - tileLOD))))
    (1 / inject_Z (2 ^ (lod - tileLOD)))
    (1 / inject_Z (2 ^ (lod - tileLOD))).
Proof.
  intros Ht Hlod. unfold subTile.
  rewrite (wrap_uint_small (lod - tileLOD))
    by word_lia.
  rewrite !land_low_mask by lia. rewrite int_shl_1 by lia. reflexivity.
Qed.

Lemma subTile_full (name lod u v : Z) :
  0 <= lod <= 29 -> subTile name lod lod u v = TextureTile5 name 0 0 1 1.
Proof.
  intros Hlod. rewrite subTile_spec by lia. rewrite Z.sub_diag.
  change (2 ^ 0) with 1. rewrite !Z.mod_1_r. reflexivity.
Qed.

Section Requests.

Context `{Ext : External}.

(** The ways through [getTile]. *)
Lemma getTile_cases (s s' : VirtualTexture) (e e' : Env) (lod u v : Z)
    (D : TextureTile) :
  getTile s e lod u v = Some (s', e', D) ->
  let s1 := with_tilesRequested s (wrap_uint (tilesRequested s + 1)) in
  let a := wrap_int (lod + baseSplit s) in
  (out_of_range s a u v = true /\ s' = s1 /\ e' = e /\ D = noTexture) \/
  (out_of_range s a u v = false /\
   exists tile tileLOD,
     bestMatch (tileTree s) a u v = Some (tile, tileLOD) /\
     ((tile = None /\ s' = s1 /\ e' = e /\ D = noTexture) \/
      exists p t,
        tile = Some p /\
        makeResident s1 e p tileLOD
          (wrap_uint (u ≫ wrap_uint (a - tileLOD)))
          (wrap_uint (v ≫ wrap_uint (a - tileLOD))) = Some (s', e') /\
        tiles s' !! p = Some t /\
        D = match tex t with
            | None => noTexture
            | Some tx => subTile (getName tx) a tileLOD u v
            end)).
Proof.
  intros H s1 a. unfold getTile in H. fold s1 in H.
  change (baseSplit s1) with (baseSplit s) in H. fold a in H.
  change (out_of_range s1 a u v) with (out_of_range s a u v) in H.
  change (tileTree s1) with (tileTree s) in H.
  destruct (out_of_range s a u v).
  { injection H as <- <- <-. left. tauto. }
  right. split; [reflexivity|].
  destruct (bestMatch (tileTree s) a u v) as [[tile tileLOD]|]; [|discriminate].
  simpl in H. exists tile, tileLOD. split; [reflexivity|].
  destruct tile as [p|].
  2:{ injection H as <- <- <-. left. tauto. }
  right.
  destruct (makeResident s1 e p tileLOD _ _) as [[s2 e2]|] eqn:Hres;
    [|discriminate].
  simpl in H. destruct (tiles s2 !! p) as [t|] eqn:Hp; [|discriminate].
  simpl in H. exists p, t.
  destruct (tex t); injection H as <- <- <-; repeat split; assumption.
Qed.

End Requests.

Section RequestTheorems.

Context `{Ext : External}.

Lemma wf_ptr (s : VirtualTexture) (level u v : Z) (p : TilePtr) :
  wf s -> tile_at (tileTree s) level u v = Some p ->
  (p < length (tiles s))%nat.
Proof.
  intros (_ & _ & H0 & H1) Hp.
  exact (ptrs_below_tile_at _ _ level u v p H0 H1 Hp).
Qed.

(** [getTile] keeps the state well formed; the tree, the base split and
    the number of levels do not change. *)
Lemma getTile_frame (s s' : VirtualTexture) (e e' : Env) (lod u v : Z)
    (D : TextureTile) :
  getTile s e lod u v = Some (s', e', D) ->
  tileTree s' = tileTree s /\ baseSplit s' = baseSplit s /\
  nResolutionLevels s' = nResolutionLevels s /\
  length (tiles s') = length (tiles s).
Proof.
  intros H. apply getTile_cases in H. cbv zeta in H.
  destruct H as [(_ & -> & _)|(_ & tile & tileLOD & _ &
    [(_ & -> & _)|(p & t & _ & Hres & _)])]; try (cbn; tauto).
  apply makeResident_frame in Hres. exact Hres.
Qed.

Lemma getTile_wf (s s' : VirtualTexture) (e e' : Env) (lod u v : Z)
    (D : TextureTile) :
  wf s -> getTile s e lod u v = Some (s', e', D) -> wf s'.
Proof.
  intros Hwf H. apply getTile_frame in H. destruct H as (Ht & HB & HL & Hlen).
  unfold wf in *. rewrite Ht, HB, HL, Hlen. exact Hwf.
Qed.

(** In a well-formed state [getTile] returns: no access leaves an array,
    no pointer dangles and the assertion of [loadTileTexture] holds. *)
Lemma getTile_defined (s : VirtualTexture) (e : Env) (lod u v : Z) :
  wf s -> exists s' e' D, getTile s e lod u v = Some (s', e', D).
Proof.
  intros Hwf. pose proof Hwf as ([HB0 HB1] & [[HL0 HL1] HL30] & _).
  unfold getTile.
  set (s1 := with_tilesRequested s (wrap_uint (tilesRequested s + 1))).
  change (baseSplit s1) with (baseSplit s).
  set (a := wrap_int (lod + baseSplit s)).
  change (out_of_range s1 a u v) with (out_of_range s a u v).
  change (tileTree s1) with (tileTree s).
  destruct (out_of_range s a u v) eqn:Hrange.
  { repeat eexists. }
  pose proof Hrange as Hin. apply out_of_range_false in Hin.
  destruct Hin as (Ha & HaL & Hg). pose proof Hg as [Hu Hv].
  destruct (bestMatch_defined (tileTree s) a u v Ha Hu) as [[tile tileLOD] Hbest].
  rewrite Hbest. simpl.
  destruct tile as [p|]; [|repeat eexists].
  destruct (bestMatch_inv (tileTree s) a u v tileLOD p Ha Hu Hbest)
    as [Hdepth Hat].
  pose proof (wf_ptr s _ _ _ p Hwf Hat) as Hp.
  destruct (makeResident_defined s1 e p tileLOD
              (wrap_uint (u ≫ wrap_uint (a - tileLOD)))
              (wrap_uint (v ≫ wrap_uint (a - tileLOD)))) as (s2 & e2 & Hres).
  { exact Hp. }
  { apply level_assertion; cbn; lia. }
  rewrite Hres. simpl.
  destruct (makeResident_settles _ _ _ _ _ _ _ _ Hres) as (t' & Ht' & _).
  rewrite Ht'. simpl.
  destruct (tex t'); repeat eexists.
Qed.

(** C5. [getTile] returns for every request, whatever the integers
    [lod], [u] and [v]; when the absolute level [lod + B] is not among the
    levels [0 .. L-1], or [(u, v)] is outside the grid of that level, the
    result is the empty descriptor. *)
Theorem getTile_total (s : VirtualTexture) (e : Env) (lod u v : Z) :
  wf s -> is_int lod ->
  exists s' e' D,
    getTile s e lod u v = Some (s', e', D) /\
    (~ (0 <= lod + baseSplit s < nResolutionLevels s /\
        in_grid (lod + baseSplit s) u v) ->
     D = noTexture).
Proof.
  intros Hwf Hlod. pose proof Hwf as ([HB0 HB1] & _).
  assert (HB : 0 <= baseSplit s < 2 ^ 31).
  { word_lia. }
  destruct (getTile_defined s e lod u v Hwf) as (s' & e' & D & Hget).
  exists s', e', D. split; [exact Hget|].
  intros Hout. apply (out_of_range_spec s lod u v HB Hlod) in Hout.
  apply getTile_cases in Hget. cbv zeta in Hget. rewrite Hout in Hget.
  destruct Hget as [(_ & _ & _ & ->)|(? & _)]; [reflexivity | discriminate].
Qed.

(** C10. A descriptor other than the empty one comes from a tile the walk
    found at some depth [matchedLevel] between 0 and the absolute level
    [lod + B]; its rectangle is a square of side
    [1 / 2^(lod + B - matchedLevel)] inside the unit square. *)
Theorem getTile_subrect_in_unit_square (s s' : VirtualTexture) (e e' : Env)
    (lod u v : Z) (D : TextureTile) :
  0 <= baseSplit s < 2 ^ 31 -> is_int lod ->
  getTile s e lod u v = Some (s', e', D) -> D <> noTexture ->
  exists p matchedLevel name texU texV texDU texDV,
    bestMatch (tileTree s) (lod + baseSplit s) u v
      = Some (Some p, matchedLevel) /\
    0 <= matchedLevel <= lod + baseSplit s /\
    D = TextureTile5 name texU texV texDU texDV /\
    (texDU == 1 / inject_Z (2 ^ (lod + baseSplit s - matchedLevel)) /\
     texDV == 1 / inject_Z (2 ^ (lod + baseSplit s - matchedLevel)) /\
     0 <= texU /\ 0 <= texV /\
     texU + texDU <= 1 /\ texV + texDV <= 1)%Q.
Proof.
  intros HB Hlod H Hne. apply getTile_cases in H. cbv zeta in H.
  destruct H as [(_ & _ & _ & ->)|(Hrange & tile & tileLOD & Hbest &
    [(_ & _ & _ & ->)|(p & t & -> & Hres & Hp & ->)])]; try congruence.
  apply out_of_range_false in Hrange. destruct Hrange as (Ha & HaL & Hu & Hv).
  pose proof (absolute_level (baseSplit s) lod HB Hlod Ha) as Ea.
  rewrite Ea in Ha, HaL, Hu, Hv, Hbest, Hne |- *. clear Ea.
  destruct (bestMatch_inv _ _ u v tileLOD p Ha Hu Hbest) as [Hdepth _].
  destruct (tex t) as [tx|]; [|congruence].
  rewrite subTile_spec by lia.
  set (k := lod + baseSplit s - tileLOD).
  assert (Hk : 0 < 2 ^ k) by (apply pow2_pos; lia).
  pose proof (Z.mod_pos_bound u (2 ^ k) Hk) as Hum.
  pose proof (Z.mod_pos_bound v (2 ^ k) Hk) as Hvm.
  destruct (dyadic_bounds (u mod 2 ^ k) (2 ^ k) Hum) as [Hu0 Hu1].
  destruct (dyadic_bounds (v mod 2 ^ k) (2 ^ k) Hvm) as [Hv0 Hv1].
  exists p, tileLOD. do 5 eexists.
  split; [exact Hbest|]. split; [exact Hdepth|]. split; [reflexivity|].
  repeat split; try reflexivity; assumption.
Qed.


(** C4. A tile inserted at a valid address is found by the walk for that
    address, at the level of the address, whatever is inserted later; and
    once the tile holds a texture, [getTile] returns that texture with the
    full rectangle. *)
Theorem inserted_tile_is_best_match (tree0 tree1 tree2 : TileTree)
    (p : TilePtr) (level u v : Z) (ops : list (nat * Z * Z * Z)) :
  valid_address level u v ->
  tile_at tree0 level u v = None ->
  addTileToTree tree0 p level u v = Some tree1 ->
  Forall (fun op => valid_address op.1.1.2 op.1.2 op.2) ops ->
  insert_all ops tree1 = Some tree2 ->
  bestMatch tree2 level u v = Some (Some p, level) /\
  forall (s : VirtualTexture) (e : Env) (lod : Z) (t : Tile)
         (tx : ImageTexture),
    tileTree s = tree2 -> 0 <= baseSplit s < 2 ^ 31 -> is_int lod ->
    lod + baseSplit s = level -> level < nResolutionLevels s ->
    tiles s !! p = Some t -> tex t = Some tx ->
    getTile s e lod u v =
    Some (with_tilesRequested s (wrap_uint (tilesRequested s + 1)), e,
          TextureTile5 (getName tx) 0 0 1 1).
Proof.
  intros (Hl & Hg) Hfree Hadd Hops Hall. pose proof Hg as [Hu Hv].
  assert (H1 : tile_at tree1 level u v = Some p).
  { rewrite (tile_at_add_same tree0 tree1 p level u v Hl Hu Hadd), Hfree.
    reflexivity. }
  assert (H2 : tile_at tree2 level u v = Some p).
  { clear Hadd Hfree. revert tree1 H1 Hall.
    induction Hops as [|[[[p' l'] u'] v'] ops (Hl' & Hu' & Hv') _ IH];
      intros tree1 H1 Hall; cbn [insert_all] in Hall.
    - now injection Hall as <-.
    - cbn in Hl', Hu', Hv'.
      destruct (addTileToTree tree1 p' l' u' v') as [tree'|] eqn:Hadd';
        [|discriminate].
      apply (IH tree'); [|assumption].
      exact (tile_at_add_keep tree1 tree' p' p l' u' v' level u v
               Hl' Hu' Hadd' H1). }
  assert (Hbest : bestMatch tree2 level u v = Some (Some p, level)).
  { apply (bestMatch_deepest tree2 level u v level p); [lia | lia | lia | |].
    - now rewrite Z.sub_diag, !Z.shiftr_0_r.
    - intros d' Hd'. lia. }
  split; [exact Hbest|].
  intros s e lod t tx Htree HB Hlod Hlevel HL Ht Htex.
  unfold getTile.
  set (s1 := with_tilesRequested s (wrap_uint (tilesRequested s + 1))).
  change (baseSplit s1) with (baseSplit s).
  change (tileTree s1) with (tileTree s).
  rewrite absolute_level_small by (assumption || lia). rewrite Hlevel.
  change (out_of_range s1 level u v) with (out_of_range s level u v).
  rewrite (in_range_passes s level u v Hl HL Hg).
  rewrite Htree, Hbest. simpl.
  unfold makeResident. change (tiles s1) with (tiles s). rewrite Ht. simpl.
  rewrite Htex. simpl. rewrite Ht. simpl. rewrite Htex.
  now rewrite subTile_full.
Qed.

End RequestTheorems.

(** ** The catalog scan as a sequence of insertions *)

Lemma insert_all_app (ops1 ops2 : list (nat * Z * Z * Z))
    (tree tree1 : TileTree) :
  insert_all ops1 tree = Some tree1 ->
  insert_all (ops1 ++ ops2) tree = insert_all ops2 tree1.
Proof.
  revert tree. induction ops1 as [|[[[p l] u] v] ops1 IH]; intros tree H.
  - now injection H as <-.
  - cbn [insert_all app] in *.
    destruct (addTileToTree tree p l u v); [|discriminate]. now apply IH.
Qed.

Lemma catalog_ops_app (B : Z) (first : nat) (c1 c2 : list (Z * Z * Z)) :
  catalog_ops B first (c1 ++ c2) =
  catalog_ops B first c1 ++ catalog_ops B (first + length c1) c2.
Proof.
  revert first. induction c1 as [|[[i u] v] c1 IH]; intros first.
  - cbn. f_equal. lia.
  - cbn [app catalog_ops length]. rewrite IH. cbn. do 3 f_equal. lia.
Qed.

(** The tile given to the [k]-th file of the catalog. *)
Lemma elem_of_catalog_ops (B : Z) (first : nat) (cat : list (Z * Z * Z))
    (p : nat) (l u v : Z) :
  In (p, l, u, v) (catalog_ops B first cat) <->
  exists i, (first <= p)%nat /\ cat !! (p - first)%nat = Some (i, u, v) /\
            l = i + B.
Proof.
  revert first. induction cat as [|[[i0 u0] v0] cat IH]; intros first.
  - cbn. split; [tauto | intros (i & _ & H & _); discriminate].
  - cbn [catalog_ops In]. rewrite IH. split.
    + intros [[= <- <- <- <-]|(i & Hp & Hk & ->)].
      * exists i0. rewrite Nat.sub_diag. cbn. split; [lia | split; reflexivity].
      * exists i. replace (p - first)%nat with (S (p - S first)) by lia.
        cbn. split; [lia | split; [assumption | reflexivity]].
    + intros (i & Hp & Hk & ->).
      destruct (decide (p = first)) as [->|Hne].
      * left. rewrite Nat.sub_diag in Hk. cbn in Hk. now injection Hk as -> -> ->.
      * right. exists i. replace (p - first)%nat with (S (p - S first)) in Hk
          by lia.
        cbn in Hk. split; [lia | split; [assumption | reflexivity]].
Qed.

Lemma in_gridb_spec (level u v : Z) :
  in_gridb level u v = true <-> in_grid level u v.
Proof.
  unfold in_gridb, in_grid. rewrite !andb_true_iff.
  rewrite !Z.leb_le, !Z.ltb_lt. tauto.
Qed.

Section Scan.

Context `{Ext : External}.

(** One file: the code accepts what [accepted] accepts, and inserts the
    tile allocated next. *)
Lemma scan_entry_spec (pattern : string) (m : Z) (tree : TileTree)
    (heap : list Tile) (d : string) :
  0 <= m <= 29 ->
  scan_entry pattern m (int_shl 2 m) (int_shl 1 m) (tree, heap) d =
  match accepted pattern m d with
  | Some (u, v) =>
      match addTileToTree tree (length heap) m u v with
      | Some tree' => Some (tree', heap ++ [newTile])
      | None => None
      end
  | None => Some (tree, heap)
  end.
Proof.
  intros Hm. unfold scan_entry, accepted.
  rewrite int_shl_2, int_shl_1 by lia.
  destruct (sscanf pattern d) as [|u [|v [|w l]]]; try reflexivity.
  cbn [fst snd]. unfold in_gridb.
  destruct (Z.leb_spec 0 u), (Z.leb_spec 0 v), (Z.ltb_spec u (2 ^ (m + 1))),
    (Z.ltb_spec v (2 ^ m)); cbn [andb]; try reflexivity.
  assert (H32 : 2 ^ (m + 1) <= 2 ^ 30) by (apply pow2_le; lia).
  assert (H31 : 2 ^ m <= 2 ^ 29) by (apply pow2_le; lia).
  change (2 ^ 30) with 1073741824 in H32. change (2 ^ 29) with 536870912 in H31.
  rewrite !wrap_uint_small
    by word_lia.
  reflexivity.
Qed.

Lemma accepted_in_grid (pattern : string) (m : Z) (d : string) (u v : Z) :
  accepted pattern m d = Some (u, v) -> in_grid m u v.
Proof.
  unfold accepted. destruct (sscanf pattern d) as [|u' [|v' [|w l]]];
    try discriminate.
  destruct (in_gridb m u' v') eqn:E; [|discriminate].
  intros [= <- <-]. now apply in_gridb_spec.
Qed.

Lemma scan_directory_spec (pattern : string) (B i : Z)
    (entries : list string) (tree : TileTree) (heap : list Tile) :
  0 <= i + B <= 29 ->
  let cat := accepted_entries pattern (i + B) i entries in
  exists tree',
    for_each (scan_entry pattern (i + B) (int_shl 2 (i + B))
                         (int_shl 1 (i + B)))
             entries (tree, heap)
    = Some (tree', heap ++ replicate (length cat) newTile) /\
    insert_all (catalog_ops B (length heap) cat) tree = Some tree'.
Proof.
  intros Hm. revert tree heap.
  induction entries as [|d entries IH]; intros tree heap.
  { exists tree. cbn. rewrite app_nil_r. split; reflexivity. }
  cbn [for_each]. rewrite scan_entry_spec by assumption.
  unfold accepted_entries in *. cbn [mbind list_bind].
  change (foldr _ _ _) with (mbind (M := list) _ _).
  destruct (accepted pattern (i + B) d) as [[u v]|] eqn:Hacc.
  - pose proof (accepted_in_grid _ _ _ _ _ Hacc) as [Hu Hv].
    destruct (addTileToTree_path tree (length heap) (i + B) u v Hm Hu)
      as (root & _ & Hadd).
    rewrite Hadd.
    destruct (IH (set_root tree (u ≫ (i + B))
                    (insert_path (path_of (Z.to_nat (i + B)) u v)
                       (length heap) root))
                 (heap ++ [newTile])) as (tree' & Hfor & Hins).
    exists tree'. split.
    + rewrite Hfor. cbn [app length replicate].
      rewrite <- app_assoc. reflexivity.
    + cbn [app catalog_ops insert_all]. rewrite Hadd.
      rewrite length_app in Hins. cbn [length] in Hins.
      replace (S (length heap)) with (length heap + 1)%nat by lia.
      exact Hins.
  - cbn [app]. apply IH.
Qed.

End Scan.

Section Populate.

Context `{Ext : External}.

(** The scan never leaves the arrays: a file is inserted only after its
    coordinates passed the test against the limits of its level. *)
Lemma scan_entry_defined (pattern : string) (m : Z)
    (st : TileTree * list Tile) (d : string) :
  0 <= m ->
  exists st', scan_entry pattern m (int_shl 2 m) (int_shl 1 m) st d = Some st'.
Proof.
  intros Hm. unfold scan_entry.
  destruct (sscanf pattern d) as [|u [|v [|w l]]]; try (eexists; reflexivity).
  destruct ((0 <=? u) && (0 <=? v) && (u <? int_shl 2 m) && (v <? int_shl 1 m))
    eqn:Hguard; [|eexists; reflexivity].
  rewrite !andb_true_iff in Hguard. destruct Hguard as [[[Hu0 Hv0] Hu1] Hv1].
  apply Z.leb_le in Hu0. apply Z.ltb_lt in Hu1.
  destruct (int_shl_2_positive m) as [Hm29 E]; [lia | lia |].
  rewrite E in Hu1.
  assert (H32 : 2 ^ (m + 1) <= 2 ^ 30) by (apply pow2_le; lia).
  change (2 ^ 30) with 1073741824 in H32.
  rewrite (wrap_uint_small u)
    by word_lia.
  destruct (addTileToTree_path (fst st) (length (snd st)) m u (wrap_uint v))
    as (root & _ & ->); [lia | lia |].
  eexists; reflexivity.
Qed.

Lemma for_each_defined {A S : Type} (body : S -> A -> option S) (l : list A)
    (s : S) :
  (forall s x, exists s', body s x = Some s') ->
  exists s', for_each body l s = Some s'.
Proof.
  intros Hbody. revert s. induction l as [|x l IH]; intros s.
  - eexists; reflexivity.
  - cbn [for_each]. destruct (Hbody s x) as [s' ->]. apply IH.
Qed.

Lemma scan_level_defined (fs : FileSystem) (root pattern : string) (B : Z)
    (st : Z * (TileTree * list Tile)) (i : Z) :
  exists st', scan_level fs root pattern B st i = Some st'.
Proof.
  unfold scan_level. destruct (is_directory fs root i); [|eexists; reflexivity].
  destruct (for_each_defined
              (scan_entry pattern (wrap_uint (i + B))
                 (int_shl 2 (wrap_uint (i + B)))
                 (int_shl 1 (wrap_uint (i + B))))
              (directory_entries fs root i) (snd st)) as [st' ->].
  - intros s x. apply scan_entry_defined. apply wrap_uint_range.
  - eexists; reflexivity.
Qed.

(** [populateTileTree] returns, whatever the directories hold. *)
Lemma populateTileTree_defined (fs : FileSystem) (s : VirtualTexture) :
  exists s', populateTileTree fs s = Some s'.
Proof.
  unfold populateTileTree.
  destruct (for_each_defined
              (scan_level fs (tilePath s) (scan_pattern (tilePrefix s))
                 (baseSplit s))
              (seqZ 0 MaxResolutionLevels) (0, (tileTree s, tiles s)))
    as [[m [tree heap]] ->].
  - intros st i. apply scan_level_defined.
  - eexists; reflexivity.
Qed.

Lemma scan_levels_maxLevel (fs : FileSystem) (root pattern : string) (B : Z)
    (l : list Z) (m m' : Z) (st st' : TileTree * list Tile)
    (best : option Z) :
  for_each (scan_level fs root pattern B) l (m, st) = Some (m', st') ->
  m = level_of B best ->
  m' = level_of B
         (fold_left (fun best i => if is_directory fs root i then Some i
                                   else best) l best).
Proof.
  revert m st best. induction l as [|i l IH]; intros m st best Hfor Hm.
  - cbn in *. congruence.
  - cbn [for_each fold_left] in *. unfold scan_level in Hfor at 1.
    destruct (is_directory fs root i).
    + destruct (for_each _ (directory_entries fs root i) _) as [st1|];
        [|discriminate].
      apply (IH _ _ _ Hfor). reflexivity.
    + apply (IH _ _ _ Hfor). assumption.
Qed.

(** The scan of the levels [l] performs the insertions of their
    catalogs, one directory after the other. *)
Lemma scan_levels_spec (fs : FileSystem) (root prefix : string) (B : Z)
    (l : list Z) (m : Z) (tree : TileTree) (heap : list Tile) :
  Forall (fun i => 0 <= i < MaxResolutionLevels /\
                   (is_directory fs root i = true -> i + B <= 29)) l ->
  0 <= B <= 29 ->
  let cat := l ≫= level_catalog fs root prefix B in
  exists m' tree',
    for_each (scan_level fs root (scan_pattern prefix) B) l (m, (tree, heap))
    = Some (m', (tree', heap ++ replicate (length cat) newTile)) /\
    insert_all (catalog_ops B (length heap) cat) tree = Some tree'.
Proof.
  intros Hl HB. revert m tree heap.
  induction Hl as [|i l [Hi HiB] _ IH]; intros m tree heap.
  { exists m, tree. cbn. rewrite app_nil_r. split; reflexivity. }
  cbn [for_each]. unfold scan_level at 1. cbn [snd].
  cbn [mbind list_bind]. change (foldr _ _ _) with (mbind (M := list) _ _)
    in IH |- *.
  unfold level_catalog at 1 3. unfold MaxResolutionLevels in Hi.
  rewrite (wrap_uint_small (i + B))
    by word_lia.
  destruct (is_directory fs root i).
  - specialize (HiB eq_refl).
    destruct (scan_directory_spec (scan_pattern prefix) B i
                (directory_entries fs root i) tree heap) as (tree1 & -> & Hins);
      [lia|].
    cbv zeta in Hins.
    set (c1 := accepted_entries (scan_pattern prefix) (i + B) i
                 (directory_entries fs root i)) in *.
    destruct (IH (i + B) tree1 (heap ++ replicate (length c1) newTile))
      as (m' & tree' & Hfor & Hins').
    exists m', tree'. split.
    + rewrite Hfor. rewrite length_app, replicate_add, app_assoc. reflexivity.
    + rewrite catalog_ops_app.
      rewrite (insert_all_app _ _ tree tree1 Hins).
      rewrite length_app, length_replicate in Hins'. exact Hins'.
  - cbn [app]. apply IH.
Qed.

End Populate.

(** ** What a sequence of insertions leaves in the tree *)

Lemma insert_all_tile_at (ops : list (nat * Z * Z * Z))
    (tree tree' : TileTree) (level u v : Z) :
  Forall valid_op ops -> insert_all ops tree = Some tree' ->
  0 <= level -> in_grid level u v ->
  tile_at tree' level u v <> None <->
  tile_at tree level u v <> None \/ exists p, In (p, level, u, v) ops.
Proof.
  intros Hops. revert tree.
  induction Hops as [|[[[p0 l0] u0] v0] ops [Hl0 Hg0] _ IH];
    intros tree Hall Hl Hg; cbn [insert_all] in Hall.
  { injection Hall as <-. cbn. split; [tauto | intros [H|[p []]]; exact H]. }
  cbn in Hl0, Hg0.
  destruct (addTileToTree tree p0 l0 u0 v0) as [tree1|] eqn:Hadd;
    [|discriminate].
  rewrite (IH tree1 Hall Hl Hg). cbn [In].
  destruct (decide ((level, u, v) = (l0, u0, v0))) as [[= -> -> ->]|Hne].
  - rewrite (tile_at_add_same tree tree1 p0 l0 u0 v0 Hl0 (proj1 Hg0) Hadd).
    split; [|intros _; left; discriminate].
    intros _. right. exists p0. now left.
  - rewrite (tile_at_add_other tree tree1 p0 l0 u0 v0 level u v
               Hl0 Hg0 Hl Hg Hne Hadd).
    split.
    + intros [H|[p H]]; [now left | right; exists p; now right].
    + intros [H|[p [H|H]]]; [now left | congruence | right; now exists p].
Qed.

(** Every tile of the tree after the insertions was there before, at the
    same place, or is the tile of one of the insertions, and then the
    length of its path is the level of that insertion. *)
Lemma insert_all_tile_on (ops : list (nat * Z * Z * Z))
    (tree tree' : TileTree) (r : Z) (node' : TileQuadtreeNode)
    (path : list Quadrant) (p : nat) :
  Forall valid_op ops -> insert_all ops tree = Some tree' ->
  root_at tree' r = Some node' -> tile_on path node' = Some p ->
  (exists node, root_at tree r = Some node /\ tile_on path node = Some p) \/
  exists l u v, In (p, l, u, v) ops /\ Z.of_nat (length path) = l.
Proof.
  intros Hops. revert tree.
  induction Hops as [|[[[p0 l0] u0] v0] ops [Hl0 [Hu0 Hv0]] _ IH];
    intros tree Hall Hroot Hp; cbn [insert_all] in Hall.
  { injection Hall as <-. left. now exists node'. }
  cbn in Hl0, Hu0, Hv0.
  destruct (addTileToTree_path tree p0 l0 u0 v0 Hl0 Hu0) as (root & Hr0 & Hadd).
  rewrite Hadd in Hall.
  destruct (IH _ Hall Hroot Hp) as [(node1 & Hroot1 & Hp1)|(l & u & v & Hin & Hlen)].
  2:{ right. exists l, u, v. split; [now right | assumption]. }
  destruct (Z.eq_dec (u0 ≫ l0) r) as [<-|Hne].
  - rewrite root_at_set_root_same in Hroot1 by (apply root_index_range; lia).
    injection Hroot1 as <-.
    apply tile_on_insert_inv in Hp1.
    destruct Hp1 as [Hold|(-> & -> & _)].
    + left. now exists root.
    + right. exists l0, u0, v0. split; [now left|].
      rewrite length_path_of. lia.
  - rewrite root_at_set_root_ne in Hroot1 by assumption.
    left. now exists node1.
Qed.

Lemma catalog_ops_valid (B : Z) (first : nat) (cat : list (Z * Z * Z)) :
  Forall (fun c => 0 <= c.1.1 + B <= 29 /\ in_grid (c.1.1 + B) c.1.2 c.2) cat ->
  Forall valid_op (catalog_ops B first cat).
Proof.
  intros H. revert first.
  induction H as [|[[i u] v] cat Hc _ IH]; intros first; cbn [catalog_ops].
  - constructor.
  - constructor; [exact Hc | apply IH].
Qed.

(** ** The catalog *)

Lemma elem_of_accepted_entries (pattern : string) (m i : Z)
    (entries : list string) (c : Z * Z * Z) :
  In c (accepted_entries pattern m i entries) <->
  exists d, In d entries /\ accepted pattern m d = Some (c.1.2, c.2) /\
            c.1.1 = i.
Proof.
  unfold accepted_entries. rewrite <- list_elem_of_In, list_elem_of_bind.
  split.
  - intros (d & Hc & Hd). exists d. rewrite <- list_elem_of_In. split; [exact Hd|].
    destruct (accepted pattern m d) as [[u v]|]; [|inversion Hc].
    apply list_elem_of_singleton in Hc. subst c. now cbn.
  - intros (d & Hd & Hacc & Hi). exists d.
    split; [|apply list_elem_of_In; exact Hd].
    rewrite Hacc. destruct c as [[i' u] v]. cbn in *.
    subst i'. apply list_elem_of_singleton. reflexivity.
Qed.

Lemma elem_of_catalog (fs : FileSystem) (root prefix : string) (B : Z)
    (c : Z * Z * Z) :
  In c (catalog fs root prefix B) <->
  0 <= c.1.1 < MaxResolutionLevels /\
  is_directory fs root c.1.1 = true /\
  exists d, In d (directory_entries fs root c.1.1) /\
            accepted (scan_pattern prefix) (c.1.1 + B) d = Some (c.1.2, c.2).
Proof.
  unfold catalog. rewrite <- list_elem_of_In, list_elem_of_bind. split.
  - intros (i & Hc & Hi). apply elem_of_seqZ in Hi.
    unfold level_catalog in Hc.
    destruct (is_directory fs root i) eqn:Hdir; [|inversion Hc].
    apply list_elem_of_In, elem_of_accepted_entries in Hc.
    destruct Hc as (d & Hd & Hacc & <-).
    split; [lia|]. split; [assumption|]. now exists d.
  - intros (Hi & Hdir & d & Hd & Hacc). exists c.1.1.
    split; [|apply elem_of_seqZ; lia].
    unfold level_catalog. rewrite Hdir.
    apply list_elem_of_In, elem_of_accepted_entries. now exists d.
Qed.

Lemma catalog_valid (fs : FileSystem) (root prefix : string) (B : Z) :
  levels_fit fs root B ->
  Forall (fun c => 0 <= c.1.1 + B <= 29 /\ in_grid (c.1.1 + B) c.1.2 c.2)
         (catalog fs root prefix B).
Proof.
  intros [[HB0 HB1] Hfit]. apply Forall_forall. intros c Hc.
  apply elem_of_catalog in Hc.
  destruct Hc as (Hi & Hdir & d & _ & Hacc).
  specialize (Hfit _ Hi Hdir).
  unfold MaxResolutionLevels in Hi. split; [lia|].
  eapply accepted_in_grid. exact Hacc.
Qed.

(** With a [%] in the prefix the pattern is empty and no file name is
    accepted. *)
Lemma catalog_percent (fs : FileSystem) (root prefix : string) (B : Z) :
  has_percent prefix = true -> catalog fs root prefix B = [].
Proof.
  intros Hp. destruct (catalog fs root prefix B) as [|c cat] eqn:E;
    [reflexivity|].
  assert (Hc : In c (catalog fs root prefix B)) by (rewrite E; now left).
  apply elem_of_catalog in Hc. destruct Hc as (_ & _ & d & _ & Hacc).
  unfold scan_pattern in Hacc. rewrite Hp in Hacc. discriminate.
Qed.

Section Constructor.

Context `{Ext : External}.

Lemma populateTileTree_frame (fs : FileSystem) (s s' : VirtualTexture) :
  populateTileTree fs s = Some s' ->
  tilePath s' = tilePath s /\ tilePrefix s' = tilePrefix s /\
  tileExt s' = tileExt s /\ baseSplit s' = baseSplit s /\
  tileSize s' = tileSize s /\
  nResolutionLevels s' =
    wrap_uint (level_of (baseSplit s) (highest_level fs (tilePath s)) + 1).
Proof.
  unfold populateTileTree.
  destruct (for_each _ _ _) as [[m [tree heap]]|] eqn:Hfor; [|discriminate].
  intros [= <-]. cbn. repeat split.
  f_equal. f_equal.
  exact (scan_levels_maxLevel fs _ _ _ _ 0 m _ _ None Hfor eq_refl).
Qed.

(** The constructor returns whenever its assertion holds, with the
    members as given and the levels counted by the scan. *)
Lemma newVirtualTexture_defined (fs : FileSystem) (root : string) (B T : Z)
    (prefix type : string) :
  T <> 0 -> isPow2 (wrap_int T) = true ->
  exists s,
    newVirtualTexture fs root B T prefix type = Some s /\
    tilePath s = root /\ tilePrefix s = prefix /\
    tileExt s = ("." ++ type)%string /\ baseSplit s = B /\ tileSize s = T /\
    nResolutionLevels s = wrap_uint (level_of B (highest_level fs root) + 1).
Proof.
  intros HT Hpow. unfold newVirtualTexture.
  rewrite Hpow. destruct (Z.eqb_spec T 0) as [?|_]; [contradiction|].
  cbn [negb andb].
  match goal with |- context [populateTileTree fs ?s0] =>
    destruct (populateTileTree_defined fs s0) as [s Hs];
    pose proof (populateTileTree_frame fs s0 s Hs) as Hframe
  end.
  exists s. cbn in Hframe. tauto.
Qed.

(** When the directories fit, the tree of the new manager is the result
    of inserting the catalog, file after file. *)
Lemma newVirtualTexture_tree (fs : FileSystem) (root : string) (B T : Z)
    (prefix type : string) (s : VirtualTexture) :
  levels_fit fs root B ->
  newVirtualTexture fs root B T prefix type = Some s ->
  insert_all (catalog_ops B 0 (catalog fs root prefix B))
             (emptyNode, emptyNode) = Some (tileTree s) /\
  tiles s = replicate (length (catalog fs root prefix B)) newTile.
Proof.
  intros HB. unfold newVirtualTexture.
  destruct (negb (T =? 0) && isPow2 (wrap_int T)); [|discriminate].
  unfold populateTileTree. cbn [tilePath tilePrefix baseSplit tileTree tiles].
  destruct (scan_levels_spec fs root prefix B (seqZ 0 MaxResolutionLevels) 0
              (emptyNode, emptyNode) [])
    as (m' & tree' & Hfor & Hins).
  { apply Forall_seqZ. intros i Hi. split; [lia|].
    apply (proj2 HB). lia. }
  { apply HB. }
  cbv zeta in Hfor, Hins. fold (catalog fs root prefix B) in Hfor, Hins.
  rewrite Hfor. intros [= <-]. cbn. split; [exact Hins | reflexivity].
Qed.

End Constructor.

(** ** The highest level directory *)

Lemma fold_highest_absent (dir : Z -> bool) (l : list Z) (best : option Z) :
  Forall (fun j => dir j = false) l ->
  fold_left (fun best i => if dir i then Some i else best) l best = best.
Proof.
  intros H. revert best. induction H as [|j l Hj _ IH]; intros best.
  - reflexivity.
  - cbn [fold_left]. rewrite Hj. apply IH.
Qed.

Lemma fold_highest_in (dir : Z -> bool) (l : list Z) (best : option Z)
    (i : Z) :
  fold_left (fun best i => if dir i then Some i else best) l best = Some i ->
  best = Some i \/ (In i l /\ dir i = true).
Proof.
  revert best. induction l as [|j l IH]; intros best H.
  - now left.
  - cbn [fold_left] in H. apply IH in H. destruct H as [H|[H Hdir]].
    + destruct (dir j) eqn:Hj; [|now left].
      injection H as ->. right. split; [now left | exact Hj].
    + right. split; [now right | exact Hdir].
Qed.

Lemma highest_level_none (fs : FileSystem) (root : string) :
  (forall i, 0 <= i < MaxResolutionLevels -> is_directory fs root i = false) ->
  highest_level fs root = None.
Proof.
  intros H. apply fold_highest_absent, Forall_seqZ. intros i Hi. apply H. lia.
Qed.

Lemma highest_level_some (fs : FileSystem) (root : string) (i : Z) :
  0 <= i < MaxResolutionLevels -> is_directory fs root i = true ->
  (forall j, i < j < MaxResolutionLevels -> is_directory fs root j = false) ->
  highest_level fs root = Some i.
Proof.
  intros Hi Hdir Habove. unfold highest_level.
  replace MaxResolutionLevels with (i + (1 + (MaxResolutionLevels - i - 1)))
    by lia.
  rewrite seqZ_app by lia. rewrite fold_left_app.
  rewrite (seqZ_cons (0 + i)) by lia. cbn [fold_left]. rewrite Z.add_0_l, Hdir.
  apply fold_highest_absent, Forall_seqZ. intros j Hj. apply Habove. lia.
Qed.

Lemma highest_level_range (fs : FileSystem) (root : string) (i : Z) :
  highest_level fs root = Some i ->
  0 <= i < MaxResolutionLevels /\ is_directory fs root i = true.
Proof.
  intros H. apply fold_highest_in in H.
  destruct H as [H|[H Hdir]]; [discriminate|].
  apply list_elem_of_In, elem_of_seqZ in H. split; [lia | exact Hdir].
Qed.

Lemma level_of_highest (fs : FileSystem) (root : string) (B : Z) :
  0 <= B < 2 ^ 31 ->
  level_of B (highest_level fs root) = highest_absolute_level fs root B /\
  0 <= highest_absolute_level fs root B < B + MaxResolutionLevels.
Proof.
  intros HB. unfold level_of, highest_absolute_level.
  change (2 ^ 31) with 2147483648 in HB.
  destruct (highest_level fs root) as [i|] eqn:E.
  - apply highest_level_range in E. destruct E as [E _].
    unfold MaxResolutionLevels in *.
    rewrite wrap_uint_small
      by word_lia.
    lia.
  - unfold MaxResolutionLevels. lia.
Qed.

Lemma accepted_spec (prefix : string) (m : Z) (d : string) (u v : Z) :
  accepted (scan_pattern prefix) m d = Some (u, v) <->
  has_percent prefix = false /\
  sscanf (prefix ++ "%d_%d.") d = [u; v] /\ in_grid m u v.
Proof.
  unfold accepted, scan_pattern. destruct (has_percent prefix).
  - cbn. split; [discriminate | intros [? _]; discriminate].
  - destruct (sscanf (prefix ++ "%d_%d.") d) as [|u' [|v' [|w l]]];
      try (split; [discriminate | intros (_ & ? & _); discriminate]).
    rewrite <- in_gridb_spec. destruct (in_gridb m u' v') eqn:E.
    + split.
      * intros [= <- <-]. tauto.
      * intros (_ & [= <- <-] & _). reflexivity.
    + split; [discriminate|]. intros (_ & [= <- <-] & ?). congruence.
Qed.

Section ConstructorTheorems.

Context `{Ext : External}.

(** C2, as amended.  The constructor counts [L] levels, where [L] is one
    more than the highest absolute level [i + B] of a level directory
    [level<i>] that exists, and 1 when none exists; [getLODCount] returns
    [L - B].  With [B = 2] and the directories [level0], [level1],
    [level2], this gives [L = 5] and [getLODCount() == 3]. *)
Theorem levels_counted (fs : FileSystem) (root : string) (B T : Z)
    (prefix type : string) :
  0 <= B < 2 ^ 31 -> T <> 0 -> isPow2 (wrap_int T) = true ->
  exists s,
    newVirtualTexture fs root B T prefix type = Some s /\
    getLODCount s = nResolutionLevels s - B /\
    ((forall i, 0 <= i < MaxResolutionLevels ->
                is_directory fs root i = false) ->
     nResolutionLevels s = 1) /\
    (forall i, 0 <= i < MaxResolutionLevels ->
       is_directory fs root i = true ->
       (forall j, i < j < MaxResolutionLevels ->
                  is_directory fs root j = false) ->
       nResolutionLevels s = (i + B) + 1) /\
    (B = 2 ->
     (forall i, 0 <= i < MaxResolutionLevels ->
                is_directory fs root i = (i <=? 2)) ->
     nResolutionLevels s = 5 /\ getLODCount s = 3).
Proof.
  intros HB HT Hpow.
  destruct (newVirtualTexture_defined fs root B T prefix type HT Hpow)
    as (s & Hs & _ & _ & _ & HsB & _ & HL).
  destruct (level_of_highest fs root B HB) as [Elevel Hrange].
  rewrite Elevel in HL.
  assert (HL' : nResolutionLevels s = highest_absolute_level fs root B + 1).
  { rewrite HL. apply wrap_uint_small. unfold is_uint.
    unfold MaxResolutionLevels in Hrange.
    change (2 ^ 31) with 2147483648 in HB.
    change (2 ^ 32) with 4294967296. lia. }
  assert (Hcount : getLODCount s = nResolutionLevels s - B).
  { unfold getLODCount. rewrite HsB, HL'. apply wrap_int_small.
    unfold is_int, MaxResolutionLevels in *.
    change (2 ^ 31) with 2147483648 in *. lia. }
  assert (Hsome : forall i, 0 <= i < MaxResolutionLevels ->
            is_directory fs root i = true ->
            (forall j, i < j < MaxResolutionLevels ->
                       is_directory fs root j = false) ->
            nResolutionLevels s = (i + B) + 1).
  { intros i Hi Hdir Habove. rewrite HL'. unfold highest_absolute_level.
    now rewrite (highest_level_some fs root i Hi Hdir Habove). }
  exists s. split; [exact Hs|]. split; [exact Hcount|].
  split; [|split; [exact Hsome|]].
  - intros Hnone. rewrite HL'. unfold highest_absolute_level.
    now rewrite (highest_level_none fs root Hnone).
  - intros -> Hdirs.
    assert (E : nResolutionLevels s = 5).
    { apply (Hsome 2).
      - unfold MaxResolutionLevels. lia.
      - rewrite Hdirs by (unfold MaxResolutionLevels; lia). reflexivity.
      - intros j Hj. rewrite Hdirs by lia. apply Z.leb_gt. lia. }
    split; [exact E|]. rewrite Hcount, E. reflexivity.
Qed.

(** When every level directory lies at an absolute level of 29 at most,
    the scan creates a tile at an address exactly when some file of the
    directory of that level is read by [sscanf], with the pattern
    [<prefix>%d_%d.], as the two coordinates of the address, these being
    inside the grid of the level.  The tree is the result of inserting
    these files in the order of the scan, one new tile for each.  With a
    [%] in the prefix nothing is read and the tree stays empty. *)
Lemma scan_catalog_fit (fs : FileSystem) (root : string)
    (B T : Z) (prefix type : string) :
  levels_fit fs root B -> T <> 0 -> isPow2 (wrap_int T) = true ->
  exists s,
    newVirtualTexture fs root B T prefix type = Some s /\
    (forall level u v, 0 <= level -> in_grid level u v ->
       tile_at (tileTree s) level u v <> None <->
       exists i d,
         0 <= i < MaxResolutionLevels /\ is_directory fs root i = true /\
         In d (directory_entries fs root i) /\ level = i + B /\
         has_percent prefix = false /\
         sscanf (prefix ++ "%d_%d.") d = [u; v]) /\
    insert_all (catalog_ops B 0 (catalog fs root prefix B))
               (emptyNode, emptyNode) = Some (tileTree s) /\
    tiles s = replicate (length (catalog fs root prefix B)) newTile /\
    (has_percent prefix = true ->
     tileTree s = (emptyNode, emptyNode) /\ tiles s = []).
Proof.
  intros HB HT Hpow.
  destruct (newVirtualTexture_defined fs root B T prefix type HT Hpow)
    as (s & Hs & _).
  destruct (newVirtualTexture_tree fs root B T prefix type s HB Hs)
    as [Hins Htiles].
  exists s. split; [exact Hs|].
  split; [|split; [exact Hins|split; [exact Htiles|]]].
  - intros level u v Hl Hg.
    rewrite (insert_all_tile_at _ _ _ level u v
               (catalog_ops_valid B 0 _ (catalog_valid fs root prefix B HB))
               Hins Hl Hg).
    split.
    + intros [Hroot|[p Hp]].
      { exfalso. apply Hroot. unfold tile_at, root_at.
        destruct (u ≫ level) as [|[| |]|]; cbn; try reflexivity;
          apply tile_on_emptyNode. }
      apply elem_of_catalog_ops in Hp. destruct Hp as (i & _ & Hk & ->).
      apply list_elem_of_lookup_2, list_elem_of_In, elem_of_catalog in Hk.
      cbn in Hk. destruct Hk as (Hi & Hdir & d & Hd & Hacc).
      apply accepted_spec in Hacc. exists i, d. tauto.
    + intros (i & d & Hi & Hdir & Hd & -> & Hpc & Hscan). right.
      assert (Hin : In (i, u, v) (catalog fs root prefix B)).
      { apply elem_of_catalog. cbn. split; [exact Hi|]. split; [exact Hdir|].
        exists d. split; [exact Hd|]. apply accepted_spec. tauto. }
      apply list_elem_of_In, list_elem_of_lookup_1 in Hin. destruct Hin as [k Hk].
      exists k. apply elem_of_catalog_ops. exists i.
      rewrite Nat.sub_0_r. split; [lia | split; [exact Hk | reflexivity]].
  - intros Hpc. rewrite (catalog_percent fs root prefix B Hpc) in Hins, Htiles.
    cbn in Hins, Htiles. injection Hins as <-. split; [reflexivity | exact Htiles].
Qed.

(** The tile created for the [p]-th file of the catalog, found in
    [level<i>], hangs [i + B] steps below its root. *)
Lemma constructed_tile_depth (fs : FileSystem) (root : string)
    (B T : Z) (prefix type : string) (s : VirtualTexture) (r : Z)
    (node : TileQuadtreeNode) (path : list Quadrant) (p : nat) :
  levels_fit fs root B ->
  newVirtualTexture fs root B T prefix type = Some s ->
  root_at (tileTree s) r = Some node -> tile_on path node = Some p ->
  exists i u v,
    catalog fs root prefix B !! p = Some (i, u, v) /\
    0 <= i < MaxResolutionLevels /\
    Z.of_nat (length path) = i + B.
Proof.
  intros HB Hs Hroot Hp.
  destruct (newVirtualTexture_tree fs root B T prefix type s HB Hs)
    as [Hins _].
  destruct (insert_all_tile_on _ _ _ r node path p
              (catalog_ops_valid B 0 _ (catalog_valid fs root prefix B HB))
              Hins Hroot Hp) as [(node0 & Hroot0 & Hp0)|(l & u & v & Hin & Hlen)].
  - exfalso. unfold root_at in Hroot0.
    destruct r as [|[| |]|]; try discriminate; injection Hroot0 as <-;
      cbn in Hp0; rewrite tile_on_emptyNode in Hp0; discriminate.
  - apply elem_of_catalog_ops in Hin. destruct Hin as (i & _ & Hk & ->).
    rewrite Nat.sub_0_r in Hk. exists i, u, v.
    split; [exact Hk|]. split; [|exact Hlen].
    apply list_elem_of_lookup_2, list_elem_of_In, elem_of_catalog in Hk.
    apply Hk.
Qed.

(** C7, as amended.  The depth of a node that carries a tile is the
    absolute level of the tile.  After any sequence of insertions into
    the empty tree, a tile found at the end of a path was inserted at a
    level equal to the length of the path; and in the tree of a new
    manager the tile created for a file of [level<i>] hangs [i + B] steps
    below its root. *)
Theorem tile_depth_is_absolute_level :
  (forall (ops : list (nat * Z * Z * Z)) (tree : TileTree) (r : Z)
          (node : TileQuadtreeNode) (path : list Quadrant) (p : nat),
     Forall valid_op ops ->
     insert_all ops (emptyNode, emptyNode) = Some tree ->
     root_at tree r = Some node -> tile_on path node = Some p ->
     exists level u v,
       In (p, level, u, v) ops /\ Z.of_nat (length path) = level) /\
  (forall (fs : FileSystem) (root : string) (B T : Z) (prefix type : string)
          (s : VirtualTexture) (r : Z) (node : TileQuadtreeNode)
          (path : list Quadrant) (p : nat),
     levels_fit fs root B ->
     newVirtualTexture fs root B T prefix type = Some s ->
     root_at (tileTree s) r = Some node -> tile_on path node = Some p ->
     exists i u v,
       catalog fs root prefix B !! p = Some (i, u, v) /\
       Z.of_nat (length path) = i + B).
Proof.
  split.
  - intros ops tree r node path p Hops Hins Hroot Hp.
    destruct (insert_all_tile_on _ _ _ r node path p Hops Hins Hroot Hp)
      as [(node0 & Hroot0 & Hp0)|Hop]; [|exact Hop].
    exfalso. unfold root_at in Hroot0.
    destruct r as [|[| |]|]; try discriminate; injection Hroot0 as <-;
      cbn in Hp0; rewrite tile_on_emptyNode in Hp0; discriminate.
  - intros fs root B T prefix type s r node path p HB Hs Hroot Hp.
    destruct (constructed_tile_depth fs root B T prefix type s r node path p
                HB Hs Hroot Hp) as (i & u & v & Hk & _ & Hlen).
    exists i, u, v. split; assumption.
Qed.

End ConstructorTheorems.

Section ResidencyTheorems.

Context `{Ext : External}.

(** A request changes a tile at most by settling it. *)
Lemma getTile_tiles (s s' : VirtualTexture) (e e' : Env) (lod u v : Z)
    (D : TextureTile) (p : nat) (t : Tile) :
  getTile s e lod u v = Some (s', e', D) -> tiles s !! p = Some t ->
  exists t', tiles s' !! p = Some t' /\
             (t' = t \/ (~ settled t /\ settled t')).
Proof.
  intros H Hp. apply getTile_cases in H. cbv zeta in H.
  destruct H as [(_ & -> & _)|(_ & tile & tileLOD & _ &
    [(_ & -> & _)|(p0 & t0 & _ & Hres & _)])];
    try (exists t; split; [exact Hp | now left]).
  apply makeResident_cases in Hres.
  destruct Hres as (t1 & Hp1 &
    [(_ & -> & _)|(Hns & t' & f & _ & _ & _ & _ & Hs & Ht & _)]).
  - exists t. split; [exact Hp | now left].
  - cbn in Hp1, Ht. rewrite Ht.
    destruct (decide (p = p0)) as [->|Hne].
    + rewrite Hp in Hp1. injection Hp1 as <-.
      exists t'. split; [|now right].
      apply list_lookup_insert_eq. eapply lookup_lt_Some; eassumption.
    + exists t. rewrite list_lookup_insert_ne by congruence.
      split; [exact Hp | now left].
Qed.

(** Any number of requests leaves the tree, the base split, the levels
    and every settled tile as they are. *)
Lemma serve_frame (reqs : list (Z * Z * Z)) (s s' : VirtualTexture)
    (e e' : Env) :
  serve reqs s e = Some (s', e') ->
  tileTree s' = tileTree s /\ baseSplit s' = baseSplit s /\
  nResolutionLevels s' = nResolutionLevels s /\
  (forall p t, tiles s !! p = Some t ->
     exists t', tiles s' !! p = Some t' /\
                (t' = t \/ (~ settled t /\ settled t')) /\
                (settled t -> t' = t)).
Proof.
  revert s e. induction reqs as [|[[lod u] v] reqs IH]; intros s e H;
    cbn [serve] in H.
  { injection H as <- <-. repeat split; try reflexivity.
    intros p t Hp. exists t. tauto. }
  destruct (getTile s e lod u v) as [[[s1 e1] D]|] eqn:Hget; [|discriminate].
  destruct (IH _ _ H) as (Htree & HB & HL & Htiles).
  destruct (getTile_frame _ _ _ _ _ _ _ _ Hget) as (Htree1 & HB1 & HL1 & _).
  repeat split; try congruence.
  intros p t Hp.
  destruct (getTile_tiles _ _ _ _ _ _ _ _ p t Hget Hp) as (t1 & Hp1 & Hcase1).
  destruct (Htiles p t1 Hp1) as (t' & Hp' & Hcase & Hkeep).
  exists t'. split; [exact Hp'|]. split.
  - destruct Hcase1 as [->|[Hns Hs1]]; [exact Hcase|].
    right. split; [exact Hns|]. now rewrite (Hkeep Hs1).
  - intros Hs. destruct Hcase1 as [->|[Hns _]]; [now apply Hkeep | contradiction].
Qed.

(** A request served once is served again with the same descriptor and
    without a decode, however many requests came in between. *)
Lemma getTile_again (s s1 s2 : VirtualTexture) (e e1 e2 : Env) (lod u v : Z)
    (D : TextureTile) (reqs : list (Z * Z * Z)) :
  getTile s e lod u v = Some (s1, e1, D) ->
  serve reqs s1 e1 = Some (s2, e2) ->
  getTile s2 e2 lod u v =
  Some (with_tilesRequested s2 (wrap_uint (tilesRequested s2 + 1)), e2, D).
Proof.
  intros Hget Hserve.
  destruct (getTile_frame _ _ _ _ _ _ _ _ Hget) as (Htree1 & HB1 & HL1 & _).
  destruct (serve_frame _ _ _ _ _ Hserve) as (Htree2 & HB2 & HL2 & Htiles).
  apply getTile_cases in Hget. cbv zeta in Hget.
  unfold getTile.
  set (s3 := with_tilesRequested s2 (wrap_uint (tilesRequested s2 + 1))).
  change (baseSplit s3) with (baseSplit s2).
  change (tileTree s3) with (tileTree s2).
  rewrite HB2, HB1, Htree2, Htree1.
  set (a := wrap_int (lod + baseSplit s)) in *.
  assert (Hrange : out_of_range s3 a u v = out_of_range s a u v).
  { unfold out_of_range. cbn. now rewrite HL2, HL1. }
  rewrite Hrange.
  destruct Hget as [(-> & _ & _ & ->)|(-> & tile & tileLOD & -> & Hget)];
    [reflexivity|].
  simpl.
  destruct Hget as [(-> & _ & _ & ->)|(p & t & -> & Hres & Hp & ->)];
    [reflexivity|].
  destruct (makeResident_settles _ _ _ _ _ _ _ _ Hres) as (t' & Hp' & Hset).
  rewrite Hp in Hp'. injection Hp' as <-.
  destruct (Htiles p t Hp) as (t2 & Hp2 & _ & Hkeep).
  rewrite (Hkeep Hset) in Hp2.
  unfold makeResident. change (tiles s3) with (tiles s2). rewrite Hp2. simpl.
  destruct (tex t) as [tx|] eqn:Htex.
  - simpl. rewrite Hp2. simpl. now rewrite Htex.
  - destruct Hset as [Hset|Hset]; [congruence|]. rewrite Hset. simpl.
    rewrite Hp2. simpl. now rewrite Htex.
Qed.

(** C6.  A tile changes at most once, from empty to loaded or to failed:
    over any sequence of requests a tile record stays as it is or goes
    from unsettled to settled, and a settled one stays as it is;
    [makeResident] does nothing for a settled tile; a request that was
    served once is served again, after any further requests, with the
    same descriptor and no decode; and when the tile it matched failed to
    load, that descriptor is the empty one. *)
Theorem residency_settles_once :
  (forall reqs s e s' e' p t,
     serve reqs s e = Some (s', e') -> tiles s !! p = Some t ->
     exists t', tiles s' !! p = Some t' /\
                (t' = t \/ (~ settled t /\ settled t')) /\
                (settled t -> t' = t)) /\
  (forall s e p lod u v t,
     tiles s !! p = Some t -> settled t ->
     makeResident s e p lod u v = Some (s, e)) /\
  (forall s e lod u v s1 e1 D reqs s2 e2,
     getTile s e lod u v = Some (s1, e1, D) ->
     serve reqs s1 e1 = Some (s2, e2) ->
     exists s3,
       getTile s2 e2 lod u v = Some (s3, e2, D) /\ tiles s3 = tiles s2) /\
  (forall s e lod u v s1 e1 D p d t,
     getTile s e lod u v = Some (s1, e1, D) ->
     out_of_range s (wrap_int (lod + baseSplit s)) u v = false ->
     bestMatch (tileTree s) (wrap_int (lod + baseSplit s)) u v
       = Some (Some p, d) ->
     tiles s1 !! p = Some t -> tex t = None ->
     loadFailed t = true /\ D = noTexture).
Proof.
  split; [|split; [|split]].
  - intros reqs s e s' e' p t Hserve Hp.
    destruct (serve_frame _ _ _ _ _ Hserve) as (_ & _ & _ & Htiles).
    exact (Htiles p t Hp).
  - intros s e p lod u v t Hp Hset. unfold makeResident. rewrite Hp. simpl.
    destruct (tex t) eqn:Htex; [reflexivity|].
    destruct Hset as [Hset|Hset]; [congruence|]. now rewrite Hset.
  - intros s e lod u v s1 e1 D reqs s2 e2 Hget Hserve.
    eexists. split; [exact (getTile_again _ _ _ _ _ _ _ _ _ _ _ Hget Hserve)|].
    reflexivity.
  - intros s e lod u v s1 e1 D p d t Hget Hrange Hbest Hp Htex.
    apply getTile_cases in Hget. cbv zeta in Hget.
    rewrite Hrange, Hbest in Hget.
    destruct Hget as [(? & _)|(_ & tile & tileLOD & [= <- <-] & Hget)];
      [discriminate|].
    destruct Hget as [(? & _)|(p' & t' & [= <-] & Hres & Hp' & ->)];
      [discriminate|].
    rewrite Hp in Hp'. injection Hp' as <-. rewrite Htex.
    split; [|reflexivity].
    destruct (makeResident_settles _ _ _ _ _ _ _ _ Hres) as (t' & Hp' & Hset).
    rewrite Hp in Hp'. injection Hp' as <-.
    destruct Hset as [Hset|Hset]; [congruence | exact Hset].
Qed.

End ResidencyTheorems.

(** ** The factory *)

(** [isPow2] on a positive [int] is the test for a power of two. *)
Lemma isPow2_spec (x : Z) :
  0 < x < 2 ^ 31 -> isPow2 x = true <-> exists k, 0 <= k /\ x = 2 ^ k.
Proof.
  intros Hx. unfold isPow2.
  rewrite wrap_int_small
    by word_lia.
  rewrite Z.eqb_eq. split.
  - intros Hland. exists (Z.log2 x).
    pose proof (Z.log2_nonneg x) as Hk. split; [exact Hk|].
    destruct (Z.log2_spec x) as [Hlo Hhi]; [lia|].
    destruct (Z.eq_dec x (2 ^ Z.log2 x)) as [E|Hne]; [exact E|].
    exfalso.
    assert (Hbit : Z.testbit (Z.land x (x - 1)) (Z.log2 x) = true).
    { rewrite Z.land_spec, Z.bit_log2 by lia.
      replace (Z.log2 x) with (Z.log2 (x - 1)).
      - rewrite Z.bit_log2 by lia. reflexivity.
      - apply Z.log2_unique; [exact Hk | lia]. }
    rewrite Hland, Z.bits_0 in Hbit. discriminate.
  - intros (k & Hk & ->).
    replace (2 ^ k - 1) with (Z.ones k) by (rewrite Z.ones_equiv; lia).
    rewrite Z.land_ones by lia. apply Z.mod_same. pose proof (pow2_pos k Hk). lia.
Qed.

Lemma Qltb_spec (a b : Q) : Qltb a b = true <-> (a < b)%Q.
Proof.
  unfold Qltb. rewrite negb_true_iff. split.
  - intros H. apply Qnot_le_lt. intros Hle. apply Qle_bool_iff in Hle. congruence.
  - intros H. destruct (Qle_bool b a) eqn:E; [|reflexivity].
    apply Qle_bool_iff in E. exfalso. exact (Qlt_not_le _ _ H E).
Qed.

Lemma not_integral_spec (x : Q) : not_integral x = false <-> integral x.
Proof.
  unfold not_integral, integral. rewrite negb_false_iff, Qeq_bool_iff. split.
  - intros H. now exists (Qfloor x).
  - intros [z Hz]. rewrite Hz at 2. rewrite Qfloor_Z. exact Hz.
Qed.

(** The casts of a number that is an integer. *)
Lemma Qtrunc_Z (x : Q) (z : Z) : (x == inject_Z z)%Q -> Qtrunc x = z.
Proof.
  intros Hz. unfold Qtrunc.
  destruct (Qle_bool 0 x); rewrite Hz; [apply Qfloor_Z | apply Qceiling_Z].
Qed.

Lemma double_to_int_fits (x : Q) (z : Z) :
  (x == inject_Z z)%Q -> - 2 ^ 31 <= z < 2 ^ 31 -> double_to_int x = z.
Proof.
  intros Hz Hr. unfold double_to_int. rewrite (Qtrunc_Z x z Hz).
  destruct (Z.leb_spec (- 2 ^ 31) z); [|lia].
  destruct (Z.ltb_spec z (2 ^ 31)); [reflexivity | lia].
Qed.

Lemma double_to_int_wide (x : Q) (z : Z) :
  (x == inject_Z z)%Q -> 2 ^ 31 <= z -> double_to_int x = - 2 ^ 31.
Proof.
  intros Hz Hr. unfold double_to_int. rewrite (Qtrunc_Z x z Hz).
  destruct (Z.ltb_spec z (2 ^ 31)); [lia|].
  now rewrite andb_false_r.
Qed.

Lemma double_to_uint_fits (x : Q) (z : Z) :
  (x == inject_Z z)%Q -> 0 <= z < 2 ^ 32 -> double_to_uint x = z.
Proof.
  intros Hz Hr. unfold double_to_uint. rewrite (Qtrunc_Z x z Hz).
  assert (H63 : 2 ^ 32 < 2 ^ 63) by reflexivity.
  destruct (Z.leb_spec (- 2 ^ 63) z); [|lia].
  destruct (Z.ltb_spec z (2 ^ 63)); [|lia].
  apply wrap_uint_small. exact Hr.
Qed.

Lemma power_of_two_floor (t : Q) :
  integral t -> (64 <= t)%Q -> (t < inject_Z (2 ^ 31))%Q ->
  isPow2 (double_to_int t) = true <-> power_of_two t.
Proof.
  intros [z Hz] Hlo Hhi.
  rewrite Hz in Hlo, Hhi.
  change 64%Q with (inject_Z 64) in Hlo.
  rewrite <- Zle_Qle in Hlo. rewrite <- Zlt_Qlt in Hhi.
  rewrite (double_to_int_fits t z Hz) by lia.
  rewrite isPow2_spec by lia. unfold power_of_two. split.
  - intros (k & Hk & ->). exists k. split; [exact Hk | exact Hz].
  - intros (k & Hk & Ht). exists k. split; [exact Hk|].
    apply inject_Z_injective. rewrite <- Hz. exact Ht.
Qed.

Section Factory.

Context `{Ext : External}.

(** For a tile size that fits an [int], the factory returns the null
    result exactly when a configuration check fails, and a manager
    otherwise; the manager gets the suffix ["dds"] and the prefix ["tx_"]
    when the parameters do not give them. *)
Lemma factory_checks_configuration (fs : FileSystem) (texParams : Hash)
    (path : string) :
  (forall t, TileSize texParams = Some t -> (t < inject_Z (2 ^ 31))%Q) ->
  (CreateVirtualTexture fs texParams path = Some None <->
   config_fails texParams) /\
  (~ config_fails texParams ->
   exists vt,
     CreateVirtualTexture fs texParams path = Some (Some vt) /\
     tileExt vt = ("." ++ default "dds" (TileType texParams))%string /\
     tilePrefix vt = default "tx_"%string (TilePrefix texParams)).
Proof.
  intros Hsize. unfold CreateVirtualTexture, config_fails.
  destruct (ImageDirectory texParams) as [dir|].
  2:{ split; [split; [intros _; now left | reflexivity]|].
      intros H. exfalso. apply H. now left. }
  destruct (BaseSplit texParams) as [b|].
  2:{ split; [split; [intros _; right; left; now left | reflexivity]|].
      intros H. exfalso. apply H. right. left. now left. }
  destruct (Qltb b 0) eqn:Hneg.
  { apply Qltb_spec in Hneg. cbn [orb].
    assert (Hfail : exists b0, Some b = Some b0 /\ ((b0 < 0)%Q \/ ~ integral b0))
      by (exists b; split; [reflexivity | now left]).
    split; [split; [intros _; right; left; now right | reflexivity]|].
    intros H. exfalso. apply H. right. left. now right. }
  destruct (not_integral b) eqn:Hint.
  { cbn [orb].
    assert (Hfail : exists b0, Some b = Some b0 /\ ((b0 < 0)%Q \/ ~ integral b0)).
    { exists b. split; [reflexivity|]. right. intros Hi.
      apply not_integral_spec in Hi. congruence. }
    split; [split; [intros _; right; left; now right | reflexivity]|].
    intros H. exfalso. apply H. right. left. now right. }
  cbn [orb].
  assert (Hbok : ~ (Some b = None \/
            exists b0, Some b = Some b0 /\ ((b0 < 0)%Q \/ ~ integral b0))).
  { intros [?|(b0 & [= <-] & [Hlt|Hni])]; [discriminate | |].
    - apply Qltb_spec in Hlt. congruence.
    - apply Hni, not_integral_spec, Hint. }
  destruct (TileSize texParams) as [t|].
  2:{ split; [split; [intros _; right; right; now left | reflexivity]|].
      intros H. exfalso. apply H. right. right. now left. }
  specialize (Hsize t eq_refl).
  destruct (not_integral t) eqn:Htint.
  { cbn [orb].
    assert (Hfail : exists t0, Some t = Some t0 /\
              (~ integral t0 \/ (t0 < 64)%Q \/ ~ power_of_two t0)).
    { exists t. split; [reflexivity|]. left. intros Hi.
      apply not_integral_spec in Hi. congruence. }
    split; [split; [intros _; right; right; now right | reflexivity]|].
    intros H. exfalso. apply H. right. right. now right. }
  apply not_integral_spec in Htint.
  destruct (Qltb t 64) eqn:Hsmall.
  { apply Qltb_spec in Hsmall. cbn [orb].
    assert (Hfail : exists t0, Some t = Some t0 /\
              (~ integral t0 \/ (t0 < 64)%Q \/ ~ power_of_two t0))
      by (exists t; split; [reflexivity | right; now left]).
    split; [split; [intros _; right; right; now right | reflexivity]|].
    intros H. exfalso. apply H. right. right. now right. }
  assert (Hge : (64 <= t)%Q).
  { apply Qnot_lt_le. intros Hlt. apply Qltb_spec in Hlt. congruence. }
  pose proof (power_of_two_floor t Htint Hge Hsize) as Hpow.
  cbn [orb]. destruct (isPow2 (double_to_int t)) eqn:Hp2; cbn [negb].
  2:{ assert (Hfail : exists t0, Some t = Some t0 /\
                (~ integral t0 \/ (t0 < 64)%Q \/ ~ power_of_two t0)).
      { exists t. split; [reflexivity|]. right. right. intros Hp.
        apply Hpow in Hp. discriminate. }
      split; [split; [intros _; right; right; now right | reflexivity]|].
      intros H. exfalso. apply H. right. right. now right. }
  assert (Htok : ~ (Some t = None \/
            exists t0, Some t = Some t0 /\
              (~ integral t0 \/ (t0 < 64)%Q \/ ~ power_of_two t0))).
  { intros [?|(t0 & [= <-] & [Hni|[Hlt|Hnp]])]; [discriminate | | |].
    - exact (Hni Htint).
    - exact (Qlt_not_le _ _ Hlt Hge).
    - apply Hnp, Hpow. reflexivity. }
  destruct Htint as [z Hz].
  assert (Hz64 : 64 <= z < 2 ^ 31).
  { rewrite Hz in Hge, Hsize. change 64%Q with (inject_Z 64) in Hge.
    rewrite <- Zle_Qle in Hge. rewrite <- Zlt_Qlt in Hsize. lia. }
  assert (Hwu : double_to_uint t = z)
    by (apply double_to_uint_fits; [exact Hz | word_lia]).
  rewrite (double_to_int_fits t z Hz) in Hp2 by word_lia.
  destruct (newVirtualTexture_defined fs
              (if is_relative dir then path_append path dir else dir)
              (double_to_uint b) (double_to_uint t)
              (default "tx_"%string (TilePrefix texParams))
              (default "dds"%string (TileType texParams)))
    as (vt & Hvt & _ & Hprefix & Hext & _).
  { rewrite Hwu. lia. }
  { rewrite Hwu, wrap_int_small by word_lia. exact Hp2. }
  rewrite Hvt. split.
  - split; [discriminate|]. intros [?|[?|?]]; [discriminate | tauto | tauto].
  - intros _. exists vt. split; [reflexivity|]. split; assumption.
Qed.

End Factory.

(** ** New managers are well formed *)

Lemma ptrs_below_set_root (b : nat) (tree : TileTree) (r : Z)
    (n : TileQuadtreeNode) :
  ptrs_below b (fst tree) = true -> ptrs_below b (snd tree) = true ->
  ptrs_below b n = true ->
  ptrs_below b (fst (set_root tree r n)) = true /\
  ptrs_below b (snd (set_root tree r n)) = true.
Proof.
  intros H0 H1 Hn. unfold set_root.
  destruct r as [|[| |]|]; cbn [fst snd]; tauto.
Qed.

Lemma insert_all_ptrs_below (b : nat) (ops : list (nat * Z * Z * Z))
    (tree tree' : TileTree) :
  Forall valid_op ops -> Forall (fun op => (op.1.1.1 < b)%nat) ops ->
  insert_all ops tree = Some tree' ->
  ptrs_below b (fst tree) = true -> ptrs_below b (snd tree) = true ->
  ptrs_below b (fst tree') = true /\ ptrs_below b (snd tree') = true.
Proof.
  intros Hops. revert tree.
  induction Hops as [|[[[p0 l0] u0] v0] ops [Hl0 [Hu0 Hv0]] _ IH];
    intros tree Hptr Hall H0 H1; cbn [insert_all] in Hall.
  { injection Hall as <-. tauto. }
  cbn in Hl0, Hu0, Hv0.
  inversion Hptr as [|op ops' Hp0 Hptr' E]; subst. cbn in Hp0.
  destruct (addTileToTree_path tree p0 l0 u0 v0 Hl0 Hu0) as (root & Hr0 & Hadd).
  rewrite Hadd in Hall.
  assert (Hroot : ptrs_below b root = true).
  { unfold root_at in Hr0.
    destruct (u0 ≫ l0) as [|[| |]|]; try discriminate;
      injection Hr0 as <-; assumption. }
  destruct (ptrs_below_set_root b tree (u0 ≫ l0)
              (insert_path (path_of (Z.to_nat l0) u0 v0) p0 root) H0 H1)
    as [H0' H1'].
  { now apply ptrs_below_insert_path. }
  exact (IH _ Hptr' Hall H0' H1').
Qed.

Lemma catalog_ops_ptrs (B : Z) (first : nat) (cat : list (Z * Z * Z)) :
  Forall (fun op => (op.1.1.1 < first + length cat)%nat)
         (catalog_ops B first cat).
Proof.
  revert first. induction cat as [|[[i u] v] cat IH]; intros first;
    cbn [catalog_ops length].
  - constructor.
  - constructor; [cbn; lia|].
    replace (first + S (length cat))%nat with (S first + length cat)%nat by lia.
    apply IH.
Qed.

Section WellFormed.

Context `{Ext : External}.

Lemma newVirtualTexture_wf (fs : FileSystem) (root : string) (B T : Z)
    (prefix type : string) (s : VirtualTexture) :
  levels_fit fs root B ->
  newVirtualTexture fs root B T prefix type = Some s -> wf s.
Proof.
  intros HB Hs.
  destruct (newVirtualTexture_tree fs root B T prefix type s HB Hs)
    as [Hins Htiles].
  assert (Hassert : T <> 0 /\ isPow2 (wrap_int T) = true).
  { unfold newVirtualTexture in Hs.
    destruct (Z.eqb_spec T 0); cbn [negb andb] in Hs; [discriminate|].
    destruct (isPow2 (wrap_int T)); [tauto | discriminate]. }
  destruct (newVirtualTexture_defined fs root B T prefix type
              (proj1 Hassert) (proj2 Hassert))
    as (s' & Hs' & _ & _ & _ & HsB & _ & HL).
  rewrite Hs in Hs'. injection Hs' as <-.
  pose proof HB as [[HB0 HB1] Hfit].
  assert (HB31 : 0 <= B < 2 ^ 31).
  { word_lia. }
  destruct (level_of_highest fs root B HB31) as [Elevel Hrange].
  rewrite Elevel in HL.
  assert (H29 : highest_absolute_level fs root B <= 29).
  { unfold highest_absolute_level.
    destruct (highest_level fs root) as [i|] eqn:E; [|lia].
    apply highest_level_range in E. destruct E as [Hi Hdir].
    exact (Hfit i Hi Hdir). }
  unfold MaxResolutionLevels in *.
  rewrite wrap_uint_small in HL.
  2:{ word_lia. }
  unfold wf. rewrite HsB, HL, Htiles, length_replicate.
  split; [lia|]. split; [unfold MaxResolutionLevels; lia|].
  apply (insert_all_ptrs_below _ _ (emptyNode, emptyNode) (tileTree s)
           (catalog_ops_valid B 0 _ (catalog_valid fs root prefix B HB))
           (catalog_ops_ptrs B 0 _) Hins); reflexivity.
Qed.

Lemma serve_wf (reqs : list (Z * Z * Z)) (s s' : VirtualTexture)
    (e e' : Env) :
  wf s -> serve reqs s e = Some (s', e') -> wf s'.
Proof.
  revert s e. induction reqs as [|[[lod u] v] reqs IH]; intros s e Hwf H;
    cbn [serve] in H.
  - now injection H as <- <-.
  - destruct (getTile s e lod u v) as [[[s1 e1] D]|] eqn:Hget; [|discriminate].
    apply (IH s1 e1); [|exact H]. exact (getTile_wf _ _ _ _ _ _ _ _ Hwf Hget).
Qed.

(** The file asked for when a request loads a tile: the level in its
    path is the depth of the tile shifted right by the base split. *)
Lemma getTile_load_level (s s' : VirtualTexture) (e e' : Env) (lod u v : Z)
    (D : TextureTile) (f : TileFile) :
  getTile s e lod u v = Some (s', e', D) ->
  decoded e' = f :: decoded e ->
  out_of_range s (wrap_int (lod + baseSplit s)) u v = false /\
  exists p d,
    bestMatch (tileTree s) (wrap_int (lod + baseSplit s)) u v
      = Some (Some p, d) /\
    fileLevel f = d ≫ baseSplit s.
Proof.
  intros H Hf. apply getTile_cases in H. cbv zeta in H.
  assert (Hnot : decoded e <> f :: decoded e).
  { intros E. apply (f_equal length) in E. cbn in E. lia. }
  destruct H as [(_ & _ & -> & _)|(Hrange & tile & tileLOD & Hbest &
    [(_ & _ & -> & _)|(p & t & -> & Hres & _)])]; try contradiction.
  apply makeResident_cases in Hres.
  destruct Hres as (t1 & _ &
    [(_ & _ & ->)|(_ & t' & f' & Hf' & Hlevel & _)]); [contradiction|].
  rewrite Hf in Hf'. injection Hf' as <-.
  split; [exact Hrange|].
  exists p, tileLOD. split; [exact Hbest | exact Hlevel].
Qed.

(** In a manager built by the constructor and used for any requests, a
    tile matched by the walk lies at the depth [i + B] of its directory
    [level<i>], hence at most twelve levels above the request. *)
Lemma served_match_depth (fs : FileSystem) (root : string) (B T : Z)
    (prefix type : string) (s0 s : VirtualTexture) (e0 e : Env)
    (reqs : list (Z * Z * Z)) (a u v d : Z) (p : nat) :
  levels_fit fs root B ->
  newVirtualTexture fs root B T prefix type = Some s0 ->
  serve reqs s0 e0 = Some (s, e) ->
  out_of_range s a u v = false ->
  bestMatch (tileTree s) a u v = Some (Some p, d) ->
  baseSplit s = B /\
  exists i u0 v0,
    catalog fs root prefix B !! p = Some (i, u0, v0) /\
    0 <= i < MaxResolutionLevels /\ d = i + B /\ 0 <= a - d <= 12.
Proof.
  intros HB Hs0 Hserve Hrange Hbest.
  pose proof (newVirtualTexture_wf fs root B T prefix type s0 HB Hs0) as Hwf0.
  pose proof (serve_wf _ _ _ _ _ Hwf0 Hserve) as (_ & [[_ HL] _] & _).
  destruct (serve_frame _ _ _ _ _ Hserve) as (Htree & HsB & _).
  assert (HB0 : baseSplit s0 = B).
  { unfold newVirtualTexture in Hs0.
    destruct (negb (T =? 0) && isPow2 (wrap_int T)); [|discriminate].
    apply populateTileTree_frame in Hs0. cbn in Hs0. tauto. }
  apply out_of_range_false in Hrange. destruct Hrange as (Ha & HaL & Hu & Hv).
  destruct (bestMatch_inv _ _ _ _ _ _ Ha Hu Hbest) as [Hd Hat].
  rewrite Htree in Hat. unfold tile_at in Hat.
  destruct (root_at (tileTree s0) _) as [node|] eqn:Hroot; [|discriminate].
  destruct (constructed_tile_depth fs root B T prefix type s0 _ node _ p
              HB Hs0 Hroot Hat) as (i & u0 & v0 & Hk & Hi & Hlen).
  rewrite length_path_of, Z2Nat.id in Hlen by lia.
  split; [congruence|]. exists i, u0, v0.
  unfold MaxResolutionLevels in *. repeat split; try assumption; try lia.
Qed.

(** The numbers of a descriptor are [m / 2^k] with [k <= 12] and
    [m < 2^k]: each fits a [float] exactly, and so do the quotient and
    the products that [getTile] computes. *)
Lemma served_subrect_exact (fs : FileSystem) (root : string) (B T : Z)
    (prefix type : string) (s0 s s' : VirtualTexture) (e0 e e' : Env)
    (reqs : list (Z * Z * Z)) (lod u v : Z) (D : TextureTile) :
  levels_fit fs root B ->
  newVirtualTexture fs root B T prefix type = Some s0 ->
  serve reqs s0 e0 = Some (s, e) ->
  getTile s e lod u v = Some (s', e', D) -> D <> noTexture ->
  exists name k mu mv,
    0 <= k <= 12 /\ 0 <= mu < 2 ^ k /\ 0 <= mv < 2 ^ k /\
    D = TextureTile5 name
          (inject_Z mu * (1 / inject_Z (2 ^ k)))
          (inject_Z mv * (1 / inject_Z (2 ^ k)))
          (1 / inject_Z (2 ^ k)) (1 / inject_Z (2 ^ k)).
Proof.
  intros HB Hs0 Hserve Hget Hne.
  apply getTile_cases in Hget. cbv zeta in Hget.
  destruct Hget as [(_ & _ & _ & ->)|(Hrange & tile & tileLOD & Hbest &
    [(_ & _ & _ & ->)|(p & t & -> & Hres & Hp & ->)])]; try congruence.
  destruct (served_match_depth fs root B T prefix type s0 s e0 e reqs _ u v
              tileLOD p HB Hs0 Hserve Hrange Hbest)
    as (_ & i & u0 & v0 & _ & Hi & Hd & Hdiff).
  apply out_of_range_false in Hrange. destruct Hrange as (Ha & _ & _ & _).
  destruct (tex t) as [tx|]; [|congruence].
  pose proof HB as [[HB0 _] _].
  set (a := wrap_int (lod + baseSplit s)) in *.
  assert (Hk : 0 < 2 ^ (a - tileLOD)) by (apply pow2_pos; lia).
  exists (getName tx), (a - tileLOD), (u mod 2 ^ (a - tileLOD)),
    (v mod 2 ^ (a - tileLOD)).
  split; [lia|].
  split; [apply Z.mod_pos_bound; lia|].
  split; [apply Z.mod_pos_bound; lia|].
  apply subTile_spec; lia.
Qed.

(** The directory a tile is loaded from: for the tile of a file found in
    [level<i>] the path names [level<(i + B) >> B>]. *)
Lemma served_load_level (fs : FileSystem) (root : string) (B T : Z)
    (prefix type : string) (s0 s s' : VirtualTexture) (e0 e e' : Env)
    (reqs : list (Z * Z * Z)) (lod u v : Z) (D : TextureTile)
    (f : TileFile) :
  levels_fit fs root B ->
  newVirtualTexture fs root B T prefix type = Some s0 ->
  serve reqs s0 e0 = Some (s, e) ->
  getTile s e lod u v = Some (s', e', D) ->
  decoded e' = f :: decoded e ->
  exists p i u0 v0,
    catalog fs root prefix B !! p = Some (i, u0, v0) /\
    fileLevel f = (i + B) ≫ B.
Proof.
  intros HB Hs0 Hserve Hget Hf.
  destruct (getTile_load_level _ _ _ _ _ _ _ _ _ Hget Hf)
    as (Hrange & p & d & Hbest & Hlevel).
  destruct (served_match_depth fs root B T prefix type s0 s e0 e reqs _ u v
              d p HB Hs0 Hserve Hrange Hbest)
    as (HsB & i & u0 & v0 & Hk & _ & Hd & _).
  exists p, i, u0, v0. split; [exact Hk|]. now rewrite Hlevel, HsB, Hd.
Qed.

End WellFormed.

(** * Further properties of the code

    The rest of [virtualtex.cpp]: the test [isPow2], the dimensions set
    by the constructor, the three counts, the usage brackets, the ways
    out of a load, the names of the tile files, the order of the
    insertions, and what the constructor and the factory read. *)

(** ** Powers of two *)

Lemma isPow2_negative (x : Z) :
  - 2 ^ 31 < x < 0 -> isPow2 x = false.
Proof.
  intros Hx. unfold isPow2.
  rewrite wrap_int_small by word_lia.
  apply Z.eqb_neq. intros H.
  assert (Hneg : Z.land x (x - 1) < 0) by (apply Z.land_neg; lia).
  lia.
Qed.

(** X1.  [isPow2] holds of 0 and of the powers of two from [2^0] to
    [2^30], and of no other [int] above the least one. *)
Theorem isPow2_zero_or_power (x : Z) :
  - 2 ^ 31 < x < 2 ^ 31 ->
  isPow2 x = true <-> x = 0 \/ exists k, 0 <= k <= 30 /\ x = 2 ^ k.
Proof.
  intros Hx.
  destruct (Z.lt_trichotomy x 0) as [Hneg | [-> | Hpos]].
  - rewrite isPow2_negative by lia. split; [discriminate|].
    intros [-> | (k & Hk & ->)]; [lia|].
    pose proof (pow2_pos k). lia.
  - split; [now left | reflexivity].
  - rewrite isPow2_spec by lia. split.
    + intros (k & Hk & ->). right. exists k. split; [|reflexivity].
      split; [lia|].
      destruct (Z.le_gt_cases k 30) as [|Hbig]; [assumption|].
      pose proof (pow2_le 31 k). lia.
    + intros [-> | (k & Hk & ->)]; [lia|]. exists k. split; [lia | reflexivity].
Qed.

(** ** The size of the texture and of its grids *)

Section Sizes.

Context `{Ext : External}.

Lemma base_split_bound (B T : Z) :
  0 <= B -> 0 < T -> T * 2 ^ (B + 1) < 2 ^ 31 -> B <= 29.
Proof.
  intros HB HT Hfit.
  destruct (Z.le_gt_cases B 29) as [|Hbig]; [assumption|].
  pose proof (pow2_le 31 (B + 1)). nia.
Qed.

(** X2.  The texture that the constructor declares is as wide and as
    tall in pixels as the grid of tiles of LOD 0, and twice as wide as
    tall, as long as the width fits an [int]. *)
Theorem texture_dimensions (fs : FileSystem) (root : string) (B T : Z)
    (prefix type : string) (s : VirtualTexture) :
  0 <= B -> 0 < T -> T * 2 ^ (B + 1) < 2 ^ 31 ->
  newVirtualTexture fs root B T prefix type = Some s ->
  textureWidth B T = getUTileCount s 0 * tileSize s /\
  textureHeight B T = getVTileCount s 0 * tileSize s /\
  textureWidth B T = 2 * textureHeight B T.
Proof.
  intros HB HT Hfit Hnew.
  pose proof (base_split_bound B T HB HT Hfit) as HB29.
  assert (Hs : baseSplit s = B /\ tileSize s = T).
  { unfold newVirtualTexture in Hnew.
    destruct (negb (T =? 0) && isPow2 (wrap_int T)); [|discriminate].
    apply populateTileTree_frame in Hnew.
    destruct Hnew as (_ & _ & _ & Hb & Ht & _). now split. }
  destruct Hs as [Hb Ht].
  pose proof (pow2_pos B HB) as Hpos.
  pose proof (pow2_succ B HB) as Hsucc.
  assert (Hw : textureWidth B T = T * 2 ^ (B + 1)).
  { unfold textureWidth, uint_shl.
    rewrite (wrap_uint_small (B + 1)) by word_lia.
    rewrite Z.shiftl_mul_pow2 by lia.
    apply wrap_uint_small. word_lia. }
  assert (Hh : textureHeight B T = T * 2 ^ B).
  { unfold textureHeight, uint_shl.
    rewrite Z.shiftl_mul_pow2 by lia.
    apply wrap_uint_small. unfold is_uint. split; [nia|]. word_lia. }
  unfold getUTileCount, getVTileCount. rewrite Hb, Ht, Z.add_0_l.
  rewrite (wrap_uint_small B) by word_lia.
  rewrite int_shl_2, int_shl_1 by lia.
  rewrite Hw, Hh. repeat split; lia.
Qed.

(** X3.  At LOD [lod] the grid is [2^(lod+B+1)] tiles wide and
    [2^(lod+B)] tiles tall: twice as wide as tall, and each LOD has
    twice the columns, twice the rows and four times the tiles of the
    one before. *)
Theorem tile_counts_double (s : VirtualTexture) (lod : Z) :
  0 <= lod + baseSplit s <= 28 ->
  getUTileCount s lod = 2 ^ (lod + baseSplit s + 1) /\
  getVTileCount s lod = 2 ^ (lod + baseSplit s) /\
  getUTileCount s lod = 2 * getVTileCount s lod /\
  getUTileCount s (lod + 1) = 2 * getUTileCount s lod /\
  getVTileCount s (lod + 1) = 2 * getVTileCount s lod /\
  getUTileCount s (lod + 1) * getVTileCount s (lod + 1) =
    4 * (getUTileCount s lod * getVTileCount s lod).
Proof.
  intros Ha. unfold getUTileCount, getVTileCount.
  replace (lod + 1 + baseSplit s) with (lod + baseSplit s + 1) by lia.
  set (a := lod + baseSplit s) in *.
  rewrite (wrap_uint_small a), (wrap_uint_small (a + 1)) by word_lia.
  rewrite !int_shl_2, !int_shl_1 by lia.
  pose proof (pow2_succ a ltac:(lia)) as H1.
  pose proof (pow2_succ (a + 1) ltac:(lia)) as H2.
  pose proof (pow2_pos a ltac:(lia)).
  repeat split; nia.
Qed.

(** X4.  The range test of [getTile] is the one that the three counts
    advertise: a request passes it exactly when its LOD is below
    [getLODCount] and its coordinates are below [getUTileCount] and
    [getVTileCount]; a request that does not pass gets the empty
    descriptor, and only the request counter moves. *)
Theorem advertised_range (s : VirtualTexture) (e : Env) (lod u v : Z) :
  wf s -> is_int lod -> 0 <= lod + baseSplit s ->
  let inside := lod < getLODCount s /\
                0 <= u < getUTileCount s lod /\
                0 <= v < getVTileCount s lod in
  (out_of_range s (wrap_int (lod + baseSplit s)) u v = false <-> inside) /\
  (~ inside ->
   getTile s e lod u v =
   Some (with_tilesRequested s (wrap_uint (tilesRequested s + 1)), e,
         noTexture)).
Proof.
  intros Hwf Hlod Ha inside.
  pose proof Hwf as (HB & (HL & HL30) & _).
  assert (HB31 : 0 <= baseSplit s < 2 ^ 31) by word_lia.
  assert (Hcount : getLODCount s = nResolutionLevels s - baseSplit s).
  { unfold getLODCount. apply wrap_int_small.
    unfold MaxResolutionLevels in HL. word_lia. }
  assert (Hiff : out_of_range s (wrap_int (lod + baseSplit s)) u v = false
                 <-> inside).
  { unfold inside. rewrite Hcount. split.
    - intros Hin. pose proof (out_of_range_false _ _ _ _ Hin) as (Hr & HaL & Hg).
      pose proof (absolute_level _ _ HB31 Hlod Hr) as Heq.
      rewrite Heq in Hr, HaL, Hg.
      split; [lia|]. now apply tile_counts_are_grid.
    - intros (HlodL & Hu & Hv).
      assert (Hr : 0 <= lod + baseSplit s <= 29) by lia.
      rewrite (absolute_level_small _ _ HB31 Hlod Hr).
      apply in_range_passes; [lia | lia |].
      apply tile_counts_are_grid; [lia | now split]. }
  split; [exact Hiff|].
  intros Hout. unfold getTile.
  change (baseSplit (with_tilesRequested s _)) with (baseSplit s).
  assert (Ho : out_of_range s (wrap_int (lod + baseSplit s)) u v = true).
  { destruct (out_of_range s (wrap_int (lod + baseSplit s)) u v) eqn:Ho;
      [reflexivity|]. exfalso. apply Hout. now apply Hiff. }
  unfold out_of_range in *. simpl. rewrite Ho. reflexivity.
Qed.

End Sizes.

(** ** Insertions: occupied addresses and the order of insertion *)

Lemma set_sel_same (n c : TileQuadtreeNode) (q : Quadrant) :
  sel n q = Some c -> set_sel n q c = n.
Proof. destruct n, q as [[] []]; simpl; congruence. Qed.

Lemma set_sel_twice (n x y : TileQuadtreeNode) (q : Quadrant) :
  set_sel (set_sel n q x) q y = set_sel n q y.
Proof. destruct n, q as [[] []]; reflexivity. Qed.

Lemma set_sel_comm (n x y : TileQuadtreeNode) (q r : Quadrant) :
  q <> r -> set_sel (set_sel n r x) q y = set_sel (set_sel n q y) r x.
Proof. destruct n, q as [[] []], r as [[] []]; simpl; congruence. Qed.

Lemma set_tile_set_sel (n x : TileQuadtreeNode) (q : Quadrant) (p : TilePtr) :
  set_tile (set_sel n q x) p = set_sel (set_tile n p) q x.
Proof. destruct n, q as [[] []]; reflexivity. Qed.

Lemma set_root_same (tree : TileTree) (r : Z) (n : TileQuadtreeNode) :
  root_at tree r = Some n -> set_root tree r n = tree.
Proof.
  destruct tree as [a b]. unfold root_at, set_root.
  destruct r as [|[| |]|]; simpl; congruence.
Qed.

Lemma set_root_twice (tree : TileTree) (r : Z) (n m : TileQuadtreeNode) :
  set_root (set_root tree r n) r m = set_root tree r m.
Proof. destruct tree. unfold set_root. destruct r as [|[| |]|]; reflexivity. Qed.

Lemma set_root_comm (tree : TileTree) (r r' : Z) (n m : TileQuadtreeNode) :
  r <> r' ->
  set_root (set_root tree r' m) r n = set_root (set_root tree r n) r' m.
Proof.
  destruct tree. unfold set_root.
  destruct r as [|[| |]|], r' as [|[| |]|]; simpl; congruence.
Qed.

Lemma insert_path_occupied (path : list Quadrant) (p t : TilePtr)
    (n : TileQuadtreeNode) :
  tile_on path n = Some t -> insert_path path p n = n.
Proof.
  revert n. induction path as [|q path IH]; intros n Ht.
  - rewrite tile_on_nil in Ht. simpl. now rewrite Ht.
  - rewrite tile_on_cons in Ht. simpl.
    destruct (sel n q) as [c|] eqn:Hc; [|discriminate]. simpl.
    rewrite (IH c Ht). now apply set_sel_same.
Qed.

Lemma insert_path_comm (path path' : list Quadrant) (p q : TilePtr)
    (n : TileQuadtreeNode) :
  path <> path' ->
  insert_path path p (insert_path path' q n) =
  insert_path path' q (insert_path path p n).
Proof.
  revert path' n.
  induction path as [|a path IH]; intros [|b path'] n Hne;
    [congruence | | |].
  - simpl. rewrite node_tile_set_sel.
    destruct (node_tile n) eqn:Hn; [reflexivity|].
    rewrite sel_set_tile. apply set_tile_set_sel.
  - simpl. rewrite node_tile_set_sel.
    destruct (node_tile n) eqn:Hn; [reflexivity|].
    rewrite sel_set_tile. symmetry. apply set_tile_set_sel.
  - simpl. destruct (decide (a = b)) as [->|Hab].
    + rewrite !sel_set_sel, !set_sel_twice. simpl. f_equal.
      apply IH. congruence.
    + rewrite !sel_set_sel_ne by congruence.
      now apply set_sel_comm.
Qed.

(** The node that an address names. *)
Lemma distinct_addresses (level u v level' u' v' : Z) :
  0 <= level -> in_grid level u v -> 0 <= level' -> in_grid level' u' v' ->
  (level, u, v) <> (level', u', v') ->
  u ≫ level <> u' ≫ level' \/
  path_of (Z.to_nat level) u v <> path_of (Z.to_nat level') u' v'.
Proof.
  intros Hl Hg Hl' Hg' Hne.
  destruct (decide (u ≫ level = u' ≫ level')) as [Hr|]; [|now left].
  right. intros Hp.
  assert (level = level').
  { apply (f_equal length) in Hp. rewrite !length_path_of in Hp. lia. }
  subst level'.
  destruct (address_inj level u v u' v' Hl Hg Hg' Hr Hp). congruence.
Qed.

Lemma addTileToTree_comm (tree : TileTree) (p q : TilePtr)
    (level u v level' u' v' : Z) :
  0 <= level <= 29 -> in_grid level u v ->
  0 <= level' <= 29 -> in_grid level' u' v' ->
  (level, u, v) <> (level', u', v') ->
  addTileToTree tree p level u v ≫= (fun t => addTileToTree t q level' u' v') =
  addTileToTree tree q level' u' v' ≫= (fun t => addTileToTree t p level u v).
Proof.
  intros Hl Hg Hl' Hg' Hne.
  pose proof Hg as [Hu _]. pose proof Hg' as [Hu' _].
  destruct (addTileToTree_path tree p level u v Hl Hu) as (n & Hn & ->).
  destruct (addTileToTree_path tree q level' u' v' Hl' Hu')
    as (n' & Hn' & ->).
  simpl.
  set (r := u ≫ level) in *. set (r' := u' ≫ level') in *.
  set (path := path_of (Z.to_nat level) u v) in *.
  set (path' := path_of (Z.to_nat level') u' v') in *.
  assert (Hr : r = 0 \/ r = 1) by (apply root_index_range; lia).
  assert (Hr' : r' = 0 \/ r' = 1) by (apply root_index_range; lia).
  destruct (addTileToTree_path (set_root tree r (insert_path path p n))
              q level' u' v' Hl' Hu') as (m' & Hm' & ->).
  destruct (addTileToTree_path (set_root tree r' (insert_path path' q n'))
              p level u v Hl Hu) as (m & Hm & ->).
  fold r r' path path' in Hm, Hm' |- *. f_equal.
  destruct (decide (r = r')) as [Heq | Hrr].
  - rewrite <- Heq in *.
    rewrite root_at_set_root_same in Hm, Hm' by assumption.
    assert (n' = n) by congruence. subst n'.
    injection Hm as <-. injection Hm' as <-.
    rewrite !set_root_twice. f_equal. symmetry. apply insert_path_comm.
    destruct (distinct_addresses level u v level' u' v') as [H|H];
      try assumption; try lia; congruence.
  - rewrite root_at_set_root_ne in Hm by congruence.
    rewrite root_at_set_root_ne in Hm' by congruence.
    assert (m = n) by congruence. assert (m' = n') by congruence. subst.
    apply set_root_comm. congruence.
Qed.

(** X5.  Inserting at an address that already holds a tile changes
    nothing: the tree is the same afterwards, the first tile stays and
    the new one is not attached anywhere. *)
Theorem addTileToTree_occupied (tree : TileTree) (p t : TilePtr)
    (level u v : Z) :
  0 <= level <= 29 -> 0 <= u < 2 ^ (level + 1) ->
  tile_at tree level u v = Some t ->
  addTileToTree tree p level u v = Some tree.
Proof.
  intros Hl Hu Ht.
  destruct (addTileToTree_path tree p level u v Hl Hu) as (n & Hn & ->).
  unfold tile_at in Ht. rewrite Hn in Ht.
  rewrite (insert_path_occupied _ p t n Ht).
  now rewrite set_root_same.
Qed.

(** X6.  Insertions at distinct addresses can be made in any order: two
    sequences of insertions that are permutations of each other, with no
    address named twice, build the same tree. *)
Theorem insert_all_any_order (ops ops' : list (nat * Z * Z * Z))
    (tree : TileTree) :
  Forall valid_op ops -> NoDup (op_address <$> ops) -> ops ≡ₚ ops' ->
  insert_all ops tree = insert_all ops' tree.
Proof.
  intros Hv Hnd Hperm. revert tree Hv Hnd.
  induction Hperm as [|x l l' Hperm IH|x y l|l l' l'' H1 IH1 H2 IH2];
    intros tree Hv Hnd.
  - reflexivity.
  - destruct x as [[[p level] u] v]. simpl.
    inversion Hv; subst. inversion Hnd; subst.
    destruct (addTileToTree tree p level u v); [|reflexivity].
    now apply IH.
  - destruct x as [[[p level] u] v], y as [[[q level'] u'] v'].
    inversion Hv as [|? ? Hy Hv']; subst.
    inversion Hv' as [|? ? Hx _]; subst.
    destruct Hx as [Hl Hg], Hy as [Hl' Hg']. simpl in Hl, Hg, Hl', Hg'.
    assert (Hne : (level, u, v) <> (level', u', v')).
    { inversion Hnd as [|? ? Hnotin _]; subst. intros Heq. apply Hnotin.
      apply elem_of_cons. left.
      unfold op_address. simpl. congruence. }
    pose proof (addTileToTree_comm tree p q level u v level' u' v'
                  Hl Hg Hl' Hg' Hne) as Hc.
    simpl.
    destruct (addTileToTree tree q level' u' v') as [t1|],
             (addTileToTree tree p level u v) as [t2|]; simpl in Hc |- *.
    + now rewrite <- Hc.
    + destruct (addTileToTree t1 p level u v); [discriminate | reflexivity].
    + destruct (addTileToTree t2 q level' u' v'); [discriminate | reflexivity].
    + reflexivity.
  - rewrite IH1 by assumption. apply IH2.
    + now rewrite <- H1.
    + now rewrite <- H1.
Qed.

(** ** What a request does to the manager and to the outside *)

Section Effects.

Context `{Ext : External}.

Lemma unsettled_settled (t : Tile) : unsettled t = false <-> settled t.
Proof.
  unfold unsettled, settled. destruct (tex t), (loadFailed t); simpl;
    split; intros H; try reflexivity; try discriminate;
    try (left; discriminate); try (now right).
  destruct H as [H|H]; congruence.
Qed.

Lemma unsettled_not_settled (t : Tile) : unsettled t = true <-> ~ settled t.
Proof.
  rewrite <- unsettled_settled. destruct (unsettled t); split; congruence.
Qed.

(** The three ways out of a load. *)
Lemma loadTileTexture_outcome (s s' : VirtualTexture) (e e' : Env)
    (lod u v : Z) (r : option ImageTexture) :
  loadTileTexture s e lod u v = Some (s', e', r) ->
  let f := tile_file s lod u v in
  decoded e' = f :: decoded e /\
  config s' = config s /\ ticks s' = ticks s /\
  tilesRequested s' = tilesRequested s /\ tiles s' = tiles s /\
  match LoadImageFromFile (world e) f with
  | (w, None) => r = None /\ world e' = w /\ compressed s' = compressed s
  | (w, Some img) =>
      compressed s' = isCompressed img /\
      if isPow2 (getWidth img) && isPow2 (getHeight img)
      then exists tx, r = Some tx /\
             newImageTexture w img EdgeClamp (mip_mode f) = (world e', tx)
      else r = None /\ world e' = w
  end.
Proof.
  unfold loadTileTexture, tile_file, mip_mode.
  destruct (lod ≫ baseSplit s <? MaxResolutionLevels); [|discriminate].
  cbn [fileLevel].
  destruct (LoadImageFromFile _ _) as [w [img|]].
  - destruct (isPow2 (getWidth img) && isPow2 (getHeight img)).
    + destruct (newImageTexture _ _ _ _) as [w' t] eqn:Hnew.
      intros [= <- <- <-]. cbn. repeat split. now exists t.
    + intros [= <- <- <-]. cbn. repeat split.
  - intros [= <- <- <-]. cbn. repeat split.
Qed.

Lemma makeResident_outcome (s s' : VirtualTexture) (e e' : Env) (p : TilePtr)
    (lod u v : Z) (t : Tile) :
  makeResident s e p lod u v = Some (s', e') ->
  tiles s !! p = Some t -> unsettled t = true ->
  exists s1 r,
    loadTileTexture s e lod u v = Some (s1, e', r) /\
    config s' = config s1 /\ ticks s' = ticks s1 /\
    tilesRequested s' = tilesRequested s1 /\
    compressed s' = compressed s1 /\
    tiles s' = <[p := {| tex := r; loadFailed :=
                           match r with Some _ => false | None => true end |}]>
                 (tiles s).
Proof.
  unfold makeResident. intros H Hp Hun. rewrite Hp in H. simpl in H.
  unfold unsettled in Hun.
  destruct (tex t) eqn:Htex; [discriminate|].
  destruct (loadFailed t) eqn:Hfail; [discriminate|]. cbn [negb] in H.
  destruct (loadTileTexture s e lod u v) as [[[s1 e1] r]|] eqn:Hload;
    [|discriminate].
  simpl in H. injection H as <- <-. exists s1, r.
  apply loadTileTexture_outcome in Hload.
  destruct Hload as (_ & _ & _ & _ & Ht & _).
  split; [reflexivity|]. cbn. rewrite Ht.
  repeat split. destruct r; reflexivity.
Qed.

Lemma makeResident_settled (s : VirtualTexture) (e : Env) (p : TilePtr)
    (lod u v : Z) (t : Tile) :
  tiles s !! p = Some t -> unsettled t = false ->
  makeResident s e p lod u v = Some (s, e).
Proof.
  unfold makeResident, unsettled. intros -> H. simpl.
  destruct (tex t); [reflexivity|].
  destruct (loadFailed t); [reflexivity | discriminate].
Qed.

(** One request, step by step. *)
Lemma getTile_step (s s' : VirtualTexture) (e e' : Env) (lod u v : Z)
    (D : TextureTile) :
  getTile s e lod u v = Some (s', e', D) ->
  config s' = config s /\ ticks s' = ticks s /\
  tilesRequested s' = wrap_uint (tilesRequested s + 1) /\
  ((e' = e /\ tiles s' = tiles s /\ compressed s' = compressed s) \/
   exists f p t t',
     decoded e' = f :: decoded e /\
     fileRoot f = tilePath s /\ filePrefix f = tilePrefix s /\
     fileExt f = tileExt s /\
     tiles s !! p = Some t /\ unsettled t = true /\ unsettled t' = false /\
     tiles s' = <[p := t']> (tiles s)).
Proof.
  intros H. apply getTile_cases in H. cbn zeta in H.
  set (s1 := with_tilesRequested s (wrap_uint (tilesRequested s + 1))) in *.
  destruct H as [(_ & -> & -> & _) | (_ & tile & d & _ & H)].
  { repeat split. now left. }
  destruct H as [(_ & -> & -> & _) | (p & t' & -> & Hres & Hp' & _)].
  { repeat split. now left. }
  destruct (tiles s !! p) as [t|] eqn:Hp.
  2:{ unfold makeResident in Hres. change (tiles s1) with (tiles s) in Hres.
      rewrite Hp in Hres. discriminate. }
  destruct (unsettled t) eqn:Hun.
  - destruct (makeResident_outcome s1 s' e e' p _ _ _ t Hres Hp Hun)
      as (s2 & r & Hload & Hc & Htk & Hrq & Hcomp & Ht).
    apply loadTileTexture_outcome in Hload. cbn zeta in Hload.
    destruct Hload as (Hdec & Hc2 & Htk2 & Hrq2 & _ & _).
    rewrite Hc, Hc2, Htk, Htk2, Hrq, Hrq2.
    repeat split. right. eexists _, p, t, _.
    split; [exact Hdec|]. cbn. repeat split; try assumption.
    2: exact Ht. destruct r; reflexivity.
  - rewrite (makeResident_settled s1 e p _ _ _ t Hp Hun) in Hres.
    injection Hres as <- <-. repeat split. now left.
Qed.

(** X7.  A request leaves the configuration of the manager alone (the
    paths, the base split, the tile size, the number of levels, the
    tree), the frame counter and the number of tiles; it advances the
    request counter by one, whatever it returns; and it hands at most
    one file to the decoder, named after the manager's path, prefix and
    extension, in which case exactly one tile, unsettled before, is
    settled after. *)
Theorem getTile_effect (s s' : VirtualTexture) (e e' : Env) (lod u v : Z)
    (D : TextureTile) :
  getTile s e lod u v = Some (s', e', D) ->
  config s' = config s /\ ticks s' = ticks s /\
  length (tiles s') = length (tiles s) /\
  tilesRequested s' = wrap_uint (tilesRequested s + 1) /\
  ((e' = e /\ tiles s' = tiles s /\ compressed s' = compressed s) \/
   exists f p t t',
     decoded e' = f :: decoded e /\
     fileRoot f = tilePath s /\ filePrefix f = tilePrefix s /\
     fileExt f = tileExt s /\
     tiles s !! p = Some t /\ unsettled t = true /\ unsettled t' = false /\
     tiles s' = <[p := t']> (tiles s)).
Proof.
  intros H.
  destruct (getTile_step _ _ _ _ _ _ _ _ H) as (Hc & Ht & Hr & Hload).
  apply getTile_frame in H. destruct H as (_ & _ & _ & Hlen).
  split; [exact Hc|]. split; [exact Ht|]. split; [exact Hlen|].
  split; [exact Hr | exact Hload].
Qed.

End Effects.

Section Frames.

Context `{Ext : External}.

Lemma pending_insert (l : list Tile) (p : nat) (t t' : Tile) :
  l !! p = Some t -> unsettled t = true -> unsettled t' = false ->
  S (pending (<[p := t']> l)) = pending l.
Proof.
  unfold pending. revert p.
  induction l as [|x l IH]; intros [|p] Hp Hun Hun'; try discriminate.
  - injection Hp as ->. simpl. now rewrite Hun, Hun'.
  - simpl in Hp |- *. specialize (IH p Hp Hun Hun').
    destruct (unsettled x); simpl; lia.
Qed.

Lemma pending_le_length (l : list Tile) : (pending l <= length l)%nat.
Proof.
  unfold pending. induction l as [|x l IH]; simpl; [lia|].
  destruct (unsettled x); simpl; lia.
Qed.

Lemma run_app (c1 c2 : list Call) (s : VirtualTexture) (e : Env) :
  run (c1 ++ c2) s e =
  '(s1, e1, D1) ← run c1 s e;
  '(s2, e2, D2) ← run c2 s1 e1;
  Some (s2, e2, D1 ++ D2).
Proof.
  revert s e. induction c1 as [|c c1 IH]; intros s e.
  - simpl. destruct (run c2 s e) as [[[s2 e2] D2]|]; reflexivity.
  - destruct c as [| |lod u v]; simpl; try apply IH.
    destruct (getTile s e lod u v) as [[[s' e'] D]|]; [|reflexivity].
    simpl. rewrite IH.
    destruct (run c1 s' e') as [[[s1 e1] D1]|]; [|reflexivity].
    simpl. destruct (run c2 s1 e1) as [[[s2 e2] D2]|]; reflexivity.
Qed.

(** X8.  Over any sequence of calls, as many files are handed to the
    decoder as tiles become settled: no tile is decoded twice, no tile
    is ever unloaded, and the decoder is called at most once for each
    tile of the manager. *)
Theorem one_decode_per_tile (calls : list Call) (s s' : VirtualTexture)
    (e e' : Env) (Ds : list TextureTile) :
  run calls s e = Some (s', e', Ds) ->
  (length (decoded e') + pending (tiles s') =
   length (decoded e) + pending (tiles s))%nat /\
  length (tiles s') = length (tiles s) /\
  (length (decoded e') <= length (decoded e) + length (tiles s))%nat.
Proof.
  intros H.
  assert (Hcore :
    (length (decoded e') + pending (tiles s') =
     length (decoded e) + pending (tiles s))%nat /\
    length (tiles s') = length (tiles s)).
  { revert s e Ds H. induction calls as [|c calls IH]; intros s e Ds H.
    - injection H as <- <- <-. split; reflexivity.
    - destruct c as [| |lod u v]; simpl in H;
        try (apply IH in H; exact H).
      destruct (getTile s e lod u v) as [[[s1 e1] D]|] eqn:Hget;
        [|discriminate].
      simpl in H.
      destruct (run calls s1 e1) as [[[s2 e2] Ds2]|] eqn:Hrun;
        [|discriminate].
      injection H as <- <- <-.
      destruct (IH _ _ _ Hrun) as [IH1 IH2]. rewrite IH1, IH2.
      apply getTile_step in Hget.
      destruct Hget as (_ & _ & _ & [(-> & -> & _) | Hload]);
        [split; reflexivity|].
      destruct Hload as (f & p & t & t' & -> & _ & _ & _ & Hp & Hun & Hun' & ->).
      pose proof (pending_insert _ _ _ _ Hp Hun Hun') as Hpend.
      rewrite length_insert. simpl. split; lia. }
  destruct Hcore as [Hc Hl]. repeat split; try assumption.
  pose proof (pending_le_length (tiles s)). lia.
Qed.

Lemma getTile_counters (s s' : VirtualTexture) (e e' : Env) (lod u v : Z)
    (D : TextureTile) :
  getTile s e lod u v = Some (s', e', D) ->
  ticks s' = ticks s /\
  tilesRequested s' = wrap_uint (tilesRequested s + 1).
Proof. intros H. apply getTile_step in H. tauto. Qed.

Lemma wrap_uint_succ (x n : Z) :
  wrap_uint (wrap_uint (x + 1) + n) = wrap_uint (x + (1 + n)).
Proof.
  unfold wrap_uint. rewrite Zplus_mod_idemp_l. f_equal. lia.
Qed.

Lemma run_counters (calls : list Call) (s s' : VirtualTexture) (e e' : Env)
    (Ds : list TextureTile) :
  run calls s e = Some (s', e', Ds) ->
  is_uint (ticks s) -> is_uint (tilesRequested s) ->
  ticks s' = wrap_uint (ticks s + frames calls) /\
  length Ds = length (requests calls) /\
  (frames calls = 0 ->
   tilesRequested s' =
   wrap_uint (tilesRequested s + Z.of_nat (length (requests calls)))) /\
  is_uint (ticks s') /\ is_uint (tilesRequested s').
Proof.
  revert s e Ds. induction calls as [|c calls IH]; intros s e Ds H Htk Hrq.
  - injection H as <- <- <-. cbn.
    rewrite !Z.add_0_r, !wrap_uint_small by assumption.
    split; [reflexivity|]. split; [reflexivity|]. split; [reflexivity|].
    now split.
  - destruct c as [| |lod u v]; simpl in H.
    + apply IH in H; [| apply wrap_uint_range | cbn; word_lia ].
      destruct H as (H1 & H2 & _ & H4). cbn in H1.
      unfold frames. cbn [List.filter length].
      fold (frames calls). rewrite Nat2Z.inj_succ.
      rewrite wrap_uint_succ in H1.
      replace (Z.succ _) with (1 + frames calls) by (unfold frames; lia).
      split; [exact H1|]. split; [exact H2|]. split; [|exact H4].
      intros Hz. unfold frames in Hz. lia.
    + apply IH in H; assumption.
    + destruct (getTile s e lod u v) as [[[s1 e1] D]|] eqn:Hget;
        [|discriminate].
      simpl in H.
      destruct (run calls s1 e1) as [[[s2 e2] Ds2]|] eqn:Hrun;
        [|discriminate].
      injection H as <- <- <-.
      destruct (getTile_counters _ _ _ _ _ _ _ _ Hget) as [Htk1 Hrq1].
      apply IH in Hrun;
        [| now rewrite Htk1 | rewrite Hrq1; apply wrap_uint_range ].
      destruct Hrun as (H1 & H2 & H3 & H4).
      rewrite Htk1 in H1. rewrite Hrq1 in H3.
      change (frames (CallGetTile lod u v :: calls)) with (frames calls).
      change (requests (CallGetTile lod u v :: calls))
        with ((lod, u, v) :: requests calls).
      cbn [length]. rewrite Nat2Z.inj_succ.
      split; [exact H1|]. split; [f_equal; exact H2|]. split; [|exact H4].
      intros Hz. rewrite (H3 Hz), wrap_uint_succ. f_equal. lia.
Qed.

(** X9.  The two counters: [ticks] counts the calls of [beginUsage],
    and [tilesRequested] counts the requests made since the last of
    them, answered or not; [endUsage] changes neither.  Both counters
    are taken modulo [2^32]. *)
Theorem usage_counters (before after : list Call) (s s' : VirtualTexture)
    (e e' : Env) (Ds : list TextureTile) :
  is_uint (ticks s) -> is_uint (tilesRequested s) ->
  frames after = 0 ->
  run (before ++ CallBeginUsage :: after) s e = Some (s', e', Ds) ->
  ticks s' = wrap_uint (ticks s + frames before + 1) /\
  tilesRequested s' = wrap_uint (Z.of_nat (length (requests after))) /\
  length Ds = (length (requests before) + length (requests after))%nat.
Proof.
  intros Htk Hrq Hafter H. rewrite run_app in H.
  destruct (run before s e) as [[[s1 e1] D1]|] eqn:H1; [|discriminate].
  simpl in H.
  destruct (run after (beginUsage s1) e1) as [[[s2 e2] D2]|] eqn:H2;
    [|discriminate].
  injection H as <- <- <-.
  destruct (run_counters _ _ _ _ _ _ H1 Htk Hrq) as (Ht1 & Hl1 & _ & Hu1 & _).
  apply run_counters in H2; [| apply wrap_uint_range | cbn; word_lia ].
  destruct H2 as (Ht2 & Hl2 & Hr2 & _).
  rewrite Hafter, Z.add_0_r in Ht2. specialize (Hr2 Hafter).
  cbn in Ht2, Hr2. rewrite Ht1 in Ht2.
  rewrite wrap_uint_small in Ht2 by apply wrap_uint_range.
  rewrite Ht2, Hr2, length_app, Hl1, Hl2.
  repeat split. unfold wrap_uint. rewrite Zplus_mod_idemp_l. reflexivity.
Qed.

End Frames.

Section Brackets.

Context `{Ext : External}.

Lemma same_but_counters_fields (s t : VirtualTexture) :
  same_but_counters s t ->
  t = with_tilesRequested (with_ticks s (ticks t)) (tilesRequested t).
Proof.
  destruct s, t. unfold same_but_counters, config. cbn.
  intros ([= -> -> -> -> -> -> ->] & -> & ->). reflexivity.
Qed.

Lemma loadTileTexture_counters (s : VirtualTexture) (e : Env) (lod u v k r : Z) :
  loadTileTexture (with_tilesRequested (with_ticks s k) r) e lod u v =
  '(s', e', x) ← loadTileTexture s e lod u v;
  Some (with_tilesRequested (with_ticks s' k) r, e', x).
Proof.
  unfold loadTileTexture. cbn.
  destruct (lod ≫ baseSplit s <? MaxResolutionLevels); [|reflexivity].
  destruct (LoadImageFromFile _ _) as [w [img|]]; [|reflexivity].
  destruct (isPow2 (getWidth img) && isPow2 (getHeight img)); [|reflexivity].
  destruct (newImageTexture _ _ _ _). reflexivity.
Qed.

Lemma makeResident_counters (s : VirtualTexture) (e : Env) (p : TilePtr)
    (lod u v k r : Z) :
  makeResident (with_tilesRequested (with_ticks s k) r) e p lod u v =
  '(s', e') ← makeResident s e p lod u v;
  Some (with_tilesRequested (with_ticks s' k) r, e').
Proof.
  unfold makeResident. cbn [tiles with_tilesRequested with_ticks].
  destruct (tiles s !! p) as [t|]; [|reflexivity]. simpl.
  destruct (tex t); [reflexivity|].
  destruct (loadFailed t); [reflexivity|]. cbn [negb].
  rewrite loadTileTexture_counters.
  destruct (loadTileTexture s e lod u v) as [[[s1 e1] x]|]; reflexivity.
Qed.

Lemma getTile_same_but_counters (s t s' : VirtualTexture) (e e' : Env)
    (lod u v : Z) (D : TextureTile) :
  same_but_counters s t ->
  getTile s e lod u v = Some (s', e', D) ->
  exists t', getTile t e lod u v = Some (t', e', D) /\
             same_but_counters s' t'.
Proof.
  intros Hst H. rewrite (same_but_counters_fields _ _ Hst).
  set (k := ticks t). set (r := tilesRequested t). clearbody k r. clear Hst t.
  unfold getTile in *.
  cbn [baseSplit tileTree with_tilesRequested with_ticks tilesRequested] in *.
  change (out_of_range (with_tilesRequested s _) ?a u v)
    with (out_of_range s a u v) in H.
  change (out_of_range (with_tilesRequested (with_tilesRequested _ _) _) ?a u v)
    with (out_of_range s a u v).
  destruct (out_of_range s _ u v).
  { injection H as <- <- <-. eexists. split; [reflexivity|].
    repeat split. }
  destruct (bestMatch (tileTree s) _ u v) as [[[p|] d]|]; [| |discriminate].
  2:{ injection H as <- <- <-. eexists. split; [reflexivity|]. repeat split. }
  simpl in H |- *.
  change (with_tilesRequested (with_tilesRequested (with_ticks s k) r)
            (wrap_uint (r + 1)))
    with (with_tilesRequested
            (with_ticks (with_tilesRequested s
                           (wrap_uint (tilesRequested s + 1))) k)
            (wrap_uint (r + 1))).
  rewrite makeResident_counters.
  destruct (makeResident _ e p d _ _) as [[s1 e1]|]; [|discriminate].
  simpl in H |- *.
  destruct (tiles s1 !! p) as [t1|]; [|discriminate]. simpl in H |- *.
  destruct (tex t1); injection H as <- <- <-;
    (eexists; split; [reflexivity|]; repeat split).
Qed.

(** X10.  [beginUsage] and [endUsage] only keep the counters: the
    requests of a sequence of calls get the same descriptors, hand the
    same files to the decoder and leave the same tiles resident as when
    they are made without the brackets.  Nothing is unloaded between
    frames. *)
Theorem usage_brackets_transparent (calls : list Call)
    (s s' : VirtualTexture) (e e' : Env) (Ds : list TextureTile) :
  run calls s e = Some (s', e', Ds) ->
  exists s'', run (tile_calls calls) s e = Some (s'', e', Ds) /\
              same_but_counters s' s''.
Proof.
  intros H.
  assert (Hgen : forall t, same_but_counters s t ->
            exists t', run (tile_calls calls) t e = Some (t', e', Ds) /\
                       same_but_counters s' t').
  { revert s e Ds H. induction calls as [|c calls IH]; intros s e Ds H t Hst.
    - injection H as <- <- <-. exists t. split; [reflexivity | exact Hst].
    - destruct c as [| |lod u v]; simpl in H |- *.
      + apply (IH _ _ _ H). destruct Hst as (Hc & Hcomp & Ht).
        repeat split; assumption.
      + apply (IH _ _ _ H). exact Hst.
      + destruct (getTile s e lod u v) as [[[s1 e1] D]|] eqn:Hget;
          [|discriminate].
        simpl in H.
        destruct (run calls s1 e1) as [[[s2 e2] Ds2]|] eqn:Hrun;
          [|discriminate].
        injection H as <- <- <-.
        destruct (getTile_same_but_counters _ _ _ _ _ _ _ _ _ Hst Hget)
          as (t1 & -> & Hst1).
        simpl. destruct (IH _ _ _ Hrun t1 Hst1) as (t2 & -> & Hst2).
        simpl. exists t2. split; [reflexivity | exact Hst2]. }
  apply Hgen. repeat split.
Qed.

End Brackets.

Section Loads.

Context `{Ext : External}.

Lemma shiftr_small (u k : Z) :
  0 <= k -> 0 <= u < 2 ^ 32 -> wrap_uint (u ≫ k) = u ≫ k.
Proof.
  intros Hk Hu. apply wrap_uint_small. unfold is_uint.
  rewrite Z.shiftr_div_pow2 by lia.
  pose proof (pow2_pos k Hk).
  split; [apply Z.div_pos; lia|].
  apply Z.le_lt_trans with u; [|lia].
  apply Z.div_le_upper_bound; nia.
Qed.

Lemma texID_subTile (name lod tileLOD u v : Z) :
  texID (subTile name lod tileLOD u v) = name.
Proof. reflexivity. Qed.

(** X11.  When a request hands a file to the decoder, it is the file of
    the tile that the walk matched, named by the level and the
    coordinates of that tile, and the request ends in one of three ways.
    No image: the tile is marked failed and the compressed flag keeps
    its value.  An image whose width or height is not a power of two:
    the tile is marked failed, no texture is made, and the compressed
    flag is that of the image all the same.  Otherwise a texture is made
    with clamped edges, with mip maps only for a file of [level0], the
    tile holds it and the descriptor carries its name. *)
Theorem load_outcomes (s s' : VirtualTexture) (e e' : Env) (lod u v : Z)
    (D : TextureTile) (f : TileFile) :
  0 <= baseSplit s < 2 ^ 31 -> is_int lod ->
  getTile s e lod u v = Some (s', e', D) ->
  decoded e' = f :: decoded e ->
  exists p d t',
    bestMatch (tileTree s) (lod + baseSplit s) u v = Some (Some p, d) /\
    f = tile_file s d (u ≫ (lod + baseSplit s - d))
                      (v ≫ (lod + baseSplit s - d)) /\
    tiles s' !! p = Some t' /\
    match LoadImageFromFile (world e) f with
    | (w, None) =>
        D = noTexture /\ tex t' = None /\ loadFailed t' = true /\
        world e' = w /\ compressed s' = compressed s
    | (w, Some img) =>
        compressed s' = isCompressed img /\
        if isPow2 (getWidth img) && isPow2 (getHeight img)
        then exists tx,
               newImageTexture w img EdgeClamp (mip_mode f) = (world e', tx) /\
               tex t' = Some tx /\ D <> noTexture /\ texID D = getName tx
        else D = noTexture /\ tex t' = None /\ loadFailed t' = true /\
             world e' = w
    end.
Proof.
  intros HB Hlod H Hdec.
  assert (Hnew : e' <> e).
  { intros ->. apply (f_equal length) in Hdec. simpl in Hdec. lia. }
  apply getTile_cases in H. cbn zeta in H.
  set (s1 := with_tilesRequested s (wrap_uint (tilesRequested s + 1))) in *.
  destruct H as [(_ & _ & He & _) | (Hin & tile & d & Hbest & H)];
    [contradiction|].
  destruct H as [(_ & _ & He & _) | (p & t1 & -> & Hres & Hp' & HD)];
    [contradiction|].
  pose proof (out_of_range_false _ _ _ _ Hin) as (Hr & _ & Hg).
  pose proof (absolute_level _ _ HB Hlod Hr) as Ha.
  rewrite Ha in *. clear Ha. set (a := lod + baseSplit s) in *.
  pose proof Hg as [Hu Hv].
  assert (Hpow : 2 ^ (a + 1) <= 2 ^ 30 /\ 2 ^ a <= 2 ^ 29)
    by (split; apply pow2_le; lia).
  destruct (bestMatch_inv _ _ _ _ _ _ Hr Hu Hbest) as [Hd _].
  rewrite (wrap_uint_small (a - d)) in Hres by word_lia.
  rewrite !shiftr_small in Hres by word_lia.
  destruct (tiles s !! p) as [t|] eqn:Hp.
  2:{ unfold makeResident in Hres. change (tiles s1) with (tiles s) in Hres.
      rewrite Hp in Hres. discriminate. }
  destruct (unsettled t) eqn:Hun.
  2:{ rewrite (makeResident_settled s1 e p _ _ _ t Hp Hun) in Hres.
      injection Hres as _ <-. contradiction. }
  destruct (makeResident_outcome s1 s' e e' p _ _ _ t Hres Hp Hun)
    as (s2 & r & Hload & _ & _ & _ & Hcomp & Ht).
  apply loadTileTexture_outcome in Hload. cbn zeta in Hload.
  change (tile_file s1) with (tile_file s) in Hload.
  destruct Hload as (Hdec' & _ & _ & _ & _ & Hout).
  assert (Hf : f = tile_file s d (u ≫ (a - d)) (v ≫ (a - d))) by congruence.
  rewrite <- Hf in Hout.
  assert (Ht1 : t1 = {| tex := r;
                        loadFailed := match r with
                                      | Some _ => false
                                      | None => true
                                      end |}).
  { change (tiles s1) with (tiles s) in Ht. rewrite Ht in Hp'.
    rewrite list_lookup_insert_eq in Hp'
      by (apply lookup_lt_is_Some; eauto).
    congruence. }
  exists p, d, t1. split; [exact Hbest|]. split; [exact Hf|].
  split; [exact Hp'|].
  rewrite Hcomp. subst t1. cbn [tex loadFailed] in *.
  destruct (LoadImageFromFile (world e) f) as [w [img|]].
  - destruct Hout as [Hc Hout]. split; [exact Hc|].
    destruct (isPow2 (getWidth img) && isPow2 (getHeight img)).
    + destruct Hout as (tx & -> & Hnewtx). exists tx.
      split; [exact Hnewtx|]. split; [reflexivity|]. subst D.
      split; [discriminate | reflexivity].
    + destruct Hout as [-> Hw]. now repeat split.
  - destruct Hout as (-> & Hw & Hc). now repeat split.
Qed.

End Loads.

(** ** Writing and reading the name of a tile file *)

Section Names.

Lemma digit_cases (d : Z) :
  0 <= d <= 9 ->
  d = 0 \/ d = 1 \/ d = 2 \/ d = 3 \/ d = 4 \/ d = 5 \/ d = 6 \/ d = 7 \/
  d = 8 \/ d = 9.
Proof. lia. Qed.

Lemma digit_value_char (d : Z) :
  0 <= d <= 9 ->
  digit_value (digit_char d) = Some d /\
  isspace (digit_char d) = false /\
  Ascii.eqb (digit_char d) "-"%char = false /\
  Ascii.eqb (digit_char d) "+"%char = false.
Proof.
  intros Hd.
  destruct (digit_cases d Hd) as [H|[H|[H|[H|[H|[H|[H|[H|[H|H]]]]]]]]];
    subst d; repeat split.
Qed.

Lemma decimal_digits_app (fuel : nat) (n : Z) (acc rest : string) :
  (decimal_digits fuel n acc ++ rest = decimal_digits fuel n (acc ++ rest))%string.
Proof.
  revert n acc. induction fuel as [|fuel IH]; intros n acc; [reflexivity|].
  simpl. destruct (n <? 10); [reflexivity|]. now rewrite IH.
Qed.

(** The string written for a number begins with a digit. *)
Lemma decimal_digits_head (fuel : nat) (n : Z) (acc : string) :
  0 <= n ->
  exists d r, 0 <= d <= 9 /\
    decimal_digits (S fuel) n acc = String (digit_char d) r.
Proof.
  revert n acc. induction fuel as [|fuel IH]; intros n acc Hn.
  - exists (n mod 10). simpl.
    pose proof (Z.mod_pos_bound n 10 ltac:(lia)).
    destruct (n <? 10); eexists; (split; [lia | reflexivity]).
  - cbn [decimal_digits]. destruct (n <? 10) eqn:Hlt.
    + exists (n mod 10). pose proof (Z.mod_pos_bound n 10 ltac:(lia)).
      eexists. split; [lia | reflexivity].
    + apply Z.ltb_ge in Hlt.
      destruct (IH (n / 10) (String (digit_char (n mod 10)) acc))
        as (d & r & Hd & Heq).
      { apply Z.div_pos; lia. }
      exists d, r. split; [exact Hd|]. exact Heq.
Qed.

(** Reading back the digits written for [n] appends them to the number
    read so far. *)
Lemma scan_digits_decimal (fuel : nat) (n : Z) (acc : string) :
  0 <= n < 10 ^ Z.of_nat fuel -> (1 <= fuel)%nat ->
  exists k, 1 <= k /\
    forall a, scan_digits (decimal_digits fuel n acc) a =
              scan_digits acc (a * 10 ^ k + n).
Proof.
  revert n acc. induction fuel as [|fuel IH]; intros n acc Hn Hfuel; [lia|].
  cbn [decimal_digits].
  pose proof (Z.mod_pos_bound n 10 ltac:(lia)) as Hmod.
  destruct (digit_value_char (n mod 10) ltac:(lia)) as (Hdv & _).
  destruct (n <? 10) eqn:Hlt.
  - apply Z.ltb_lt in Hlt. exists 1. split; [lia|]. intros a.
    cbn [scan_digits]. rewrite Hdv. rewrite Z.mod_small by lia.
    f_equal. lia.
  - apply Z.ltb_ge in Hlt.
    assert (Hf : (1 <= fuel)%nat).
    { destruct fuel; [|lia]. simpl in Hn. lia. }
    rewrite Nat2Z.inj_succ, Z.pow_succ_r in Hn by lia.
    destruct (IH (n / 10) (String (digit_char (n mod 10)) acc)) as (k & Hk & Heq).
    { split; [apply Z.div_pos; lia|]. apply Z.div_lt_upper_bound; lia. }
    { exact Hf. }
    exists (k + 1). split; [lia|]. intros a. rewrite Heq.
    cbn [scan_digits]. rewrite Hdv. f_equal.
    rewrite Z.pow_add_r by lia. pose proof (Z.div_mod n 10 ltac:(lia)). lia.
Qed.

(** [%d] reads back what [{:d}] wrote, up to the first character that is
    not a digit. *)
Lemma scan_int_decimal (n : Z) (c : ascii) (rest : string) :
  0 <= n < 2 ^ 31 -> digit_value c = None ->
  scan_int (decimal n ++ String c rest)%string = Some (n, String c rest).
Proof.
  intros Hn Hc. unfold decimal. rewrite decimal_digits_app. simpl append.
  destruct (scan_digits_decimal 10 n (String c rest)) as (k & Hk & Hscan).
  { change (2 ^ 31) with 2147483648 in Hn.
    change (10 ^ Z.of_nat 10) with 10000000000. lia. }
  { lia. }
  destruct (decimal_digits_head 9 n (String c rest)) as (d & r & Hd & Hhead);
    [lia|].
  destruct (digit_value_char d Hd) as (Hdv & Hsp & Hminus & Hplus).
  set (s := decimal_digits 10 n (String c rest)) in *.
  assert (Hparts : skip_space s = s /\
                   (match s with
                    | String c' r' =>
                        if Ascii.eqb c' "-" then (true, r')
                        else if Ascii.eqb c' "+" then (false, r')
                        else (false, s)
                    | EmptyString => (false, s)
                    end) = (false, s) /\
                   starts_with_digit s = true).
  { rewrite Hhead. cbn [skip_space starts_with_digit].
    rewrite Hsp, Hminus, Hplus, Hdv. repeat split. }
  destruct Hparts as (Hskip & Hsign & Hstart).
  unfold scan_int. rewrite Hskip, Hsign, Hstart, Hscan.
  cbn [scan_digits]. rewrite Hc.
  rewrite Z.mul_0_l, Z.add_0_l.
  assert (Hlong : clamp_long n = n).
  { unfold clamp_long. assert (2 ^ 31 < 2 ^ 63) by reflexivity. lia. }
  rewrite Hlong, wrap_int_small by (unfold is_int; lia).
  reflexivity.
Qed.

(** A prefix without [%] matches itself. *)
Lemma sscanf_prefix (prefix pattern input : string) :
  has_percent prefix = false -> skip_space input = input ->
  sscanf (prefix ++ pattern)%string (prefix ++ input)%string =
    sscanf pattern input /\
  sscanf (prefix ++ pattern)%string (skip_space (prefix ++ input)%string) =
    sscanf pattern input.
Proof.
  intros Hp Hin. induction prefix as [|c prefix IH].
  - simpl. rewrite Hin. split; reflexivity.
  - simpl in Hp. apply orb_false_iff in Hp. destruct Hp as [Hc Hp].
    destruct (IH Hp) as [IH1 IH2]. simpl append.
    assert (Hskip : forall x, skip_space (skip_space x) = skip_space x).
    { induction x as [|a x IHx]; [reflexivity|]. simpl.
      destruct (isspace a) eqn:Ha; [exact IHx|]. simpl. now rewrite Ha. }
    cbn [sscanf skip_space]. rewrite Hc.
    destruct (isspace c) eqn:Hsp.
    + rewrite Hskip. split; exact IH2.
    + cbn iota. rewrite Ascii.eqb_refl. split; exact IH1.
Qed.

Lemma skip_space_decimal (n : Z) (rest : string) :
  0 <= n -> skip_space (decimal n ++ rest)%string = (decimal n ++ rest)%string.
Proof.
  intros Hn. unfold decimal. rewrite decimal_digits_app.
  destruct (decimal_digits_head 9 n (EmptyString ++ rest)%string) as (d & r & Hd & ->);
    [lia|].
  destruct (digit_value_char d Hd) as (_ & Hsp & _).
  cbn [skip_space]. now rewrite Hsp.
Qed.

(** The name written for a tile, read by the pattern of the scan. *)
Lemma sscanf_file_name (f : TileFile) (type : string) :
  has_percent (filePrefix f) = false ->
  fileExt f = ("." ++ type)%string ->
  0 <= fileU f < 2 ^ 31 -> 0 <= fileV f < 2 ^ 31 ->
  sscanf (scan_pattern (filePrefix f)) (file_name f) = [fileU f; fileV f].
Proof.
  intros Hp Hext Hu Hv. unfold scan_pattern, file_name. rewrite Hp, Hext.
  destruct (sscanf_prefix (filePrefix f) "%d_%d."
              (decimal (fileU f) ++ "_" ++ decimal (fileV f) ++ "." ++ type)%string
              Hp) as [-> _].
  { apply skip_space_decimal. lia. }
  cbn [sscanf]. simpl Ascii.eqb. cbn iota.
  change ("_" ++ decimal (fileV f) ++ "." ++ type)%string
    with (String "_" (decimal (fileV f) ++ "." ++ type)%string).
  rewrite scan_int_decimal by (try assumption; reflexivity).
  cbn [sscanf]. simpl Ascii.eqb. simpl isspace. cbn iota.
  change ("." ++ type)%string with (String "." type).
  rewrite scan_int_decimal by (try assumption; reflexivity).
  reflexivity.
Qed.

(** X12.  The name that [loadTileTexture] writes for a tile is read back
    by the pattern of the scan as the coordinates of that tile, for
    every prefix without [%], every extension that begins with a dot
    and all coordinates that fit an [int]; and the scan accepts that
    name at every level whose grid holds the coordinates. *)
Theorem file_name_round_trip (f : TileFile) (type : string) :
  has_percent (filePrefix f) = false ->
  fileExt f = ("." ++ type)%string ->
  0 <= fileU f < 2 ^ 31 -> 0 <= fileV f < 2 ^ 31 ->
  sscanf (scan_pattern (filePrefix f)) (file_name f) = [fileU f; fileV f] /\
  forall level,
    in_grid level (fileU f) (fileV f) ->
    accepted (scan_pattern (filePrefix f)) level (file_name f)
      = Some (fileU f, fileV f).
Proof.
  intros Hp Hext Hu Hv.
  pose proof (sscanf_file_name f type Hp Hext Hu Hv) as Hname.
  split; [exact Hname|].
  intros level Hg. unfold accepted. rewrite Hname.
  apply in_gridb_spec in Hg. now rewrite Hg.
Qed.

End Names.

(** ** The files that a constructed manager asks for *)

Lemma insert_all_tile_at_ptr (ops : list (nat * Z * Z * Z))
    (tree tree' : TileTree) (level u v : Z) (p : nat) :
  Forall valid_op ops -> insert_all ops tree = Some tree' ->
  0 <= level -> in_grid level u v ->
  tile_at tree' level u v = Some p ->
  tile_at tree level u v = Some p \/ In (p, level, u, v) ops.
Proof.
  intros Hv H Hl Hg. revert tree H.
  induction ops as [|[[[q l0] u0] v0] ops IH]; intros tree H Hp.
  - injection H as <-. now left.
  - inversion Hv as [|? ? [Hl0 Hg0] Hv']; subst. simpl in Hl0, Hg0, H.
    destruct (addTileToTree tree q l0 u0 v0) as [tree1|] eqn:Hadd;
      [|discriminate].
    destruct (IH Hv' tree1 H Hp) as [H1 | Hin]; [|right; now right].
    pose proof Hg0 as [Hu0 _].
    destruct (decide ((level, u, v) = (l0, u0, v0))) as [Heq | Hne].
    + injection Heq as -> -> ->.
      rewrite (tile_at_add_same _ _ _ _ _ _ Hl0 Hu0 Hadd) in H1.
      destruct (tile_at tree l0 u0 v0) as [t|]; [left; exact H1|].
      simpl in H1. injection H1 as ->. right. now left.
    + left. rewrite <- H1. symmetry.
      now apply (tile_at_add_other tree tree1 q l0 u0 v0 level u v).
Qed.

Lemma in_grid_ancestor (a d u v : Z) :
  0 <= d <= a -> in_grid a u v -> in_grid d (u ≫ (a - d)) (v ≫ (a - d)).
Proof.
  intros Hd [Hu Hv]. unfold in_grid.
  rewrite !Z.shiftr_div_pow2 by lia.
  pose proof (pow2_pos (a - d) ltac:(lia)) as Hpos.
  assert (Hsplit : 2 ^ (a + 1) = 2 ^ (d + 1) * 2 ^ (a - d) /\
                   2 ^ a = 2 ^ d * 2 ^ (a - d)).
  { rewrite <- !Z.pow_add_r by lia. split; f_equal; lia. }
  destruct Hsplit as [Hs1 Hs2].
  split; (split; [apply Z.div_pos; lia|]);
    apply Z.div_lt_upper_bound; lia.
Qed.

Section Requested.

Context `{Ext : External}.

Lemma run_config (calls : list Call) (s s' : VirtualTexture) (e e' : Env)
    (Ds : list TextureTile) :
  run calls s e = Some (s', e', Ds) ->
  config s' = config s /\ length (tiles s') = length (tiles s).
Proof.
  revert s e Ds. induction calls as [|c calls IH]; intros s e Ds H.
  - injection H as <- <- <-. now split.
  - destruct c as [| |lod u v]; simpl in H; try (apply IH in H; exact H).
    destruct (getTile s e lod u v) as [[[s1 e1] D]|] eqn:Hget; [|discriminate].
    simpl in H.
    destruct (run calls s1 e1) as [[[s2 e2] Ds2]|] eqn:Hrun; [|discriminate].
    injection H as <- <- <-.
    destruct (IH _ _ _ Hrun) as [-> ->].
    pose proof (getTile_step _ _ _ _ _ _ _ _ Hget) as (Hc & _).
    apply getTile_frame in Hget. split; [exact Hc | tauto].
Qed.

Lemma config_fields (s s' : VirtualTexture) :
  config s' = config s ->
  tilePath s' = tilePath s /\ tilePrefix s' = tilePrefix s /\
  tileExt s' = tileExt s /\ baseSplit s' = baseSplit s /\
  tileSize s' = tileSize s /\
  nResolutionLevels s' = nResolutionLevels s /\ tileTree s' = tileTree s.
Proof. unfold config. intros [= -> -> -> -> -> -> ->]. repeat split. Qed.

Lemma wf_config (s s' : VirtualTexture) :
  config s' = config s -> length (tiles s') = length (tiles s) ->
  wf s -> wf s'.
Proof.
  intros Hc Hl. apply config_fields in Hc.
  destruct Hc as (_ & _ & _ & HB & _ & HL & Ht).
  unfold wf. now rewrite HB, HL, Ht, Hl.
Qed.

Lemma constructed_fields (fs : FileSystem) (root : string) (B T : Z)
    (prefix type : string) (s : VirtualTexture) :
  newVirtualTexture fs root B T prefix type = Some s ->
  tilePath s = root /\ tilePrefix s = prefix /\
  tileExt s = ("." ++ type)%string /\ baseSplit s = B /\ tileSize s = T.
Proof.
  unfold newVirtualTexture.
  destruct (negb (T =? 0) && isPow2 (wrap_int T)); [|discriminate].
  intros H. apply populateTileTree_frame in H. tauto.
Qed.

(** The file that a request hands to the decoder. *)
Lemma getTile_decoded_file (s s' : VirtualTexture) (e e' : Env) (lod u v : Z)
    (D : TextureTile) (f : TileFile) :
  getTile s e lod u v = Some (s', e', D) ->
  decoded e' = f :: decoded e ->
  let a := wrap_int (lod + baseSplit s) in
  out_of_range s a u v = false /\
  exists p d,
    bestMatch (tileTree s) a u v = Some (Some p, d) /\
    f = tile_file s d (wrap_uint (u ≫ wrap_uint (a - d)))
                      (wrap_uint (v ≫ wrap_uint (a - d))).
Proof.
  intros H Hdec a.
  assert (Hnew : e' <> e).
  { intros ->. apply (f_equal length) in Hdec. simpl in Hdec. lia. }
  apply getTile_cases in H. cbn zeta in H. fold a in H.
  set (s1 := with_tilesRequested s (wrap_uint (tilesRequested s + 1))) in *.
  destruct H as [(_ & _ & He & _) | (Hin & tile & d & Hbest & H)];
    [contradiction|].
  destruct H as [(_ & _ & He & _) | (p & t1 & -> & Hres & _)];
    [contradiction|].
  split; [exact Hin|]. exists p, d. split; [exact Hbest|].
  unfold makeResident in Hres.
  destruct (tiles s1 !! p) as [t|]; [|discriminate]. simpl in Hres.
  destruct (tex t); [injection Hres as _ <-; contradiction|].
  destruct (loadFailed t); [injection Hres as _ <-; contradiction|].
  cbn [negb] in Hres.
  destruct (loadTileTexture s1 e d _ _) as [[[s2 e2] r]|] eqn:Hload;
    [|discriminate].
  simpl in Hres. injection Hres as _ <-.
  apply loadTileTexture_outcome in Hload. cbn zeta in Hload.
  destruct Hload as (Hdec' & _). change (tile_file s1) with (tile_file s) in Hdec'.
  congruence.
Qed.

(** In a constructed manager the walk can only find a tile that the scan
    made, at the address of the file it was made for. *)
Lemma constructed_match (fs : FileSystem) (root : string) (B T : Z)
    (prefix type : string) (s0 : VirtualTexture) (a u v d : Z) (p : nat) :
  levels_fit fs root B ->
  newVirtualTexture fs root B T prefix type = Some s0 ->
  0 <= a <= 29 -> in_grid a u v ->
  bestMatch (tileTree s0) a u v = Some (Some p, d) ->
  0 <= d <= a /\ in_grid d (u ≫ (a - d)) (v ≫ (a - d)) /\
  exists i,
    catalog fs root prefix B !! p = Some (i, u ≫ (a - d), v ≫ (a - d)) /\
    0 <= i < MaxResolutionLevels /\ d = i + B /\
    has_percent prefix = false.
Proof.
  intros Hfit Hnew Hr Hg Hbest.
  destruct (newVirtualTexture_tree _ _ _ _ _ _ _ Hfit Hnew) as [Htree _].
  pose proof Hg as [Hu Hv].
  destruct (bestMatch_inv _ _ _ _ _ _ Hr Hu Hbest) as [Hd Hat].
  pose proof (in_grid_ancestor a d u v Hd Hg) as Hg'.
  split; [exact Hd|]. split; [exact Hg'|].
  set (u' := u ≫ (a - d)) in *. set (v' := v ≫ (a - d)) in *.
  assert (Hvalid : Forall valid_op (catalog_ops B 0 (catalog fs root prefix B)))
    by (apply catalog_ops_valid, catalog_valid, Hfit).
  destruct (insert_all_tile_at_ptr _ _ _ d u' v' p Hvalid Htree
              ltac:(lia) Hg' Hat) as [Hempty | Hin'].
  { unfold tile_at in Hempty.
    destruct (root_at (emptyNode, emptyNode) (u' ≫ d)) as [n|] eqn:Hn;
      [|discriminate].
    assert (n = emptyNode).
    { unfold root_at in Hn. destruct (u' ≫ d) as [|[| |]|]; simpl in Hn;
        congruence. }
    subst n. rewrite tile_on_emptyNode in Hempty. discriminate. }
  apply elem_of_catalog_ops in Hin'.
  destruct Hin' as (i & _ & Hcat & Hdi).
  rewrite Nat.sub_0_r in Hcat.
  assert (Hincat : In (i, u', v') (catalog fs root prefix B)).
  { apply list_elem_of_In. eapply list_elem_of_lookup_2. exact Hcat. }
  apply elem_of_catalog in Hincat. simpl in Hincat.
  destruct Hincat as (Hi & _ & d0 & _ & Hacc).
  apply accepted_spec in Hacc. destruct Hacc as (Hpct & _ & _).
  exists i. now repeat split.
Qed.

(** X13.  In a manager built by the constructor, whatever calls were
    made since, every file handed to the decoder lies under the root
    given to the constructor, with its prefix and its extension, and is
    named after a file that the scan catalogued: the coordinates in its
    name are those of a file found in some [level<i>], its level number
    is [(i + B) >> B], and its name, were it met in [level<i>], would be
    accepted by the scan at those same coordinates. *)
Theorem requested_files_are_catalogued (fs : FileSystem) (root : string)
    (B T : Z) (prefix type : string) (calls : list Call)
    (s0 s s' : VirtualTexture) (e0 e e' : Env) (Ds : list TextureTile)
    (lod u v : Z) (D : TextureTile) (f : TileFile) :
  levels_fit fs root B ->
  newVirtualTexture fs root B T prefix type = Some s0 ->
  run calls s0 e0 = Some (s, e, Ds) ->
  getTile s e lod u v = Some (s', e', D) ->
  decoded e' = f :: decoded e ->
  fileRoot f = root /\ filePrefix f = prefix /\
  fileExt f = ("." ++ type)%string /\
  exists p i,
    catalog fs root prefix B !! p = Some (i, fileU f, fileV f) /\
    0 <= i < MaxResolutionLevels /\
    fileLevel f = (i + B) ≫ B /\
    accepted (scan_pattern prefix) (i + B) (file_name f)
      = Some (fileU f, fileV f).
Proof.
  intros Hfit Hnew Hrun Hget Hdec.
  destruct (constructed_fields _ _ _ _ _ _ _ Hnew)
    as (Hroot & Hprefix & Hext & HB & _).
  destruct (run_config _ _ _ _ _ _ Hrun) as [Hc _].
  apply config_fields in Hc.
  destruct Hc as (Hc1 & Hc2 & Hc3 & Hc4 & _ & _ & Hc7).
  destruct (getTile_decoded_file _ _ _ _ _ _ _ _ _ Hget Hdec)
    as (Hin & p & d & Hbest & Hf).
  rewrite Hc4, HB in Hin, Hbest, Hf. rewrite Hc7 in Hbest.
  set (a := wrap_int (lod + B)) in *.
  pose proof (out_of_range_false _ _ _ _ Hin) as (Hr & _ & Hg).
  destruct (constructed_match _ _ _ _ _ _ _ _ _ _ _ _ Hfit Hnew Hr Hg Hbest)
    as (Hd & Hg' & i & Hcat & Hi & Hdi & Hpct).
  pose proof Hg as [Hu Hv]. pose proof Hg' as [Hu' Hv'].
  assert (Hpow : 2 ^ (d + 1) <= 2 ^ 30 /\ 2 ^ d <= 2 ^ 29)
    by (split; apply pow2_le; lia).
  rewrite (wrap_uint_small (a - d)) in Hf by word_lia.
  set (u' := u ≫ (a - d)) in *. set (v' := v ≫ (a - d)) in *.
  rewrite (wrap_uint_small u'), (wrap_uint_small v') in Hf by word_lia.
  subst f. unfold tile_file. cbn [fileRoot filePrefix fileExt fileU fileV
                                   fileLevel].
  rewrite Hc1, Hc2, Hc3, Hroot, Hprefix, Hext, Hc4, HB.
  repeat split.
  exists p, i. split; [exact Hcat|]. split; [exact Hi|].
  split; [now rewrite Hdi|].
  unfold accepted. rewrite <- Hdi.
  set (f := {| fileRoot := root; fileLevel := d ≫ B; filePrefix := prefix;
               fileU := u'; fileV := v'; fileExt := "." ++ type |}).
  assert (Hname : sscanf (scan_pattern prefix) (file_name f) = [u'; v']).
  { apply (sscanf_file_name f type); try reflexivity; try assumption;
      cbn; word_lia. }
  rewrite Hname.
  destruct (in_gridb d u' v') eqn:Hgb; [reflexivity|].
  apply in_gridb_spec in Hg'. congruence.
Qed.

End Requested.

(** ** Coverage *)

Lemma bestMatch_none (tree : TileTree) (lod u v : Z) :
  0 <= lod <= 29 -> 0 <= u < 2 ^ (lod + 1) ->
  (forall d, 0 <= d <= lod -> ancestor_tile tree lod u v d = None) ->
  bestMatch tree lod u v = Some (None, 0).
Proof.
  intros Hlod Hu Hnone. unfold ancestor_tile in Hnone.
  destruct (root_at_defined tree (u ≫ lod)) as [node Hroot].
  { apply root_index_range; lia. }
  rewrite (bestMatch_best_on tree lod u v node) by (assumption || lia).
  f_equal.
  pose proof (Hnone 0 ltac:(lia)) as H0.
  rewrite (tile_at_ancestor tree lod u v 0 node) in H0 by (assumption || lia).
  cbn [Z.to_nat take] in H0. rewrite tile_on_nil in H0. rewrite H0.
  apply best_on_none. intros j Hj. rewrite length_path_of in Hj.
  rewrite <- (Nat2Z.id j).
  rewrite <- (tile_at_ancestor tree lod u v (Z.of_nat j) node)
    by (assumption || lia).
  apply Hnone. lia.
Qed.

(** Below any depth of the path there is a deepest tile, or none. *)
Lemma deepest_from (tree : TileTree) (lod u v : Z) (n : nat) :
  (forall d, lod - Z.of_nat n < d <= lod ->
             ancestor_tile tree lod u v d = None) \/
  exists d p, lod - Z.of_nat n < d <= lod /\
    ancestor_tile tree lod u v d = Some p /\
    forall d', d < d' <= lod -> ancestor_tile tree lod u v d' = None.
Proof.
  induction n as [|n [IH | IH]].
  - left. intros d Hd. lia.
  - destruct (ancestor_tile tree lod u v (lod - Z.of_nat n)) as [p|] eqn:Hp.
    + right. exists (lod - Z.of_nat n), p. split; [lia|].
      split; [exact Hp|]. intros d' Hd'. apply IH. lia.
    + left. intros d Hd.
      destruct (Z.eq_dec d (lod - Z.of_nat n)) as [->|]; [exact Hp|].
      apply IH. lia.
  - right. destruct IH as (d & p & Hd & Hp & Hdeeper).
    exists d, p. split; [lia|]. now split.
Qed.

(** What the walk returns, in full. *)
Lemma bestMatch_result (tree : TileTree) (lod u v : Z) :
  0 <= lod <= 29 -> 0 <= u < 2 ^ (lod + 1) ->
  (bestMatch tree lod u v = Some (None, 0) /\
   forall d, 0 <= d <= lod -> ancestor_tile tree lod u v d = None) \/
  exists p d,
    bestMatch tree lod u v = Some (Some p, d) /\ 0 <= d <= lod /\
    ancestor_tile tree lod u v d = Some p /\
    forall d', d < d' <= lod -> ancestor_tile tree lod u v d' = None.
Proof.
  intros Hlod Hu.
  destruct (deepest_from tree lod u v (Z.to_nat (lod + 1)))
    as [Hnone | (d & p & Hd & Hp & Hdeeper)].
  - left. assert (Hall : forall d, 0 <= d <= lod ->
                           ancestor_tile tree lod u v d = None)
      by (intros d Hd; apply Hnone; lia).
    split; [|exact Hall]. now apply bestMatch_none.
  - right. exists p, d. assert (Hd' : 0 <= d <= lod) by lia.
    split; [|now repeat split].
    now apply bestMatch_deepest.
Qed.

Lemma ancestor_tile_finer (tree : TileTree) (a k u v d : Z) :
  0 <= k -> 0 <= d <= a ->
  ancestor_tile tree (a + k) u v d = ancestor_tile tree a (u ≫ k) (v ≫ k) d.
Proof.
  intros Hk Hd. unfold ancestor_tile.
  rewrite !Z.shiftr_shiftr by lia. do 2 f_equal; lia.
Qed.

(** X14.  Refining a request never loses its coverage: when the walk for
    an address finds a tile, the walk for any address below it, [k]
    levels further down, finds a tile as well: the same tile at the same
    depth, or a tile that lies deeper than the coarser address. *)
Theorem finer_request_keeps_coverage (tree : TileTree) (a k u v d : Z)
    (p : nat) :
  0 <= a -> 0 <= k -> a + k <= 29 -> 0 <= u < 2 ^ (a + k + 1) ->
  bestMatch tree a (u ≫ k) (v ≫ k) = Some (Some p, d) ->
  exists p' d',
    bestMatch tree (a + k) u v = Some (Some p', d') /\
    ((p' = p /\ d' = d) \/ a < d').
Proof.
  intros Ha Hk Hak Hu Hbest.
  assert (Hu' : 0 <= u ≫ k < 2 ^ (a + 1)).
  { rewrite Z.shiftr_div_pow2 by lia.
    pose proof (pow2_pos k Hk).
    assert (2 ^ (a + k + 1) = 2 ^ (a + 1) * 2 ^ k)
      by (rewrite <- Z.pow_add_r by lia; f_equal; lia).
    split; [apply Z.div_pos; lia|]. apply Z.div_lt_upper_bound; lia. }
  destruct (bestMatch_result tree a (u ≫ k) (v ≫ k) ltac:(lia) Hu')
    as [[Hn _] | (p0 & d0 & Hb0 & Hd0 & Hp0 & Hdeeper0)]; [congruence|].
  assert (p0 = p /\ d0 = d) as [-> ->] by (split; congruence).
  destruct (bestMatch_result tree (a + k) u v ltac:(lia) Hu)
    as [[_ Hnone] | (p' & d' & Hb' & Hd' & Hp' & Hdeeper')].
  { rewrite <- ancestor_tile_finer in Hp0 by lia.
    rewrite Hnone in Hp0 by lia. discriminate. }
  exists p', d'. split; [exact Hb'|].
  destruct (Z.le_gt_cases d' a) as [Hle | Hgt]; [left | right; lia].
  rewrite ancestor_tile_finer in Hp' by lia.
  assert (Hdd : d' = d).
  { destruct (Z.lt_trichotomy d' d) as [Hlt | [Heq | Hlt]]; [|exact Heq|].
    - specialize (Hdeeper' d ltac:(lia)).
      rewrite ancestor_tile_finer in Hdeeper' by lia. congruence.
    - specialize (Hdeeper0 d' ltac:(lia)). congruence. }
  subst d'. split; [congruence | reflexivity].
Qed.

(** X15.  The walk comes back empty-handed exactly when no node on the
    way from the root to the address carries a tile. *)
Theorem walk_finds_nothing_iff (tree : TileTree) (lod u v : Z) :
  0 <= lod <= 29 -> 0 <= u < 2 ^ (lod + 1) ->
  (exists d, bestMatch tree lod u v = Some (None, d)) <->
  forall d, 0 <= d <= lod -> ancestor_tile tree lod u v d = None.
Proof.
  intros Hlod Hu. split.
  - intros [d Hb].
    destruct (bestMatch_result tree lod u v Hlod Hu)
      as [[_ Hnone] | (p & d' & Hb' & _)]; [exact Hnone | congruence].
  - intros Hnone. exists 0. now apply bestMatch_none.
Qed.

(** ** Constructed managers in use *)

Section InUse.

Context `{Ext : External}.

Lemma run_wf (fs : FileSystem) (root : string) (B T : Z)
    (prefix type : string) (calls : list Call) (s0 s : VirtualTexture)
    (e0 e : Env) (Ds : list TextureTile) :
  levels_fit fs root B ->
  newVirtualTexture fs root B T prefix type = Some s0 ->
  run calls s0 e0 = Some (s, e, Ds) ->
  wf s /\ baseSplit s = B /\ tileTree s = tileTree s0.
Proof.
  intros Hfit Hnew Hrun.
  destruct (run_config _ _ _ _ _ _ Hrun) as [Hc Hl].
  split.
  - apply (wf_config s0 s Hc Hl).
    now apply (newVirtualTexture_wf fs root B T prefix type).
  - apply config_fields in Hc.
    destruct (constructed_fields _ _ _ _ _ _ _ Hnew) as (_ & _ & _ & HB & _).
    destruct Hc as (_ & _ & _ & -> & _ & _ & ->). now split.
Qed.

(** X16.  In a constructed manager no tile lies above the base split:
    every tile that a walk finds sits at a depth from [B] to [B + 12],
    and a request for a negative LOD gets the empty descriptor without
    any decode, even where its absolute level is not negative. *)
Theorem no_tile_above_base_split (fs : FileSystem) (root : string) (B T : Z)
    (prefix type : string) (calls : list Call) (s0 s : VirtualTexture)
    (e0 e : Env) (Ds : list TextureTile) :
  levels_fit fs root B ->
  newVirtualTexture fs root B T prefix type = Some s0 ->
  run calls s0 e0 = Some (s, e, Ds) ->
  (forall a u v p d,
     0 <= a <= 29 -> in_grid a u v ->
     bestMatch (tileTree s) a u v = Some (Some p, d) ->
     B <= d < B + MaxResolutionLevels) /\
  (forall lod u v,
     is_int lod -> lod < 0 ->
     getTile s e lod u v =
     Some (with_tilesRequested s (wrap_uint (tilesRequested s + 1)), e,
           noTexture)).
Proof.
  intros Hfit Hnew Hrun.
  destruct (run_wf _ _ _ _ _ _ _ _ _ _ _ _ Hfit Hnew Hrun) as (Hwf & HB & Ht).
  assert (Hdepth : forall a u v p d,
            0 <= a <= 29 -> in_grid a u v ->
            bestMatch (tileTree s) a u v = Some (Some p, d) ->
            B <= d < B + MaxResolutionLevels).
  { intros a u v p d Ha Hg Hbest. rewrite Ht in Hbest.
    destruct (constructed_match _ _ _ _ _ _ _ _ _ _ _ _ Hfit Hnew Ha Hg Hbest)
      as (_ & _ & i & _ & Hi & -> & _). lia. }
  split; [exact Hdepth|].
  intros lod u v Hlod Hneg.
  destruct (getTile_defined s e lod u v Hwf) as (s' & e' & D & Hget).
  rewrite Hget. apply getTile_cases in Hget. cbn zeta in Hget.
  destruct Hget as [(_ & -> & -> & ->) | (Hin & tile & d & Hbest & H)];
    [reflexivity|].
  destruct H as [(_ & -> & -> & ->) | (p & t & -> & _)]; [reflexivity|].
  exfalso.
  pose proof (out_of_range_false _ _ _ _ Hin) as (Hr & _ & Hg).
  destruct Hfit as [HB29 _].
  pose proof (absolute_level (baseSplit s) lod ltac:(word_lia) Hlod Hr) as Ha.
  rewrite Ha in *.
  pose proof (Hdepth _ _ _ _ _ Hr Hg Hbest) as Hd.
  destruct (bestMatch_inv _ _ _ _ _ _ Hr (proj1 Hg) Hbest) as [Hda _].
  lia.
Qed.

Lemma run_settled (calls : list Call) (s s' : VirtualTexture) (e e' : Env)
    (Ds : list TextureTile) (p : nat) (t : Tile) :
  run calls s e = Some (s', e', Ds) ->
  tiles s !! p = Some t -> settled t -> tiles s' !! p = Some t.
Proof.
  revert s e Ds. induction calls as [|c calls IH]; intros s e Ds H Hp Hset.
  - now injection H as <- <- <-.
  - destruct c as [| |lod u v]; simpl in H;
      try (apply (IH _ _ _ H); assumption).
    destruct (getTile s e lod u v) as [[[s1 e1] D]|] eqn:Hget; [|discriminate].
    simpl in H.
    destruct (run calls s1 e1) as [[[s2 e2] Ds2]|] eqn:Hrun; [|discriminate].
    injection H as <- <- <-.
    apply (IH _ _ _ Hrun); [|exact Hset].
    destruct (getTile_tiles _ _ _ _ _ _ _ _ p t Hget Hp) as (t' & Ht' & [->|[Hn _]]);
      [exact Ht' | contradiction].
Qed.

(** X17.  A texture is shared by all the requests that the walk leads
    to its tile: once a request has returned the texture of a tile,
    every later request matched to that tile, whatever its address, is
    answered with the same texture name, without a decode and without
    any change but that of the request counter. *)
Theorem resident_tile_is_shared (calls : list Call)
    (s s1 s2 : VirtualTexture) (e e1 e2 : Env) (Ds : list TextureTile)
    (lod u v lod' u' v' d d' : Z) (p : nat) (D1 : TextureTile) :
  getTile s e lod u v = Some (s1, e1, D1) -> D1 <> noTexture ->
  bestMatch (tileTree s) (wrap_int (lod + baseSplit s)) u v
    = Some (Some p, d) ->
  run calls s1 e1 = Some (s2, e2, Ds) ->
  out_of_range s2 (wrap_int (lod' + baseSplit s2)) u' v' = false ->
  bestMatch (tileTree s2) (wrap_int (lod' + baseSplit s2)) u' v'
    = Some (Some p, d') ->
  exists D2,
    getTile s2 e2 lod' u' v' =
    Some (with_tilesRequested s2 (wrap_uint (tilesRequested s2 + 1)), e2, D2) /\
    D2 <> noTexture /\ texID D2 = texID D1.
Proof.
  intros Hget HD1 Hbest Hrun Hin' Hbest'.
  apply getTile_cases in Hget. cbn zeta in Hget.
  destruct Hget as [(_ & _ & _ & ->) | (_ & tile & d0 & Hb0 & H)];
    [contradiction|].
  destruct H as [(_ & _ & _ & ->) | (p0 & t & -> & _ & Hp & HD)];
    [contradiction|].
  assert (p0 = p) by congruence. subst p0.
  destruct (tex t) as [tx|] eqn:Htex; [|contradiction].
  assert (Hset : settled t) by (left; rewrite Htex; discriminate).
  pose proof (run_settled _ _ _ _ _ _ _ _ Hrun Hp Hset) as Hp2.
  unfold getTile.
  cbn [baseSplit tileTree with_tilesRequested].
  change (out_of_range (with_tilesRequested s2 _) ?a u' v')
    with (out_of_range s2 a u' v').
  rewrite Hin', Hbest'. simpl.
  rewrite (makeResident_settled _ e2 p _ _ _ t).
  - simpl. cbn [tiles with_tilesRequested]. rewrite Hp2. simpl. rewrite Htex.
    eexists. split; [reflexivity|]. subst D1.
    split; [discriminate | reflexivity].
  - exact Hp2.
  - apply unsettled_settled. exact Hset.
Qed.

End InUse.

(** ** The sub-rectangles of the four children *)

Lemma mod_pow2_child (u a k : Z) :
  0 <= k -> 0 <= a <= 1 ->
  (2 * u + a) mod 2 ^ (k + 1) = 2 * (u mod 2 ^ k) + a.
Proof.
  intros Hk Ha. rewrite pow2_succ by lia.
  pose proof (pow2_pos k Hk) as Hpos.
  pose proof (Z.mod_pos_bound u (2 ^ k) Hpos) as Hr.
  symmetry. apply (Zmod_unique _ _ (u / 2 ^ k)); [lia|].
  pose proof (Z.div_mod u (2 ^ k) ltac:(lia)). lia.
Qed.

(** X18.  The four children of an address share out its sub-rectangle:
    one level further down, under the same matched tile, the address
    [(2u + a, 2v + b)] gets a square of half the side, placed at the
    corner of the parent's square for [a = b = 0] and shifted by its own
    side to the right for [a = 1] and upwards for [b = 1]. *)
Theorem children_quarter_the_rectangle (name lod tileLOD u v a b : Z) :
  0 <= tileLOD <= lod -> lod <= 28 -> 0 <= a <= 1 -> 0 <= b <= 1 ->
  exists U V S U' V' S',
    subTile name lod tileLOD u v = TextureTile5 name U V S S /\
    subTile name (lod + 1) tileLOD (2 * u + a) (2 * v + b)
      = TextureTile5 name U' V' S' S' /\
    (S' == S / 2 /\ U' == U + inject_Z a * S' /\
     V' == V + inject_Z b * S')%Q.
Proof.
  intros Hd Hlod Ha Hb.
  rewrite (subTile_spec name lod tileLOD u v) by lia.
  rewrite (subTile_spec name (lod + 1) tileLOD) by lia.
  replace (lod + 1 - tileLOD) with (lod - tileLOD + 1) by lia.
  set (k := lod - tileLOD). assert (Hk : 0 <= k) by (unfold k; lia).
  do 6 eexists. split; [reflexivity|]. split; [reflexivity|].
  rewrite !mod_pow2_child by lia.
  rewrite pow2_succ by lia.
  rewrite !inject_Z_plus, !inject_Z_mult.
  pose proof (pow2_pos k Hk) as Hpos.
  assert (Hx : ~ (inject_Z (2 ^ k) == 0)%Q).
  { change 0%Q with (inject_Z 0). rewrite inject_Z_injective. lia. }
  set (x := inject_Z (2 ^ k)) in *.
  change (inject_Z 2) with 2%Q.
  repeat split; field; exact Hx.
Qed.

(** ** The offset of a level in a packed quadtree *)

Section Packed.

Context `{Ext : External}.

(** X19.  [lodOffset], the function kept for a packed quadtree, gives
    for each level up to 15 the number of tiles in the levels below it
    when the base split is 0: it starts at 0, grows from one level to
    the next by the number of tiles of the level left behind, and is
    [2 (4^lod - 1) / 3]. *)
Theorem lodOffset_counts_tiles (s : VirtualTexture) (lod : Z) :
  baseSplit s = 0 -> 0 <= lod <= 14 ->
  lodOffset 0 = 0 /\
  lodOffset (lod + 1) =
    lodOffset lod + getUTileCount s lod * getVTileCount s lod /\
  3 * lodOffset (lod + 1) = 2 * (4 ^ (lod + 1) - 1).
Proof.
  intros HB Hlod. unfold getUTileCount, getVTileCount. rewrite HB.
  assert (Hcases : lod = 0 \/ lod = 1 \/ lod = 2 \/ lod = 3 \/ lod = 4 \/
                   lod = 5 \/ lod = 6 \/ lod = 7 \/ lod = 8 \/ lod = 9 \/
                   lod = 10 \/ lod = 11 \/ lod = 12 \/ lod = 13 \/ lod = 14)
    by lia.
  repeat destruct Hcases as [-> | Hcases]; try subst lod;
    (split; [reflexivity|]; split; vm_compute; reflexivity).
Qed.

End Packed.

(** ** The manager that the factory returns *)

Lemma for_each_invariant {A S : Type} (P : S -> Prop)
    (body : S -> A -> option S) (l : list A) (s s' : S) :
  (forall s x s', P s -> body s x = Some s' -> P s') ->
  P s -> for_each body l s = Some s' -> P s'.
Proof.
  intros Hstep. revert s. induction l as [|x l IH]; intros s Hs H.
  - now injection H as <-.
  - simpl in H. destruct (body s x) as [s1|] eqn:Hb; [|discriminate].
    apply (IH s1); [|exact H]. now apply (Hstep s x).
Qed.

Lemma Qfloor_integral (x : Q) :
  not_integral x = false -> (inject_Z (Qfloor x) == x)%Q.
Proof.
  unfold not_integral. intros H. apply negb_false_iff in H.
  apply Qeq_bool_iff in H. symmetry. exact H.
Qed.

Section Fresh.

Context `{Ext : External}.

Lemma pending_all_unsettled (l : list Tile) :
  all_unsettled l -> pending l = length l.
Proof.
  unfold pending. induction 1 as [|t l Ht _ IH]; [reflexivity|].
  simpl. rewrite Ht. simpl. now rewrite IH.
Qed.

Lemma scan_entry_unsettled (pattern : string) (m ul vl : Z)
    (st st' : TileTree * list Tile) (d : string) :
  all_unsettled (snd st) -> scan_entry pattern m ul vl st d = Some st' ->
  all_unsettled (snd st').
Proof.
  unfold scan_entry. intros Hst H.
  destruct (sscanf pattern d) as [|u [|v [|? ?]]];
    try (injection H as <-; exact Hst).
  destruct ((0 <=? u) && (0 <=? v) && (u <? ul) && (v <? vl));
    [|injection H as <-; exact Hst].
  destruct (addTileToTree _ _ _ _ _); [|discriminate].
  injection H as <-. simpl. apply Forall_app. split; [exact Hst|].
  now repeat constructor.
Qed.

Lemma populateTileTree_fresh (fs : FileSystem) (s s' : VirtualTexture) :
  populateTileTree fs s = Some s' ->
  ticks s' = ticks s /\ tilesRequested s' = tilesRequested s /\
  compressed s' = compressed s /\
  (all_unsettled (tiles s) -> all_unsettled (tiles s')).
Proof.
  unfold populateTileTree.
  destruct (for_each _ _ _) as [[m [tree heap]]|] eqn:Hscan; [|discriminate].
  intros [= <-]. cbn. repeat split. intros Hs.
  apply (for_each_invariant (fun st => all_unsettled (snd (snd st))))
    in Hscan; [exact Hscan | | exact Hs].
  intros [m0 st0] i [m1 st1] Hst0 Hlevel. unfold scan_level in Hlevel.
  destruct (is_directory fs (tilePath s) i); [|now injection Hlevel as <- <-].
  destruct (for_each _ _ (snd (m0, st0))) as [st2|] eqn:Hdir; [|discriminate].
  injection Hlevel as _ <-. simpl in *.
  apply (for_each_invariant (fun st => all_unsettled (snd st))) in Hdir;
    [exact Hdir | | exact Hst0].
  intros st x st' Hst Hentry. now apply scan_entry_unsettled in Hentry.
Qed.

(** X20.  The manager that the factory returns reads its tiles from the
    image directory itself when that is absolute and from the image
    directory below the path of the add-on otherwise; it has the base
    split and the tile size of the parameter block; and it is fresh:
    the frame counter at zero and not one tile loaded or tried. *)
Theorem factory_builds_fresh_manager (fs : FileSystem) (texParams : Hash)
    (path dir : string) (b t : Q) (vt : VirtualTexture) :
  ImageDirectory texParams = Some dir ->
  BaseSplit texParams = Some b -> TileSize texParams = Some t ->
  (b < inject_Z (2 ^ 32))%Q -> (t < inject_Z (2 ^ 31))%Q ->
  CreateVirtualTexture fs texParams path = Some (Some vt) ->
  tilePath vt = (if is_relative dir then path_append path dir else dir) /\
  (inject_Z (baseSplit vt) == b)%Q /\ (inject_Z (tileSize vt) == t)%Q /\
  ticks vt = 0 /\ pending (tiles vt) = length (tiles vt).
Proof.
  intros Hdir Hb Ht Hbmax Htmax31.
  assert (Htmax : (t < inject_Z (2 ^ 32))%Q).
  { apply Qlt_trans with (inject_Z (2 ^ 31)); [exact Htmax31|].
    rewrite <- Zlt_Qlt. reflexivity. }
  unfold CreateVirtualTexture.
  rewrite Hdir, Hb, Ht.
  destruct (Qltb b 0) eqn:Hb0; [discriminate|].
  destruct (not_integral b) eqn:Hbi; [discriminate|]. cbn [orb].
  destruct (not_integral t) eqn:Hti; [discriminate|].
  destruct (Qltb t 64) eqn:Ht64; [discriminate|]. cbn [orb].
  destruct (negb (isPow2 _)); [discriminate|].
  destruct (newVirtualTexture _ _ _ _ _ _) as [vt'|] eqn:Hnew; [|discriminate].
  intros [= ->].
  pose proof (Qfloor_integral b Hbi) as Hbq.
  pose proof (Qfloor_integral t Hti) as Htq.
  assert (Hrange : forall x lo, Qltb x (inject_Z lo) = false ->
            (inject_Z (Qfloor x) == x)%Q -> (x < inject_Z (2 ^ 32))%Q ->
            0 <= lo -> double_to_uint x = Qfloor x).
  { intros x lo Hlo Hq Hmax Hlo0.
    apply double_to_uint_fits; [symmetry; exact Hq|].
    rewrite <- Hq in Hmax. rewrite <- Zlt_Qlt in Hmax.
    split; [|exact Hmax].
    destruct (Z.lt_ge_cases (Qfloor x) lo) as [Hlt|]; [|lia].
    exfalso. rewrite Zlt_Qlt, Hq in Hlt.
    apply Qltb_spec in Hlt. congruence. }
  rewrite (Hrange b 0 Hb0 Hbq Hbmax ltac:(lia)) in Hnew.
  rewrite (Hrange t 64 Ht64 Htq Htmax ltac:(lia)) in Hnew.
  destruct (constructed_fields _ _ _ _ _ _ _ Hnew) as (-> & _ & _ & -> & ->).
  split; [reflexivity|]. split; [exact Hbq|]. split; [exact Htq|].
  unfold newVirtualTexture in Hnew.
  destruct (negb _ && isPow2 _); [|discriminate].
  apply populateTileTree_fresh in Hnew. cbn in Hnew.
  destruct Hnew as (-> & _ & _ & Hfresh).
  split; [reflexivity|]. apply pending_all_unsettled, Hfresh. constructor.
Qed.

End Fresh.

(** ** What the constructor reads, and the number of LODs it reports *)

Lemma for_each_ext {A S : Type} (body body' : S -> A -> option S)
    (l : list A) (s : S) :
  (forall s x, In x l -> body s x = body' s x) ->
  for_each body l s = for_each body' l s.
Proof.
  revert s. induction l as [|x l IH]; intros s H; [reflexivity|].
  simpl. rewrite <- (H s x) by now left.
  destruct (body s x); [|reflexivity]. apply IH.
  intros s' y Hy. apply H. now right.
Qed.

Section Reads.

Context `{Ext : External}.

(** X21.  The constructor looks at the thirteen directories [level0] to
    [level12] of its root and at nothing else: any two file systems
    that agree on which of these exist, and on the entries of those that
    do, give the same manager. *)
Theorem scan_reads_thirteen_levels (fs fs' : FileSystem) (root : string)
    (B T : Z) (prefix type : string) :
  (forall i, 0 <= i < MaxResolutionLevels ->
     is_directory fs root i = is_directory fs' root i /\
     (is_directory fs root i = true ->
      directory_entries fs root i = directory_entries fs' root i)) ->
  newVirtualTexture fs root B T prefix type =
  newVirtualTexture fs' root B T prefix type.
Proof.
  intros Hagree. unfold newVirtualTexture.
  destruct (negb (T =? 0) && isPow2 (wrap_int T)); [|reflexivity].
  unfold populateTileTree. cbn [tilePath tilePrefix baseSplit tileTree tiles].
  rewrite (for_each_ext (scan_level fs root (scan_pattern prefix) B)
                        (scan_level fs' root (scan_pattern prefix) B));
    [reflexivity|].
  intros st i Hi. apply list_elem_of_In, elem_of_seqZ in Hi.
  destruct (Hagree i ltac:(lia)) as [Hdir Hentries].
  unfold scan_level. rewrite <- Hdir.
  destruct (is_directory fs root i); [|reflexivity].
  now rewrite Hentries.
Qed.

(** X22.  [getLODCount] is the index of the highest level directory plus
    one, hence between 1 and 13, when some level directory exists.
    When none exists it is [1 - B]: zero or negative for a base split
    of 1 or more. *)
Theorem lod_count_from_directories (fs : FileSystem) (root : string)
    (B T : Z) (prefix type : string) (s : VirtualTexture) :
  0 <= B < 2 ^ 31 ->
  newVirtualTexture fs root B T prefix type = Some s ->
  match highest_level fs root with
  | Some i => getLODCount s = i + 1 /\ 1 <= getLODCount s <= 13
  | None => getLODCount s = 1 - B
  end.
Proof.
  intros HB Hnew.
  assert (HL : nResolutionLevels s
               = wrap_uint (level_of B (highest_level fs root) + 1) /\
               baseSplit s = B).
  { unfold newVirtualTexture in Hnew.
    destruct (negb (T =? 0) && isPow2 (wrap_int T)); [|discriminate].
    apply populateTileTree_frame in Hnew. cbn in Hnew. tauto. }
  destruct HL as [HL HBs].
  destruct (level_of_highest fs root B HB) as [Hlevel Hrange].
  unfold MaxResolutionLevels in Hrange.
  rewrite Hlevel in HL. rewrite wrap_uint_small in HL by word_lia.
  unfold getLODCount. rewrite HL, HBs.
  unfold highest_absolute_level in *.
  destruct (highest_level fs root) as [i|] eqn:Hi.
  - apply highest_level_range in Hi. unfold MaxResolutionLevels in Hi.
    rewrite wrap_int_small by word_lia. lia.
  - rewrite wrap_int_small by word_lia. lia.
Qed.

End Reads.

(** ** The scan up to level 30, and the names it takes *)

Lemma for_each_fixed {A S : Type} (body : S -> A -> option S) (l : list A)
    (s : S) :
  (forall x, In x l -> body s x = Some s) -> for_each body l s = Some s.
Proof.
  induction l as [|x l IH]; intros H; [reflexivity|].
  simpl. rewrite (H x) by now left. apply IH. intros y Hy. apply H. now right.
Qed.

Lemma bind_nil {A B : Type} (f : A -> list B) (l : list A) :
  (forall x, In x l -> f x = []) -> l ≫= f = [].
Proof.
  induction l as [|x l IH]; intros H; [reflexivity|].
  cbn. rewrite (H x) by now left. cbn. apply IH.
  intros y Hy. apply H. now right.
Qed.

Lemma tile_at_empty (level u v : Z) :
  tile_at (emptyNode, emptyNode) level u v = None.
Proof.
  unfold tile_at, root_at.
  destruct (u ≫ level) as [|[| |]|]; cbn; try reflexivity;
    apply tile_on_emptyNode.
Qed.

(** A digit is neither a blank nor a sign. *)
Lemma digit_plain (c : ascii) (d : Z) :
  digit_value c = Some d ->
  isspace c = false /\ Ascii.eqb c "-" = false /\ Ascii.eqb c "+" = false.
Proof.
  unfold digit_value, isspace. intros H.
  destruct ((48 <=? nat_of_ascii c)%nat && (nat_of_ascii c <=? 57)%nat)
    eqn:Hr; [|discriminate].
  apply andb_true_iff in Hr. destruct Hr as [Hlo Hhi].
  apply Nat.leb_le in Hlo. apply Nat.leb_le in Hhi.
  split; [|split].
  - destruct (Nat.eqb_spec (nat_of_ascii c) 32); [lia|].
    destruct (Nat.leb_spec 9 (nat_of_ascii c)); [|reflexivity].
    destruct (Nat.leb_spec (nat_of_ascii c) 13); [lia | reflexivity].
  - destruct (Ascii.eqb_spec c "-") as [->|]; [|reflexivity].
    change (nat_of_ascii "-") with 45%nat in Hlo. lia.
  - destruct (Ascii.eqb_spec c "+") as [->|]; [|reflexivity].
    change (nat_of_ascii "+") with 43%nat in Hlo. lia.
Qed.

Lemma scan_digits_nonneg (s : string) (acc : Z) :
  0 <= acc -> 0 <= (scan_digits s acc).1.
Proof.
  revert acc. induction s as [|c s IH]; intros acc Hacc; [exact Hacc|].
  cbn [scan_digits]. unfold digit_value.
  destruct ((48 <=? nat_of_ascii c)%nat && (nat_of_ascii c <=? 57)%nat)
    eqn:Hr; [|exact Hacc].
  apply IH. apply andb_true_iff in Hr. destruct Hr as [Hlo _].
  apply Nat.leb_le in Hlo. lia.
Qed.

(** [%d] on a number written in plain digits that fits an [int]. *)
Lemma scan_int_plain (s r : string) (n : Z) :
  read_number s = Some (n, r) -> n < 2 ^ 31 ->
  scan_int s = Some (n, r) /\ skip_space s = s /\ 0 <= n.
Proof.
  unfold read_number. intros H Hn.
  destruct (starts_with_digit s) eqn:Hstart; [|discriminate].
  injection H as H.
  assert (H0 : 0 <= n).
  { pose proof (scan_digits_nonneg s 0 ltac:(lia)) as Hpos.
    rewrite H in Hpos. exact Hpos. }
  destruct s as [|c s']; [discriminate|].
  cbn [starts_with_digit] in Hstart.
  destruct (digit_value c) as [d|] eqn:Hd; [|discriminate].
  destruct (digit_plain c d Hd) as (Hsp & Hminus & Hplus).
  assert (Hskip : skip_space (String c s') = String c s')
    by (cbn [skip_space]; now rewrite Hsp).
  split; [|now split].
  unfold scan_int. rewrite Hskip, Hminus, Hplus.
  cbn [starts_with_digit]. rewrite Hd, H.
  assert (Hlong : clamp_long n = n).
  { unfold clamp_long. assert (2 ^ 31 < 2 ^ 63) by reflexivity. lia. }
  rewrite Hlong, wrap_int_small by (unfold is_int; lia).
  reflexivity.
Qed.

Lemma strip_prefix_app (prefix d rest : string) :
  strip_prefix prefix d = Some rest -> d = (prefix ++ rest)%string.
Proof.
  revert d. induction prefix as [|c prefix IH]; intros d H.
  - now injection H as ->.
  - destruct d as [|c' d]; [discriminate|]. cbn [strip_prefix] in H.
    destruct (Ascii.eqb_spec c c') as [->|]; [|discriminate].
    cbn. f_equal. now apply IH.
Qed.

(** A name in the words of the specification, with coordinates that fit
    an [int], is read by [sscanf] as these coordinates. *)
Lemma named_tile_sscanf (prefix d : string) (u v : Z) :
  has_percent prefix = false -> named_tile prefix d = Some (u, v) ->
  u < 2 ^ 31 -> v < 2 ^ 31 ->
  sscanf (prefix ++ "%d_%d.") d = [u; v].
Proof.
  intros Hp H Hu Hv. unfold named_tile in H.
  destruct (strip_prefix prefix d) as [rest|] eqn:Hrest; [|discriminate].
  apply strip_prefix_app in Hrest. subst d.
  destruct (read_number rest) as [[u' [|c1 r2]]|] eqn:Hru; try discriminate.
  destruct (Ascii.eqb_spec c1 "_") as [->|]; [|discriminate].
  destruct (read_number r2) as [[v' [|c2 r3]]|] eqn:Hrv; try discriminate.
  destruct (Ascii.eqb_spec c2 ".") as [->|]; [|discriminate].
  injection H as -> ->.
  destruct (scan_int_plain _ _ _ Hru Hu) as (Hsu & Hskip & _).
  destruct (scan_int_plain _ _ _ Hrv Hv) as (Hsv & _ & _).
  destruct (sscanf_prefix prefix "%d_%d." rest Hp Hskip) as [-> _].
  cbn [sscanf]. simpl Ascii.eqb. cbn iota. rewrite Hsu.
  cbn [sscanf]. simpl Ascii.eqb. simpl isspace. cbn iota. rewrite Hsv.
  reflexivity.
Qed.

Section Level30.

Context `{Ext : External}.

Lemma scan_entry_level30 (pattern : string) (st : TileTree * list Tile)
    (d : string) :
  scan_entry pattern 30 (int_shl 2 30) (int_shl 1 30) st d = Some st.
Proof.
  unfold scan_entry.
  destruct (sscanf pattern d) as [|u [|v [|? ?]]]; try reflexivity.
  change (int_shl 2 30) with (- 2147483648).
  destruct (Z.leb_spec 0 u); [|reflexivity].
  destruct (Z.ltb_spec u (- 2147483648)); [lia|].
  now rewrite andb_false_r.
Qed.

Lemma scan_level_30 (fs : FileSystem) (root pattern : string) (B m i : Z)
    (st : TileTree * list Tile) :
  is_directory fs root i = true -> i + B = 30 ->
  scan_level fs root pattern B (m, st) i = Some (30, st).
Proof.
  intros Hdir Hi. unfold scan_level. rewrite Hdir, Hi.
  change (wrap_uint 30) with 30. cbn [snd].
  rewrite for_each_fixed; [reflexivity|].
  intros d _. apply scan_entry_level30.
Qed.

(** A directory of level 30 gives the scan nothing: the scan goes as if
    it were not there, but for the number of levels. *)
Lemma scan_level_below30 (fs : FileSystem) (root pattern : string)
    (B m m' i : Z) (st : TileTree * list Tile) :
  (is_directory fs root i = true -> i + B <= 30) ->
  snd <$> scan_level fs root pattern B (m, st) i =
  snd <$> scan_level (below30 fs B) root pattern B (m', st) i.
Proof.
  intros Hi.
  destruct (is_directory fs root i) eqn:Hdir.
  - specialize (Hi eq_refl).
    destruct (Z.leb_spec (i + B) 29) as [Hle|Hgt].
    + unfold scan_level. cbn [is_directory directory_entries below30].
      rewrite Hdir. destruct (Z.leb_spec (i + B) 29); [|lia]. cbn [andb snd].
      destruct (for_each _ _ st); reflexivity.
    + rewrite (scan_level_30 fs root pattern B m i st Hdir) by lia.
      unfold scan_level. cbn [is_directory below30]. rewrite Hdir.
      destruct (Z.leb_spec (i + B) 29); [lia|]. reflexivity.
  - unfold scan_level. cbn [is_directory below30]. rewrite Hdir. reflexivity.
Qed.

Lemma scan_levels_below30 (fs : FileSystem) (root pattern : string) (B : Z)
    (l : list Z) (m m' : Z) (st : TileTree * list Tile) :
  (forall i, In i l -> is_directory fs root i = true -> i + B <= 30) ->
  snd <$> for_each (scan_level fs root pattern B) l (m, st) =
  snd <$> for_each (scan_level (below30 fs B) root pattern B) l (m', st).
Proof.
  revert m m' st. induction l as [|i l IH]; intros m m' st Hl; [reflexivity|].
  cbn [for_each].
  pose proof (scan_level_below30 fs root pattern B m m' i st
                (Hl i ltac:(now left))) as Hstep.
  destruct (scan_level fs root pattern B (m, st) i) as [[m1 st1]|],
           (scan_level (below30 fs B) root pattern B (m', st) i)
             as [[m2 st2]|]; cbn in Hstep; try discriminate;
    [|reflexivity].
  injection Hstep as ->. apply IH. intros j Hj. apply Hl. now right.
Qed.

Lemma newVirtualTexture_below30 (fs : FileSystem) (root : string) (B T : Z)
    (prefix type : string) (s : VirtualTexture) :
  levels_defined fs root B ->
  newVirtualTexture fs root B T prefix type = Some s ->
  exists s',
    newVirtualTexture (below30 fs B) root B T prefix type = Some s' /\
    tileTree s' = tileTree s /\ tiles s' = tiles s.
Proof.
  intros [_ Hdef]. unfold newVirtualTexture.
  destruct (negb (T =? 0) && isPow2 (wrap_int T)); [|discriminate].
  unfold populateTileTree. cbn [tilePath tilePrefix baseSplit tileTree tiles].
  pose proof (scan_levels_below30 fs root (scan_pattern prefix) B
                (seqZ 0 MaxResolutionLevels) 0 0
                ((emptyNode, emptyNode), [])) as Hscan.
  destruct (for_each (scan_level fs root _ B) _ _) as [[m [tree heap]]|];
    [|discriminate].
  destruct (for_each (scan_level (below30 fs B) root _ B) _ _)
    as [[m' [tree' heap']]|]; cbn in Hscan.
  - intros [= <-]. eexists. split; [reflexivity|].
    assert (Heq : (tree, heap) = (tree', heap')).
    { assert (H : Some (tree, heap) = Some (tree', heap')); [|congruence].
      apply Hscan. intros i Hi. apply list_elem_of_In, elem_of_seqZ in Hi.
      apply Hdef. lia. }
    injection Heq as -> ->. cbn. now split.
  - intros _. exfalso.
    assert (H : Some (tree, heap) = None); [|discriminate].
    apply Hscan. intros i Hi. apply list_elem_of_In, elem_of_seqZ in Hi.
    apply Hdef. lia.
Qed.

Lemma levels_fit_below30 (fs : FileSystem) (root : string) (B : Z) :
  0 <= B <= 29 -> levels_fit (below30 fs B) root B.
Proof.
  intros HB. split; [exact HB|]. intros i _ Hdir.
  cbn [is_directory below30] in Hdir. apply andb_true_iff in Hdir.
  destruct Hdir as [_ Hle]. now apply Z.leb_le in Hle.
Qed.

(** With base split 30 every level directory is of level 30 or more. *)
Lemma newVirtualTexture_base30 (fs : FileSystem) (root : string) (T : Z)
    (prefix type : string) (s : VirtualTexture) :
  newVirtualTexture (below30 fs 30) root 30 T prefix type = Some s ->
  tileTree s = (emptyNode, emptyNode) /\ tiles s = [] /\
  catalog (below30 fs 30) root prefix 30 = [].
Proof.
  assert (Hnone : forall i, In i (seqZ 0 MaxResolutionLevels) ->
            is_directory (below30 fs 30) root i = false).
  { intros i Hi. apply list_elem_of_In, elem_of_seqZ in Hi.
    cbn [is_directory below30].
    destruct (Z.leb_spec (i + 30) 29); [lia|]. apply andb_false_r. }
  unfold newVirtualTexture.
  destruct (negb (T =? 0) && isPow2 (wrap_int T)); [|discriminate].
  unfold populateTileTree. cbn [tilePath tilePrefix baseSplit tileTree tiles].
  rewrite for_each_fixed.
  - intros [= <-]. cbn. split; [reflexivity|]. split; [reflexivity|].
    unfold catalog. apply bind_nil. intros i Hi. unfold level_catalog.
    now rewrite (Hnone i Hi).
  - intros i Hi. unfold scan_level. now rewrite (Hnone i Hi).
Qed.

(** C9.  Up to absolute level 29 the scan creates a tile at an address
    exactly when some file of the directory of that level is read by
    [sscanf], with the pattern [<prefix>%d_%d.], as the two coordinates
    of the address, these being inside the grid of the level.  Every
    name of the form [<prefix><u>_<v>.<suffix>] with such coordinates is
    read so, and gets its tile.  One tile is made for each file taken,
    and none for any other.  With a [%] in the prefix nothing is read
    and the tree stays empty. *)
Theorem scan_inserts_accepted_files (fs : FileSystem) (root : string)
    (B T : Z) (prefix type : string) :
  levels_defined fs root B -> T <> 0 -> isPow2 (wrap_int T) = true ->
  exists s,
    newVirtualTexture fs root B T prefix type = Some s /\
    (forall level u v, 0 <= level <= 29 -> in_grid level u v ->
       tile_at (tileTree s) level u v <> None <->
       exists i d,
         0 <= i < MaxResolutionLevels /\ is_directory fs root i = true /\
         In d (directory_entries fs root i) /\ level = i + B /\
         has_percent prefix = false /\
         sscanf (prefix ++ "%d_%d.") d = [u; v]) /\
    (forall i d u v,
       0 <= i < MaxResolutionLevels -> is_directory fs root i = true ->
       In d (directory_entries fs root i) -> i + B <= 29 ->
       has_percent prefix = false ->
       named_tile prefix d = Some (u, v) -> in_grid (i + B) u v ->
       tile_at (tileTree s) (i + B) u v <> None) /\
    tiles s = replicate (length (catalog (below30 fs B) root prefix B))
                        newTile /\
    (has_percent prefix = true ->
     tileTree s = (emptyNode, emptyNode) /\ tiles s = []).
Proof.
  intros Hdef HT Hpow. pose proof Hdef as [HB Hdirs].
  destruct (newVirtualTexture_defined fs root B T prefix type HT Hpow)
    as (s & Hs & _).
  destruct (newVirtualTexture_below30 _ _ _ _ _ _ _ Hdef Hs)
    as (s' & Hs' & Htree & Htiles).
  exists s. split; [exact Hs|]. rewrite <- Htree, <- Htiles.
  assert (Hiff : forall level u v, 0 <= level <= 29 -> in_grid level u v ->
            tile_at (tileTree s') level u v <> None <->
            exists i d,
              0 <= i < MaxResolutionLevels /\ is_directory fs root i = true /\
              In d (directory_entries fs root i) /\ level = i + B /\
              has_percent prefix = false /\
              sscanf (prefix ++ "%d_%d.") d = [u; v]).
  { intros level u v Hl Hg.
    destruct (Z.eq_dec B 30) as [->|HB30].
    - destruct (newVirtualTexture_base30 _ _ _ _ _ _ Hs') as (-> & _ & _).
      rewrite tile_at_empty. split; [congruence|].
      intros (i & d & Hi & _ & _ & -> & _). lia.
    - destruct (scan_catalog_fit (below30 fs B) root B T prefix type
                  (levels_fit_below30 fs root B ltac:(lia)) HT Hpow)
        as (s'' & Hs'' & Hfit & _).
      assert (s'' = s') by congruence. subst s''.
      rewrite (Hfit level u v ltac:(lia) Hg). split.
      + intros (i & d & Hi & Hdir & Hd & -> & Hrest).
        cbn [is_directory directory_entries below30] in Hdir, Hd.
        apply andb_true_iff in Hdir. exists i, d. tauto.
      + intros (i & d & Hi & Hdir & Hd & -> & Hrest).
        exists i, d. cbn [is_directory directory_entries below30].
        rewrite Hdir. destruct (Z.leb_spec (i + B) 29); [|lia]. tauto. }
  split; [exact Hiff|]. split; [|split].
  - intros i d u v Hi Hdir Hd Hlevel Hp Hname Hg.
    assert (H0 : 0 <= i + B <= 29) by lia.
    apply (Hiff (i + B) u v H0 Hg). exists i, d.
    repeat (split; [assumption || reflexivity|]).
    destruct Hg as [Hu Hv].
    assert (Hpow30 : 2 ^ (i + B + 1) <= 2 ^ 30 /\ 2 ^ (i + B) <= 2 ^ 29)
      by (split; apply pow2_le; lia).
    apply named_tile_sscanf; try assumption; word_lia.
  - destruct (Z.eq_dec B 30) as [->|HB30].
    + destruct (newVirtualTexture_base30 _ _ _ _ _ _ Hs') as (_ & -> & ->).
      reflexivity.
    + destruct (scan_catalog_fit (below30 fs B) root B T prefix type
                  (levels_fit_below30 fs root B ltac:(lia)) HT Hpow)
        as (s'' & Hs'' & _ & _ & Hrep & _).
      assert (s'' = s') by congruence. subst s''. exact Hrep.
  - intros Hpc. destruct (Z.eq_dec B 30) as [->|HB30].
    + destruct (newVirtualTexture_base30 _ _ _ _ _ _ Hs') as (-> & -> & _).
      now split.
    + destruct (scan_catalog_fit (below30 fs B) root B T prefix type
                  (levels_fit_below30 fs root B ltac:(lia)) HT Hpow)
        as (s'' & Hs'' & _ & _ & _ & Hempty).
      assert (s'' = s') by congruence. subst s''. exact (Hempty Hpc).
Qed.

End Level30.

(** ** The theorems on sample data *)

Module Witness.

Import Sample.
Local Open Scope string_scope.

Example sscanf_tile_name : sscanf "tx_%d_%d." "tx_7_3.dds" = [7; 3].
Proof. reflexivity. Qed.

Example sscanf_malformed : sscanf "tx_%d_%d." "tx_abc.dds" = [].
Proof. reflexivity. Qed.

(** The suffix is not compared, and need not be there. *)
Example sscanf_no_suffix : sscanf "tx_%d_%d." "tx_7_3" = [7; 3].
Proof. reflexivity. Qed.

(** With base split 0 the grid of [level1] is 4 x 2: of the three names
    of [fs1] only [tx_3_1.dds] creates a tile. *)
Example catalog_fs1 : catalog fs1 "root" "tx_" 0 = [(1, 3, 1)].
Proof. reflexivity. Qed.


Lemma levels_counted_witness :
  exists s,
    @newVirtualTexture ext fs012 "root" 2 128 "tx_" "dds" = Some s /\
    nResolutionLevels s = 5 /\ getLODCount s = 3.
Proof.
  destruct (@levels_counted ext fs012 "root" 2 128 "tx_" "dds")
    as (s & Hs & _ & _ & _ & Hexample).
  - lia.
  - discriminate.
  - reflexivity.
  - exists s. split; [exact Hs|]. apply Hexample; [reflexivity|].
    intros i Hi. cbn. destruct (Z.leb_spec 0 i); [reflexivity | lia].
Defined.

Lemma inserted_tile_is_best_match_witness :
  bestMatch tree_b 1 3 1 = Some (Some 0%nat, 1) /\
  getTile vt_b env0 0 3 1 =
  Some (with_tilesRequested vt_b 1, env0, TextureTile5 7 0 0 1 1).
Proof.
  destruct (@inserted_tile_is_best_match ext (emptyNode, emptyNode) tree_a
              tree_b 0%nat 1 3 1 [(1%nat, 2, 0, 0)]) as [Hbest Hget].
  - unfold valid_address, in_grid. cbn. lia.
  - reflexivity.
  - reflexivity.
  - repeat constructor; cbn; lia.
  - reflexivity.
  - split; [exact Hbest|].
    apply (Hget vt_b env0 0 {| tex := Some (7 : @ImageTexture ext);
                               loadFailed := false |} (7 : @ImageTexture ext));
      try reflexivity.
    + cbn. lia.
    + unfold is_int. lia.
Defined.

Lemma getTile_total_witness :
  exists s' e' D,
    getTile vt02 env0 5 0 0 = Some (s', e', D) /\ D = noTexture.
Proof.
  destruct (getTile_total vt02 env0 5 0 0) as (s' & e' & D & Hget & Hout).
  - unfold wf, MaxResolutionLevels; cbn;
    repeat split; first [lia | reflexivity].
  - unfold is_int. lia.
  - exists s', e', D. split; [exact Hget|]. apply Hout.
    intros [Hlevel _]. cbn in Hlevel. lia.
Defined.

(** The tile [(3, 1)] of [vt02] does not decode; the request for it
    returns the empty descriptor, and so it does again after another
    request, without a second decode. *)
Lemma residency_settles_once_witness :
  exists s1 e1 s2 e2 s3,
    getTile vt02 env0 0 3 1 = Some (s1, e1, noTexture) /\
    serve [(2, 0, 0)] s1 e1 = Some (s2, e2) /\
    getTile s2 e2 0 3 1 = Some (s3, e2, noTexture) /\
    tiles s3 = tiles s2.
Proof.
  destruct (getTile vt02 env0 0 3 1) as [[[s1 e1] D]|] eqn:Hget;
    [|vm_compute in Hget; discriminate].
  assert (HD : D = noTexture)
    by (vm_compute in Hget; injection Hget as _ _ <-; reflexivity).
  subst D.
  destruct (serve [(2, 0, 0)] s1 e1) as [[s2 e2]|] eqn:Hserve.
  2:{ vm_compute in Hget. injection Hget as <- <-. vm_compute in Hserve.
      discriminate. }
  destruct (proj1 (proj2 (proj2 (@residency_settles_once ext)))
              vt02 env0 0 3 1 s1 e1 noTexture [(2, 0, 0)] s2 e2 Hget Hserve)
    as (s3 & Hagain & Htiles).
  exists s1, e1, s2, e2, s3. repeat split; assumption.
Defined.

Lemma tile_depth_is_absolute_level_witness :
  (exists level u v,
     In (0%nat, level, u, v) [(0%nat, 1, 3, 1); (1%nat, 2, 0, 0)] /\
     Z.of_nat (length [(true, true)]) = level) /\
  (exists i u v,
     catalog fs02 "root" "tx_" 1 !! 3%nat = Some (i, u, v) /\
     Z.of_nat (length [(false, false); (false, false); (false, false)])
     = i + 1).
Proof.
  split.
  - apply (proj1 (@tile_depth_is_absolute_level ext)
             [(0%nat, 1, 3, 1); (1%nat, 2, 0, 0)] tree_b 1 (snd tree_b)).
    + repeat constructor; cbn; lia.
    + reflexivity.
    + reflexivity.
    + reflexivity.
  - apply (proj2 (@tile_depth_is_absolute_level ext) fs02 "root" 1 128 "tx_"
             "dds" vt02 0 (fst (tileTree vt02))).
    + unfold levels_fit, MaxResolutionLevels. split; [lia|].
      intros i Hi _. lia.
    + vm_compute. reflexivity.
    + reflexivity.
    + reflexivity.
Defined.

Lemma factory_checks_configuration_witness :
  exists vt,
    @CreateVirtualTexture ext fs02 params "addon" = Some (Some vt) /\
    tileExt vt = ".dds" /\ tilePrefix vt = "tx_".
Proof.
  destruct (@factory_checks_configuration ext fs02 params "addon")
    as [Hnull Hmanager].
  - intros t [= <-]. reflexivity.
  - apply Hmanager. intros Hfails. apply Hnull in Hfails.
    vm_compute in Hfails. discriminate.
Defined.

Lemma scan_inserts_accepted_files_witness :
  exists s,
    @newVirtualTexture ext fs02 "root" 1 128 "tx_" "dds" = Some s /\
    tile_at (tileTree s) 1 3 1 <> None /\
    length (tiles s) = 4%nat.
Proof.
  destruct (@scan_inserts_accepted_files ext fs02 "root" 1 128 "tx_" "dds")
    as (s & Hs & Hiff & _ & Htiles & _).
  - unfold levels_defined, MaxResolutionLevels. split; [lia|].
    intros i Hi _. lia.
  - discriminate.
  - reflexivity.
  - exists s. split; [exact Hs|]. split.
    + apply Hiff; [lia | unfold in_grid; cbn; lia |].
      exists 0, "tx_3_1.dds". repeat split; try reflexivity; try lia.
      cbn. tauto.
    + rewrite Htiles. reflexivity.
Defined.

Lemma getTile_subrect_in_unit_square_witness :
  exists s' e' name texU texV texDU texDV,
    getTile vt02 env0 1 2 0
      = Some (s', e', TextureTile5 name texU texV texDU texDV) /\
    (texDU == 1 / inject_Z (2 ^ 1) /\ texDV == 1 / inject_Z (2 ^ 1) /\
     0 <= texU /\ 0 <= texV /\ texU + texDU <= 1 /\ texV + texDV <= 1)%Q.
Proof.
  destruct (getTile vt02 env0 1 2 0) as [[[s' e'] D]|] eqn:Hget;
    [|vm_compute in Hget; discriminate].
  destruct (getTile_subrect_in_unit_square vt02 s' env0 e' 1 2 0 D)
    as (p & m & name & tu & tv & tdu & tdv & Hbest & Hm & -> & Hrect).
  - cbn. lia.
  - unfold is_int. lia.
  - exact Hget.
  - vm_compute in Hget. injection Hget as _ _ <-. discriminate.
  - assert (Em : m = 1).
    { vm_compute in Hbest. now injection Hbest as _ <-. }
    subst m. exists s', e', name, tu, tv, tdu, tdv.
    split; [reflexivity | exact Hrect].
Defined.

(** ** Where the code departs from the specification *)

(** C2, as stated, fails: with [B = 2] and the directories [level0],
    [level1], [level2], the constructor counts [L = 5] levels and
    [getLODCount] returns 3, not [L = 3] and 1. *)
Lemma levels_counted_counterexample :
  exists s,
    @newVirtualTexture ext fs012 "root" 2 128 "tx_" "dds" = Some s /\
    nResolutionLevels s = 5 /\ getLODCount s = 3 /\
    ~ (nResolutionLevels s = 3 /\ getLODCount s = 1).
Proof.
  eexists. split; [vm_compute; reflexivity|]. cbn.
  repeat split; try reflexivity. intros [H _]. discriminate.
Qed.

(** C7, as stated, fails: with [B = 1] the tile of the file [tx_0_0.dds]
    of [level0], whose absolute level is [0 + 1], hangs one step below
    its root, not [(0 + 1) - 1] steps. *)
Lemma tile_depth_counterexample :
  exists s node,
    @newVirtualTexture ext fs0 "root" 1 128 "tx_" "dds" = Some s /\
    catalog fs0 "root" "tx_" (baseSplit s) !! 0%nat = Some (0, 0, 0) /\
    root_at (tileTree s) 0 = Some node /\
    tile_on [(false, false)] node = Some 0%nat /\
    Z.of_nat (length [(false, false)]) <> (0 + baseSplit s) - baseSplit s.
Proof.
  exists vt0, (fst (tileTree vt0)).
  split; [vm_compute; reflexivity|]. cbn.
  repeat split; try reflexivity. discriminate.
Qed.

(** C9, as stated, fails in two ways.  The name [tx_1_0] has no dot and
    no suffix, and no name of [fs_bare] has the form
    [<prefix><u>_<v>.<suffix>]; yet the scan reads it as [(1, 0)] and
    makes a tile at level 0.  And with base split 30 the name
    [tx_0_0.dds] of [level0] has the form, with [(0, 0)] inside the grid
    of level 30; yet the scan makes no tile, the width [2 << 30] of that
    grid being negative as an [int]. *)
Lemma scan_inserts_counterexample :
  (exists s,
     @newVirtualTexture ext fs_bare "root" 0 128 "tx_" "dds" = Some s /\
     tile_at (tileTree s) 0 1 0 <> None /\
     forall i d, In d (directory_entries fs_bare "root" i) ->
                 named_tile "tx_" d = None) /\
  (exists s,
     @newVirtualTexture ext fs0 "root" 30 128 "tx_" "dds" = Some s /\
     is_directory fs0 "root" 0 = true /\
     In "tx_0_0.dds" (directory_entries fs0 "root" 0) /\
     named_tile "tx_" "tx_0_0.dds" = Some (0, 0) /\ in_grid (0 + 30) 0 0 /\
     tile_at (tileTree s) (0 + 30) 0 0 = None /\ tiles s = []).
Proof.
  split.
  - eexists. split; [vm_compute; reflexivity|]. split.
    + vm_compute. discriminate.
    + intros i d [<-|[]]. reflexivity.
  - eexists. split; [vm_compute; reflexivity|].
    split; [reflexivity|]. split; [now left|]. split; [reflexivity|].
    split; [unfold in_grid; split; split; reflexivity || discriminate|].
    split; [vm_compute|]; reflexivity.
Qed.

(** C8.  The factory does not turn away every tile size that is not a
    power of two.  The tile size [3 * 2^30] of [params_wide] is an
    integer, not below 64 and not a power of two, so one of the checks
    of the configuration fails; but the factory tests [(int) tileSize],
    which is [INT_MIN] for a number that does not fit an [int], and
    [isPow2] holds of it.  The factory goes on to the constructor, whose
    own assertion [isPow2(tileSize)] fails on the tile size it is given:
    the result is not the null result. *)
Theorem tile_size_check_overflow :
  TileSize params_wide = Some (inject_Z 3221225472) /\
  integral (inject_Z 3221225472) /\ (64 <= inject_Z 3221225472)%Q /\
  ~ power_of_two (inject_Z 3221225472) /\
  config_fails params_wide /\
  isPow2 (double_to_int (inject_Z 3221225472)) = true /\
  isPow2 (wrap_int (double_to_uint (inject_Z 3221225472))) = false /\
  @CreateVirtualTexture ext fs02 params_wide "addon" = None /\
  @CreateVirtualTexture ext fs02 params_wide "addon" <> Some None.
Proof.
  assert (Hnot : ~ power_of_two (inject_Z 3221225472)).
  { intros (k & Hk & Heq). apply (proj1 (inject_Z_injective _ _)) in Heq.
    destruct (Z.le_gt_cases k 31) as [Hle|Hgt].
    - pose proof (pow2_le k 31 ltac:(lia)) as H.
      change (2 ^ 31) with 2147483648 in H. lia.
    - pose proof (pow2_le 32 k ltac:(lia)) as H.
      change (2 ^ 32) with 4294967296 in H. lia. }
  split; [reflexivity|]. split; [now exists 3221225472|].
  split; [discriminate|]. split; [exact Hnot|].
  split.
  { right. right. right. exists (inject_Z 3221225472).
    split; [reflexivity|]. right. right. exact Hnot. }
  split; [reflexivity|]. split; [reflexivity|].
  split; [vm_compute; reflexivity | vm_compute; discriminate].
Qed.

(** C3 fails on the code: with [B = 1] the tile found in [level2] is
    loaded from [level1], because [loadTileTexture] shifts the depth
    [2 + 1] right by the base split where the scan had added it. *)
Theorem load_level_mismatch :
  exists s' e' D f,
    catalog fs02 "root" "tx_" 1 !! 3%nat = Some (2, 0, 0) /\
    tile_at (tileTree vt02) 3 0 0 = Some 3%nat /\
    getTile vt02 env0 2 0 0 = Some (s', e', D) /\
    decoded e' = [f] /\ fileLevel f = 1 /\ fileLevel f <> 2.
Proof.
  do 4 eexists. split; [reflexivity|]. split; [reflexivity|].
  split; [vm_compute; reflexivity|]. cbn.
  split; [reflexivity|]. split; [reflexivity | discriminate].
Qed.

End Witness.

(** ** The further theorems on sample data *)

Module Instances.

Import Sample.
Local Open Scope string_scope.

Lemma isPow2_zero_or_power_witness :
  isPow2 64 = true <-> 64 = 0 \/ exists k, 0 <= k <= 30 /\ 64 = 2 ^ k.
Proof. apply (isPow2_zero_or_power 64). split; reflexivity. Defined.

(** With base split 1 and tiles of 128 pixels the texture is 512 by 256
    pixels, four tiles by two. *)
Lemma texture_dimensions_witness :
  textureWidth 1 128 = getUTileCount vt02 0 * tileSize vt02 /\
  textureHeight 1 128 = getVTileCount vt02 0 * tileSize vt02 /\
  textureWidth 1 128 = 2 * textureHeight 1 128.
Proof.
  apply (texture_dimensions fs02 "root" 1 128 "tx_" "dds" vt02).
  - lia.
  - lia.
  - reflexivity.
  - vm_compute. reflexivity.
Defined.

Lemma tile_counts_double_witness :
  getUTileCount vt02 1 = 2 ^ (1 + baseSplit vt02 + 1) /\
  getVTileCount vt02 1 = 2 ^ (1 + baseSplit vt02) /\
  getUTileCount vt02 1 = 2 * getVTileCount vt02 1 /\
  getUTileCount vt02 (1 + 1) = 2 * getUTileCount vt02 1 /\
  getVTileCount vt02 (1 + 1) = 2 * getVTileCount vt02 1 /\
  getUTileCount vt02 (1 + 1) * getVTileCount vt02 (1 + 1) =
    4 * (getUTileCount vt02 1 * getVTileCount vt02 1).
Proof. apply (tile_counts_double vt02 1). cbn. lia. Defined.

Lemma advertised_range_witness :
  out_of_range vt02 (wrap_int (0 + baseSplit vt02)) 2 0 = false <->
  0 < getLODCount vt02 /\ 0 <= 2 < getUTileCount vt02 0 /\
  0 <= 0 < getVTileCount vt02 0.
Proof.
  apply (advertised_range vt02 env0 0 2 0).
  - unfold wf, MaxResolutionLevels; cbn;
    repeat split; first [lia | reflexivity].
  - unfold is_int. lia.
  - cbn. lia.
Defined.

(** The address [(1, 3, 1)] of [tree_a] is taken by tile 0; tile 5 is
    turned away. *)
Lemma addTileToTree_occupied_witness :
  addTileToTree tree_a 5 1 3 1 = Some tree_a.
Proof.
  apply (addTileToTree_occupied tree_a 5%nat 0%nat 1 3 1).
  - lia.
  - cbn. lia.
  - reflexivity.
Defined.

Lemma insert_all_any_order_witness :
  insert_all [(0%nat, 1, 3, 1); (1%nat, 2, 0, 0)] (emptyNode, emptyNode) =
  insert_all [(1%nat, 2, 0, 0); (0%nat, 1, 3, 1)] (emptyNode, emptyNode).
Proof.
  apply insert_all_any_order.
  - repeat constructor; cbn; lia.
  - apply (bool_decide_unpack _). vm_compute. reflexivity.
  - apply perm_swap.
Defined.

(** The request [(1, 2, 0)] of [vt02] loads tile 2. *)
Lemma getTile_effect_witness :
  exists s' e' D,
    getTile vt02 env0 1 2 0 = Some (s', e', D) /\
    config s' = config vt02 /\ ticks s' = ticks vt02 /\
    tilesRequested s' = wrap_uint (tilesRequested vt02 + 1).
Proof.
  destruct (getTile vt02 env0 1 2 0) as [[[s' e'] D]|] eqn:Hget;
    [|vm_compute in Hget; discriminate].
  destruct (getTile_effect vt02 s' env0 e' 1 2 0 D Hget)
    as (Hc & Ht & _ & Hr & _).
  exists s', e', D. repeat split; assumption.
Defined.

(** Two requests for the same tile within a frame: one decode. *)
Lemma one_decode_per_tile_witness :
  exists s' e' Ds,
    run [CallBeginUsage; CallGetTile 1 2 0; CallGetTile 1 2 0; CallEndUsage]
        vt02 env0 = Some (s', e', Ds) /\
    (length (decoded e') + pending (tiles s') =
     length (decoded env0) + pending (tiles vt02))%nat /\
    length (tiles s') = length (tiles vt02) /\
    (length (decoded e') <= length (decoded env0) + length (tiles vt02))%nat.
Proof.
  destruct (run [CallBeginUsage; CallGetTile 1 2 0; CallGetTile 1 2 0;
                 CallEndUsage] vt02 env0) as [[[s' e'] Ds]|] eqn:Hrun;
    [|vm_compute in Hrun; discriminate].
  exists s', e', Ds. split; [reflexivity|].
  exact (one_decode_per_tile _ vt02 s' env0 e' Ds Hrun).
Defined.

Lemma usage_counters_witness :
  exists s' e' Ds,
    run ([CallGetTile 0 0 0] ++ CallBeginUsage
           :: [CallGetTile 1 2 0; CallGetTile 7 0 0; CallEndUsage])
        vt02 env0 = Some (s', e', Ds) /\
    ticks s' = 1 /\ tilesRequested s' = 2 /\ length Ds = 3%nat.
Proof.
  destruct (run ([CallGetTile 0 0 0] ++ CallBeginUsage
                   :: [CallGetTile 1 2 0; CallGetTile 7 0 0; CallEndUsage])
                vt02 env0) as [[[s' e'] Ds]|] eqn:Hrun;
    [|vm_compute in Hrun; discriminate].
  exists s', e', Ds. split; [reflexivity|].
  apply (usage_counters [CallGetTile 0 0 0]
           [CallGetTile 1 2 0; CallGetTile 7 0 0; CallEndUsage]
           vt02 s' env0 e' Ds).
  - unfold is_uint. cbn. lia.
  - unfold is_uint. cbn. lia.
  - reflexivity.
  - exact Hrun.
Defined.

Lemma usage_brackets_transparent_witness :
  exists s' e' Ds s'',
    run [CallBeginUsage; CallGetTile 1 2 0; CallEndUsage; CallBeginUsage;
         CallGetTile 0 3 1] vt02 env0 = Some (s', e', Ds) /\
    run [CallGetTile 1 2 0; CallGetTile 0 3 1] vt02 env0
      = Some (s'', e', Ds) /\
    same_but_counters s' s''.
Proof.
  destruct (run [CallBeginUsage; CallGetTile 1 2 0; CallEndUsage;
                 CallBeginUsage; CallGetTile 0 3 1] vt02 env0)
    as [[[s' e'] Ds]|] eqn:Hrun; [|vm_compute in Hrun; discriminate].
  destruct (usage_brackets_transparent _ vt02 s' env0 e' Ds Hrun)
    as (s'' & Hplain & Hsame).
  exists s', e', Ds, s''.
  split; [reflexivity|]. split; [exact Hplain | exact Hsame].
Defined.

(** The request [(1, 2, 0)] of [vt02] is served from the tile of
    [level0/tx_1_0.dds], which decodes. *)
Lemma load_outcomes_witness :
  exists s' e' D p d t',
    getTile vt02 env0 1 2 0 = Some (s', e', D) /\
    bestMatch (tileTree vt02) (1 + baseSplit vt02) 2 0 = Some (Some p, d) /\
    decoded e' = [tile_file vt02 d (2 ≫ (1 + baseSplit vt02 - d))
                            (0 ≫ (1 + baseSplit vt02 - d))] /\
    tiles s' !! p = Some t'.
Proof.
  destruct (getTile vt02 env0 1 2 0) as [[[s' e'] D]|] eqn:Hget;
    [|vm_compute in Hget; discriminate].
  assert (Hdec : decoded e' = tile_file vt02 1 1 0 :: decoded env0).
  { pose proof Hget as H. vm_compute in H. injection H as _ <- _.
    reflexivity. }
  destruct (load_outcomes vt02 s' env0 e' 1 2 0 D (tile_file vt02 1 1 0))
    as (p & d & t' & Hbest & Hf & Hp & _).
  - cbn. lia.
  - unfold is_int. lia.
  - exact Hget.
  - exact Hdec.
  - exists s', e', D, p, d, t'. rewrite <- Hf.
    repeat split; assumption.
Defined.

(** The name written for the tile [(7, 3)] is [tx_7_3.dds]; the scan
    reads it as [(7, 3)] and accepts it at level 2, whose grid is 8 by
    4. *)
Lemma file_name_round_trip_witness :
  let f := {| fileRoot := "root"; fileLevel := 1; filePrefix := "tx_";
              fileU := 7; fileV := 3; fileExt := ".dds" |} in
  file_name f = "tx_7_3.dds" /\
  sscanf (scan_pattern "tx_") (file_name f) = [7; 3] /\
  accepted (scan_pattern "tx_") 2 (file_name f) = Some (7, 3).
Proof.
  intros f. split; [reflexivity|].
  destruct (file_name_round_trip f "dds") as [Hname Hacc].
  - reflexivity.
  - reflexivity.
  - cbn. lia.
  - cbn. lia.
  - split; [exact Hname|]. apply Hacc. unfold in_grid. cbn. lia.
Defined.

Lemma requested_files_are_catalogued_witness :
  exists s' e' D f p i,
    getTile (beginUsage vt02) env0 1 2 0 = Some (s', e', D) /\
    decoded e' = [f] /\
    catalog fs02 "root" "tx_" 1 !! p = Some (i, fileU f, fileV f) /\
    fileLevel f = (i + 1) ≫ 1 /\
    accepted (scan_pattern "tx_") (i + 1) (file_name f)
      = Some (fileU f, fileV f).
Proof.
  destruct (getTile (beginUsage vt02) env0 1 2 0) as [[[s' e'] D]|] eqn:Hget;
    [|vm_compute in Hget; discriminate].
  assert (Hdec : decoded e' = tile_file vt02 1 1 0 :: decoded env0).
  { pose proof Hget as H. vm_compute in H. injection H as _ <- _.
    reflexivity. }
  destruct (requested_files_are_catalogued fs02 "root" 1 128 "tx_" "dds"
              [CallBeginUsage] vt02 (beginUsage vt02) s' env0 env0 e' []
              1 2 0 D (tile_file vt02 1 1 0))
    as (_ & _ & _ & p & i & Hcat & _ & Hlevel & Hacc).
  - unfold levels_fit, MaxResolutionLevels. split; [lia|].
    intros i Hi _. lia.
  - vm_compute. reflexivity.
  - reflexivity.
  - exact Hget.
  - exact Hdec.
  - exists s', e', D, (tile_file vt02 1 1 0), p, i.
    repeat split; assumption.
Defined.

(** The address [(2, 2, 0)] lies below [(1, 1, 0)], the address of tile
    2 of [vt02], and is served from it. *)
Lemma finer_request_keeps_coverage_witness :
  exists p' d',
    bestMatch (tileTree vt02) (1 + 1) 2 0 = Some (Some p', d') /\
    ((p' = 2%nat /\ d' = 1) \/ 1 < d').
Proof.
  apply (finer_request_keeps_coverage (tileTree vt02) 1 1 2 0 1 2%nat).
  - lia.
  - lia.
  - lia.
  - cbn. lia.
  - reflexivity.
Defined.

Lemma walk_finds_nothing_iff_witness :
  (exists d, bestMatch (tileTree vt02) 1 2 1 = Some (None, d)) <->
  forall d, 0 <= d <= 1 -> ancestor_tile (tileTree vt02) 1 2 1 d = None.
Proof.
  apply (walk_finds_nothing_iff (tileTree vt02) 1 2 1).
  - lia.
  - cbn. lia.
Defined.

Lemma no_tile_above_base_split_witness :
  getTile vt02 env0 (-1) 0 0 =
  Some (with_tilesRequested vt02 (wrap_uint (tilesRequested vt02 + 1)),
        env0, noTexture).
Proof.
  destruct (no_tile_above_base_split fs02 "root" 1 128 "tx_" "dds" []
              vt02 vt02 env0 env0 []) as [_ Hneg].
  - unfold levels_fit, MaxResolutionLevels. split; [lia|].
    intros i Hi _. lia.
  - vm_compute. reflexivity.
  - reflexivity.
  - apply Hneg; [unfold is_int|]; lia.
Defined.

(** Tile 2 of [vt02], loaded for the address [(2, 2, 0)], then serves
    its own address [(1, 1, 0)]. *)
Lemma resident_tile_is_shared_witness :
  exists s1 e1 D1 D2,
    getTile vt02 env0 1 2 0 = Some (s1, e1, D1) /\
    getTile s1 e1 0 1 0 =
    Some (with_tilesRequested s1 (wrap_uint (tilesRequested s1 + 1)), e1, D2) /\
    D2 <> noTexture /\ texID D2 = texID D1.
Proof.
  destruct (getTile vt02 env0 1 2 0) as [[[s1 e1] D1]|] eqn:Hget;
    [|vm_compute in Hget; discriminate].
  destruct (resident_tile_is_shared [CallEndUsage] vt02 s1 s1 env0 e1 e1 []
              1 2 0 0 1 0 1 1 2%nat D1) as (D2 & H2 & Hne & Hid).
  - exact Hget.
  - pose proof Hget as H. vm_compute in H. injection H as _ _ <-.
    discriminate.
  - reflexivity.
  - reflexivity.
  - pose proof Hget as H. vm_compute in H. injection H as <- _ _.
    reflexivity.
  - pose proof Hget as H. vm_compute in H. injection H as <- _ _.
    reflexivity.
  - exists s1, e1, D1, D2. repeat split; assumption.
Defined.

Lemma children_quarter_the_rectangle_witness :
  exists U V S U' V' S',
    subTile 7 2 1 2 1 = TextureTile5 7 U V S S /\
    subTile 7 (2 + 1) 1 (2 * 2 + 1) (2 * 1 + 0) = TextureTile5 7 U' V' S' S' /\
    (S' == S / 2 /\ U' == U + inject_Z 1 * S' /\ V' == V + inject_Z 0 * S')%Q.
Proof. apply (children_quarter_the_rectangle 7 2 1 2 1 1 0); lia. Defined.

Lemma lodOffset_counts_tiles_witness :
  lodOffset 0 = 0 /\
  lodOffset (3 + 1) = lodOffset 3 + getUTileCount blank 3 * getVTileCount blank 3 /\
  3 * lodOffset (3 + 1) = 2 * (4 ^ (3 + 1) - 1).
Proof.
  apply (lodOffset_counts_tiles blank 3).
  - reflexivity.
  - lia.
Defined.

Lemma factory_builds_fresh_manager_witness :
  exists vt,
    @CreateVirtualTexture ext fs02 params "addon" = Some (Some vt) /\
    tilePath vt = "addon/tiles" /\
    (inject_Z (baseSplit vt) == 1)%Q /\ (inject_Z (tileSize vt) == 128)%Q /\
    ticks vt = 0 /\ pending (tiles vt) = length (tiles vt).
Proof.
  destruct (@CreateVirtualTexture ext fs02 params "addon") as [[vt|]|] eqn:Hvt;
    [| vm_compute in Hvt; discriminate | vm_compute in Hvt; discriminate ].
  exists vt. split; [reflexivity|].
  apply (factory_builds_fresh_manager fs02 params "addon" "tiles" 1 128 vt).
  - reflexivity.
  - reflexivity.
  - reflexivity.
  - reflexivity.
  - reflexivity.
  - exact Hvt.
Defined.

(** The directory [level20] of [fs02_deep] makes no difference. *)
Lemma scan_reads_thirteen_levels_witness :
  @newVirtualTexture ext fs02 "root" 1 128 "tx_" "dds" =
  newVirtualTexture fs02_deep "root" 1 128 "tx_" "dds".
Proof.
  apply scan_reads_thirteen_levels.
  intros i Hi. unfold MaxResolutionLevels in Hi. cbn.
  destruct (Z.eqb_spec i 20) as [->|_]; [lia|].
  rewrite orb_false_r. split; reflexivity.
Defined.

Lemma lod_count_from_directories_witness :
  getLODCount vt0 = 0 + 1 /\ 1 <= getLODCount vt0 <= 13.
Proof.
  apply (lod_count_from_directories fs0 "root" 1 128 "tx_" "dds" vt0).
  - split; [lia | reflexivity].
  - vm_compute. reflexivity.
Defined.

End Instances.
